(** * DataParallelPPOActor (verl/workers/actor/dp_actor.py)

    A shallow embedding of the single-process PPO actor: the per-micro-batch
    forward ([_forward_micro_batch], [_forward_micro_batch_2]), the guarded
    optimizer step ([_optimizer_step]), the log-probability passes
    ([compute_log_prob], [compute_log_prob_pr], [compute_all_logits]) and the
    training step ([update_policy]).

    Conventions.
    - A tensor is a list of rows; a number is a rational.  The properties
      below are about which operation is applied to which operand, never
      about rounding.  Values that may be non-finite (the gradient norm, the
      entries of the metrics dictionary) are [pyfloat]s.
    - Python exceptions are the [Err] branch of [result].
    - The object [self] is the record [actor]; methods thread it explicitly.
      Its field [trace] is a ghost log of the calls made to the model and to
      the optimizer, in program order.
    - The model, the optimizer, the loss kernels of [core_algos] and the
      sequence-parallel collectives are the fields of [Collaborators].
    - The model is trainable: outside [torch.no_grad] a value computed from
      its output has a [grad_fn].  The tensors of a batch are plain data and
      have none. *)

From Stdlib Require Import ZArith QArith List Lia Lqa String.
From stdpp Require Import base gmap strings list fin_maps numbers.

Local Open Scope string_scope.
Local Open Scope list_scope.
Local Open Scope Z_scope.

(** ** Exceptions and the error monad *)

Inductive exn :=
  | AssertionError
  | KeyError
  | IndexError
  | AttributeError
  | NotImplementedError
  | ZeroDivisionError
  | RuntimeError.

Inductive result (A : Type) :=
  | Ok (a : A)
  | Err (e : exn).
Arguments Ok {A} a.
Arguments Err {A} e.

#[export] Instance result_ret : MRet result := fun A a => Ok a.
#[export] Instance result_bind : MBind result := fun A B f m =>
  match m with
  | Ok a => f a
  | Err e => Err e
  end.
#[export] Instance result_fmap : FMap result := fun A B f m =>
  match m with
  | Ok a => Ok (f a)
  | Err e => Err e
  end.

Definition is_Ok {A} (r : result A) : Prop := exists a, r = Ok a.

(** Whether a computation returned, as a boolean. *)
Definition succeeds {A} (m : result A) : bool :=
  match m with
  | Ok _ => true
  | Err _ => false
  end.

(** [assert c] *)
Definition assert (c : bool) : result unit :=
  if c then Ok tt else Err AssertionError.

Definition of_option {A} (e : exn) (o : option A) : result A :=
  match o with
  | Some a => Ok a
  | None => Err e
  end.

(** ** Numbers *)

(** A Python float as far as the code looks at it: finite or not. *)
Inductive pyfloat :=
  | Fin (q : Q)
  | PInf
  | NInf
  | NaN.

(** [torch.isfinite] *)
Definition isfinite (x : pyfloat) : bool :=
  match x with
  | Fin _ => true
  | _ => false
  end.

Definition is_zero (x : Q) : bool := Qeq_bool x 0.

Definition qsum (l : list Q) : Q := foldr Qplus 0%Q l.

(** ** Tensors *)

(** A 2-D tensor, row-major.  [size_last] is [t.size(-1)]; on a tensor with
    no row the width is not recorded and reads 0. *)
Abbreviation tensor := (list (list Q)).

Definition size_last {A} (t : list (list A)) : nat :=
  match t with
  | [] => O
  | r :: _ => length r
  end.

(** Python's [l[start:stop]] with step 1: a negative bound counts from the
    end, and both bounds are clamped to [0, len(l)]. *)
Definition slice_bound (n i : Z) : Z :=
  if i <? 0 then Z.max 0 (n + i) else Z.min n i.

Definition py_slice {A} (start stop : option Z) (l : list A) : list A :=
  let n := Z.of_nat (length l) in
  let lo := from_option (slice_bound n) 0 start in
  let hi := from_option (slice_bound n) n stop in
  take (Z.to_nat (hi - lo)) (drop (Z.to_nat lo) l).

(** An elementwise operation on a 2-D tensor. *)
Definition map2d {A B} (f : A -> B) (t : list (list A)) : list (list B) :=
  (fun row : list A => f <$> row) <$> t.


(** [t[:, start:stop]] *)
Definition slice_cols {A} (start stop : option Z) (t : list (list A)) : list (list A) :=
  py_slice start stop <$> t.

(** Columns [lo] up to but excluding [hi] of every row. *)
Definition columns {A} (lo hi : nat) (t : list (list A)) : list (list A) :=
  (fun row : list A => take (hi - lo) (drop lo row)) <$> t.

(** [t[:, -response_length - 1:-1]] *)
Definition response_slice {A} (response_length : nat) (t : list (list A)) : list (list A) :=
  slice_cols (Some (- Z.of_nat response_length - 1)) (Some (-1)) t.

(** [torch.roll(x, shifts=-1, dims=1)] on one row. *)
Definition roll_left {A} (l : list A) : list A :=
  match l with
  | [] => []
  | x :: l' => l' ++ [x]
  end.

(** [torch.concat(ts, dim=0)]; an empty list of tensors is refused. *)
Definition torch_concat {A} (ts : list (list A)) : result (list A) :=
  match ts with
  | [] => Err RuntimeError
  | _ => Ok (concat ts)
  end.

(** [t[idx]] with an index tensor: row [p] of the result is row [idx[p]]. *)
Definition index_rows {A} (t : list A) (idx : list nat) : result (list A) :=
  mapM (fun i => of_option IndexError (t !! i)) idx.

(** [output.logits.squeeze(0)] on a tensor whose leading dimension is the
    batch of one packed row.  Any other leading dimension is left in place by
    torch and the flat labels no longer match it. *)
Definition squeeze0 {A} (t : list (list A)) : result (list A) :=
  match t with
  | [r] => Ok r
  | _ => Err RuntimeError
  end.

(** *** Packing (flash_attn.bert_padding) *)

(** [torch.nonzero(mask.flatten())], counting positions from [k]. *)
Fixpoint nonzero_from (k : nat) (l : list Q) : list nat :=
  match l with
  | [] => []
  | x :: l' =>
      if is_zero x then nonzero_from (S k) l' else k :: nonzero_from (S k) l'
  end.

(** Modelled from the spec: [unpad_input] of flash_attn is not under src/.
    Section 4.1: every position whose mask is false is removed, the valid
    positions are concatenated in row-major order, and [indices[i]] is the flat
    [example * S + position] origin of [flat[i]].  Returns the indices; the
    values are [index_first_axis] of the flattened tensor. *)
Definition unpad_indices (attention_mask : tensor) : list nat :=
  nonzero_from 0 (concat attention_mask).

(** [index_first_axis(rearrange(x, "b s ... -> (b s) ..."), indices)] *)
Definition index_first_axis {A} (x : list (list A)) (indices : list nat) : result (list A) :=
  index_rows (concat x) indices.

Definition unpad_input (hidden_states attention_mask : tensor) : result (list Q * list nat) :=
  let indices := unpad_indices attention_mask in
  flat ← index_first_axis hidden_states indices;
  Ok (flat, indices).

(** [x.reshape(batch, seqlen)] of a flat list. *)
Fixpoint reshape {A} (batch seqlen : nat) (l : list A) : list (list A) :=
  match batch with
  | O => []
  | S b => take seqlen l :: reshape b seqlen (drop seqlen l)
  end.

(** [output[indices] = hidden_states] *)
Definition scatter {A} (out : list A) (indices : list nat) (hidden : list A) : list A :=
  fold_left (fun o ih => <[ih.1 := ih.2]> o) (zip indices hidden) out.

(** Modelled from the spec: [pad_input] of flash_attn is not under src/.
    Section 4.1: [flat] is scattered back to its origin positions and every
    position absent from [indices] is zero.  A value count that differs from
    the index count, or an index outside the [batch * seqlen] positions, is an
    error. *)
Definition pad_input {A} (zero : A) (hidden_states : list A) (indices : list nat)
  (batch seqlen : nat) : result (list (list A)) :=
  if negb (length hidden_states =? length indices)%nat then Err RuntimeError
  else if negb (forallb (fun i => i <? batch * seqlen)%nat indices) then Err IndexError
  else Ok (reshape batch seqlen
             (scatter (replicate (batch * seqlen) zero) indices hidden_states)).

(** ** Batches *)

(** A [TensorDict]: named tensors sharing the leading dimension [batch_size]. *)
Record TensorDict := {
  batch_size : nat;
  tensors : gmap string tensor;
}.

(** [td[key]] *)
Definition getitem (td : TensorDict) (key : string) : result tensor :=
  of_option KeyError (tensors td !! key).

(** [key in td] *)
Definition contains (td : TensorDict) (key : string) : bool :=
  bool_decide (is_Some (tensors td !! key)).

(** [len(td)] *)
Definition td_len (td : TensorDict) : nat := batch_size td.

(** Every tensor has [batch_size] rows. *)
Definition td_wf (td : TensorDict) : Prop :=
  forall key t, tensors td !! key = Some t -> length t = batch_size td.

(** Modelled from the spec: [DataProto.select] (verl/protocol.py) is not
    under src/.  Section 3: a batch is a mapping of named tensors; section 7: a
    schema mismatch is fatal.  The selection keeps exactly the named tensors
    and fails on a name the batch does not have. *)
Definition select (td : TensorDict) (batch_keys : list string) : result TensorDict :=
  kts ← mapM (fun key => t ← getitem td key; Ok (key, t)) batch_keys;
  Ok {| batch_size := batch_size td; tensors := list_to_map kts |}.

(** Rows [lo, lo + n) of every tensor. *)
Definition td_rows (td : TensorDict) (lo n : nat) : TensorDict :=
  {| batch_size := Nat.min n (batch_size td - lo);
     tensors := (fun t : tensor => take n (drop lo t)) <$> tensors td |}.

(** Modelled from the spec: [TensorDict.split] is not under src/.  Section
    4.6 step 2 and section 4.3 (fixed mode): contiguous chunks of the
    configured size along the example dimension, the last one holding the
    remainder; an empty batch is one empty chunk.  A size below 1 is refused. *)
Definition split (td : TensorDict) (split_size : Z) : result (list TensorDict) :=
  if split_size <=? 0 then Err RuntimeError
  else
    let n := Z.to_nat split_size in
    let k := Nat.max 1 (Nat.div (batch_size td + n - 1) n) in
    Ok ((fun i => td_rows td (i * n) n) <$> seq 0 k).

(** The examples [idxs] of every tensor, in that order
    ([torch.cat([batch[i:i+1] for i in idxs])]). *)
Definition td_gather (td : TensorDict) (idxs : list nat) : TensorDict :=
  {| batch_size := length idxs;
     tensors := (fun t : tensor => omap (fun i => t !! i) idxs) <$> tensors td |}.

(** [del td[key]] *)
Definition td_delete (td : TensorDict) (key : string) : TensorDict :=
  {| batch_size := batch_size td; tensors := delete key (tensors td) |}.

(** [td.pop(key)] *)
Definition td_pop (td : TensorDict) (key : string) : result (tensor * TensorDict) :=
  t ← getitem td key;
  Ok (t, td_delete td key).

(** [td[key] = t] *)
Definition td_set (td : TensorDict) (key : string) (t : tensor) : TensorDict :=
  {| batch_size := batch_size td; tensors := <[key := t]> (tensors td) |}.

(** [s.replace(old, new)] for a non-empty [old]: the occurrences are replaced
    from the left, without overlap.  [skip] counts the characters of an
    occurrence still to be dropped. *)
Fixpoint str_replace_from (old new : string) (skip : nat) (s : string) : string :=
  match s with
  | EmptyString => EmptyString
  | String c s' =>
      match skip with
      | S k => str_replace_from old new k s'
      | O =>
          if String.prefix old s
          then new +:+ str_replace_from old new (String.length old - 1)%nat s'
          else String c (str_replace_from old new 0%nat s')
      end
  end.

Definition str_replace (old new s : string) : string := str_replace_from old new 0%nat s.

(** Source lines 357-358: every selected tensor is moved to its name without
    '_pr'. *)
Fixpoint rename_pr (batch : TensorDict) (select_keys : list string) : result TensorDict :=
  match select_keys with
  | [] => Ok batch
  | select_k :: rest =>
      '(t, batch) ← td_pop batch select_k;
      rename_pr (td_set batch (str_replace "_pr" "" select_k) t) rest
  end.

(** *** Dynamic micro-batches (verl.utils.seqlen_balancing) *)

(** One greedy step: example [i] of [n] tokens joins the first group that
    stays within the budget, or opens a new group. *)
Fixpoint place (budget : Q) (i : nat) (n : Q) (groups : list (Q * list nat))
  : list (Q * list nat) :=
  match groups with
  | [] => [(n, [i])]
  | g :: gs =>
      if Qle_bool (g.1 + n) budget then ((g.1 + n)%Q, g.2 ++ [i]) :: gs
      else g :: place budget i n gs
  end.

Fixpoint plan_from (budget : Q) (i : nat) (seqlens : list Q) (groups : list (Q * list nat))
  : list (Q * list nat) :=
  match seqlens with
  | [] => groups
  | n :: rest => plan_from budget (S i) rest (place budget i n groups)
  end.

(** Modelled from the spec: [rearrange_micro_batches] is not under src/.
    Section 4.3 (dynamic mode): examples are grouped greedily so that the
    total token count of a group (the sum of the sequence lengths) does not
    exceed the budget; the result is the grouped micro-batches and the list of
    index lists recording which original example is in which slot. *)
Definition rearrange_micro_batches (batch : TensorDict) (max_token_len : Z)
  : result (list TensorDict * list (list nat)) :=
  attention_mask ← getitem batch "attention_mask";
  let seq_len_effective := qsum <$> attention_mask in
  let micro_bsz_idx := snd <$> plan_from (inject_Z max_token_len) 0 seq_len_effective [] in
  Ok (td_gather batch <$> micro_bsz_idx, micro_bsz_idx).

Fixpoint get_reverse_idx_from (i : nat) (idx_map reverse_idx_map : list nat)
  : result (list nat) :=
  match idx_map with
  | [] => Ok reverse_idx_map
  | idx :: rest =>
      if (idx <? length reverse_idx_map)%nat
      then get_reverse_idx_from (S i) rest (<[idx := i]> reverse_idx_map)
      else Err IndexError
  end.

(** Modelled from the spec: [get_reverse_idx] is not under src/.  Section
    4.3: the reverse permutation of the flattened index list, that is
    [reverse[idx_map[i]] = i] for every slot [i], written into a copy of the
    list. *)
Definition get_reverse_idx (idx_map : list nat) : result (list nat) :=
  get_reverse_idx_from 0 idx_map idx_map.

(** *** Metrics *)

(** A value of the metrics dictionary: a number, or a list of numbers. *)
Inductive metric :=
  | MScalar (x : pyfloat)
  | MList (xs : list pyfloat).

(** Modelled from the spec: [append_to_dict] of verl.utils.py_functional is
    not under src/.  Sections 3 and 9: the accumulator maps a name to an
    ordered sequence and has a single append operation; a name seen for the
    first time starts an empty sequence. *)
Definition append_to_dict (data : gmap string metric) (new_data : list (string * pyfloat))
  : result (gmap string metric) :=
  foldl (fun acc kv =>
           d ← acc;
           match d !! kv.1 with
           | None => Ok (<[kv.1 := MList [kv.2]]> d)
           | Some (MList xs) => Ok (<[kv.1 := MList (xs ++ [kv.2])]> d)
           | Some (MScalar _) => Err AttributeError
           end) (Ok data) new_data.

(** What the name [data] is bound to inside the micro-batch loop of
    [update_policy]: the micro-batch, or the dictionary of diagnostics that
    the normal branch assigns to the same name. *)
Inductive pyobj :=
  | PyTensorDict (td : TensorDict)
  | PyDict (d : list (string * pyfloat)).

(** [len(data)] *)
Definition py_len (o : pyobj) : nat :=
  match o with
  | PyTensorDict td => td_len td
  | PyDict d => length d
  end.

(** *** The supervised loss (source lines 559-564 and 582-587) *)

Definition eps : Q := 1 # 1000000.

(** [a * b], elementwise on tensors of one shape *)
Definition mul2d (a b : tensor) : tensor := zip_with (zip_with Qmult) a b.

(** [t.sum(dim=1)] *)
Definition sum_dim1 (t : tensor) : list Q := qsum <$> t.

(** [torch.count_nonzero] *)
Definition count_nonzero (l : list Q) : nat :=
  length (filter (fun x => is_zero x = false) l).

Definition of_nat (n : nat) : Q := inject_Z (Z.of_nat n).

Definition sft_loss_of (ground_truth_mask_pr old_log_prob_pr : tensor) : Q :=
  let gt_old_log_prob_pr := mul2d ground_truth_mask_pr old_log_prob_pr in
  let token_mean_gt_old_log_prob_pr :=
    zip_with (fun s c => s / (c + eps))%Q
      (sum_dim1 gt_old_log_prob_pr) (sum_dim1 ground_truth_mask_pr) in
  let sft_log_probs :=
    (qsum token_mean_gt_old_log_prob_pr
     / (of_nat (count_nonzero token_mean_gt_old_log_prob_pr) + eps))%Q in
  (- sft_log_probs)%Q.

(** The supervised loss as the specification words it: the per-example
    masked means, summed, over the number of examples that have at least one
    ground-truth token. *)
Definition has_ground_truth (mask_row : list Q) : bool :=
  existsb (fun m => negb (is_zero m)) mask_row.

Definition sft_loss_spec (ground_truth_mask_pr old_log_prob_pr : tensor) : Q :=
  let masked_mean :=
    zip_with (fun mask_row lp_row =>
                (qsum (zip_with Qmult mask_row lp_row) / (qsum mask_row + eps))%Q)
      ground_truth_mask_pr old_log_prob_pr in
  let examples := length (filter (fun row => has_ground_truth row = true) ground_truth_mask_pr) in
  (- (qsum masked_mean / (of_nat examples + eps)))%Q.

(** The per-example means of line 561 (and 584). *)
Definition token_means (ground_truth_mask_pr old_log_prob_pr : tensor) : list Q :=
  zip_with (fun s c => s / (c + eps))%Q
    (sum_dim1 (mul2d ground_truth_mask_pr old_log_prob_pr))
    (sum_dim1 ground_truth_mask_pr).

(** The masked sum of one example: the numerator of line 561. *)
Definition masked_sum (mask_row lp_row : list Q) : Q := qsum (zip_with Qmult mask_row lp_row).

(** A row of a 0/1 mask over strictly negative log-probabilities. *)
Definition proper_row (mask_row lp_row : list Q) : Prop :=
  Forall2 (fun m l => m == 0 \/ (m == 1 /\ l < 0))%Q mask_row lp_row.

(** [x / d] for a scalar tensor [x] and a Python integer [d]: dividing by
    zero is not an exception on a tensor. *)
Definition tensor_div (x : Q) (d : Z) : pyfloat :=
  if d =? 0 then
    (if Qeq_bool x 0 then NaN else if Qle_bool 0 x then PInf else NInf)
  else Fin (x / inject_Z d).

(** ** The actor and its collaborators *)

(** The keyword arguments of one call of [self.actor_module]. *)
Record forward_args := {
  arg_input_ids : tensor;
  arg_attention_mask : option tensor;
  arg_position_ids : option tensor;
  arg_use_cache : bool;
}.

(** [cliprange]: a pair when the configuration has both [clip_ratio_low] and
    [clip_ratio_high], the single [clip_ratio] otherwise. *)
Inductive cliprange :=
  | ClipPair (low high : Q)
  | ClipRatio (c : Q).

Record Config := {
  use_remove_padding : bool;
  ulysses_sequence_parallel_size : Z;
  grad_clip : option Q;
  use_kl_loss : bool;
  kl_loss_type : string;
  kl_loss_coef : Q;
  use_sft_loss : bool;
  sft_type : option string;
  sft_loss_coef : Q;
  ppo_mini_batch_size : Z;
  ppo_micro_batch_size_per_gpu : Z;
  ppo_max_token_len_per_gpu : Z;
  use_dynamic_bsz : bool;
  clip_ratio : Q;
  clip_ratio_low : option Q;
  clip_ratio_high : option Q;
  entropy_coeff : Q;
  loss_agg_mode : option string;
  max_tokens : option Z;
}.

(** What the actor calls into and does not define. *)
Class Collaborators := {
  Params : Type;
  OptState : Type;
  Grads : Type;
  (** one position's vector of logits over the vocabulary *)
  Logits : Type;
  zero_logits : Logits;
  (** the model's forward, [output.logits]; the flag is train/eval mode *)
  actor_module : Params -> bool -> forward_args -> list (list Logits);
  (** [logits.div_(temperature)] at one position *)
  div_ : Logits -> Q -> Logits;
  (** [verl_F.entropy_from_logits] at one position *)
  entropy_from_logits : Logits -> Q;
  (** the log-softmax of one position's logits at one label *)
  logprob_at : Logits -> Q -> Q;
  (** [verl.utils.ulysses]: pad and take this rank's shard; gather the
      shards of all ranks and drop the padding *)
  ulysses_pad_and_slice_inputs : tensor -> option tensor -> Z -> tensor * option tensor * Z;
  gather_outpus_and_unpad : list Q -> Z -> list Q;
  (** [core_algos] *)
  compute_policy_loss :
    tensor -> tensor -> tensor -> tensor -> cliprange -> string -> option Z -> Q * Q * Q;
  agg_loss : tensor -> tensor -> string -> option Z -> Q;
  kl_penalty : tensor -> tensor -> string -> tensor;
  (** autograd and the optimizer *)
  zero_grads : Grads;
  backward : Params -> TensorDict -> pyfloat -> Grads -> Grads;
  fsdp_clip_grad_norm_ : Grads -> Q -> Grads * pyfloat;
  clip_grad_norm_ : Grads -> Q -> Grads * pyfloat;
  optimizer_step : Params -> OptState -> Grads -> Params * OptState;
}.

Section Actor.
Context `{Collaborators}.

(** The calls the actor makes, in program order. *)
Inductive event :=
  | Train
  | Eval
  | ModelCall (args : forward_args)
  | ZeroGrad
  | Backward (loss : pyfloat)
  | ClipGradNorm (max_norm : Q)
  | OptimizerStep
  | Warn (grad_norm : pyfloat).

(** [self] *)
Record actor := {
  config : Config;
  is_fsdp : bool;
  params : Params;
  opt_state : OptState;
  grads : Grads;
  training : bool;
  gradient_accumulation : option Z;
  trace : list event;
}.

Definition log (self : actor) (e : event) : actor :=
  {| config := config self; is_fsdp := is_fsdp self; params := params self;
     opt_state := opt_state self; grads := grads self; training := training self;
     gradient_accumulation := gradient_accumulation self;
     trace := trace self ++ [e] |}.

(** [self.use_ulysses_sp], set in [__init__]. *)
Definition use_ulysses_sp (self : actor) : bool :=
  1 <? ulysses_sequence_parallel_size (config self).

(** [self.actor_module(...)] *)
Definition call_model (self : actor) (args : forward_args)
  : list (list Logits) * actor :=
  (actor_module (params self) (training self) args, log self (ModelCall args)).

(** Modelled from the spec: [logprobs_from_logits] of
    verl.utils.torch_functional is not under src/.  Section 4.4: the
    log-probability of the realized next token is the log-softmax value at the
    label index, and a shape mismatch between labels and logits is fatal. *)
Definition logprobs_from_logits (logits : list Logits) (labels : list Q)
  : result (list Q) :=
  if (length logits =? length labels)%nat
  then Ok (zip_with logprob_at logits labels)
  else Err RuntimeError.

(** The same on a [(bsz, len, vocab)] tensor with [(bsz, len)] labels. *)
Definition logprobs_from_logits_2d (logits : list (list Logits)) (labels : tensor)
  : result tensor :=
  if (length logits =? length labels)%nat
  then mapM (fun ll => logprobs_from_logits ll.1 ll.2) (zip logits labels)
  else Err RuntimeError.

(** The packed forward up to the flat per-token results, shared by
    [_forward_micro_batch] and [_forward_micro_batch_2] (source lines 76-110
    and 163-203). *)
Record packed_out := {
  po_indices : list nat;
  po_pad_size : Z;
  po_logits : list Logits;
  po_entropy : list Q;
  po_log_probs : list Q;
}.

(** Source lines 87-93: under sequence parallelism the packed ids, positions
    and labels are padded and cut to this rank's shard.  Without it the name
    [pad_size] stays unbound; it reads 0 here and is not used. *)
Definition ulysses_inputs (self : actor)
  (input_ids_rmpad position_ids_rmpad input_ids_rmpad_rolled : tensor)
  : tensor * option tensor * tensor * Z :=
  if use_ulysses_sp self then
    let sp := ulysses_sequence_parallel_size (config self) in
    let '(ids, pos, pad_size) :=
      ulysses_pad_and_slice_inputs input_ids_rmpad (Some position_ids_rmpad) sp in
    let '(rolled, _, _) :=
      ulysses_pad_and_slice_inputs input_ids_rmpad_rolled None sp in
    (ids, pos, rolled, pad_size)
  else (input_ids_rmpad, Some position_ids_rmpad, input_ids_rmpad_rolled, 0).

(** Source lines 113-119: the flat results are gathered over the ranks and
    unpadded under sequence parallelism. *)
Definition ulysses_gather (self : actor) (pad_size : Z) (x : list Q) : list Q :=
  if use_ulysses_sp self then gather_outpus_and_unpad x pad_size else x.

Definition packed_forward (self : actor) (input_ids attention_mask position_ids : tensor)
  (temperature : Q) : result (packed_out * actor) :=
  '(input_ids_rmpad, indices) ← unpad_input input_ids attention_mask;
  let input_ids_rmpad := [input_ids_rmpad] in
  position_ids_rmpad ← index_first_axis position_ids indices;
  let position_ids_rmpad := [position_ids_rmpad] in
  let input_ids_rmpad_rolled := roll_left <$> input_ids_rmpad in
  let '(input_ids_rmpad, position_ids_rmpad, input_ids_rmpad_rolled, pad_size) :=
    ulysses_inputs self input_ids_rmpad position_ids_rmpad input_ids_rmpad_rolled in
  input_ids_rmpad_rolled ← squeeze0 input_ids_rmpad_rolled;
  let '(output, self) :=
    call_model self {| arg_input_ids := input_ids_rmpad;
                       arg_attention_mask := None;
                       arg_position_ids := position_ids_rmpad;
                       arg_use_cache := false |} in
  logits_rmpad ← squeeze0 output;
  let logits_rmpad := (fun l => div_ l temperature) <$> logits_rmpad in
  let entropy_rmpad := entropy_from_logits <$> logits_rmpad in
  log_probs ← logprobs_from_logits logits_rmpad input_ids_rmpad_rolled;
  Ok ({| po_indices := indices; po_pad_size := pad_size; po_logits := logits_rmpad;
         po_entropy := entropy_rmpad; po_log_probs := log_probs |}, self).

(** The dense forward up to the sliced logits (source lines 136-142 and
    241-247). *)
Definition dense_forward (self : actor) (input_ids attention_mask position_ids : tensor)
  (response_length : nat) (temperature : Q) : list (list Logits) * actor :=
  let '(logits, self) :=
    call_model self {| arg_input_ids := input_ids;
                       arg_attention_mask := Some attention_mask;
                       arg_position_ids := Some position_ids;
                       arg_use_cache := false |} in
  let logits := map2d (fun l => div_ l temperature) logits in
  (response_slice response_length logits, self).

Definition _forward_micro_batch (self : actor) (micro_batch : TensorDict) (temperature : Q)
  : result (tensor * tensor * actor) :=
  responses ← getitem micro_batch "responses";
  let response_length := size_last responses in
  input_ids ← getitem micro_batch "input_ids";
  let batch_size := length input_ids in
  let seqlen := size_last input_ids in
  attention_mask ← getitem micro_batch "attention_mask";
  position_ids ← getitem micro_batch "position_ids";
  if use_remove_padding (config self) then
    '(po, self) ← packed_forward self input_ids attention_mask position_ids temperature;
    let log_probs := ulysses_gather self (po_pad_size po) (po_log_probs po) in
    let entropy_rmpad := ulysses_gather self (po_pad_size po) (po_entropy po) in
    full_entropy ← pad_input 0%Q entropy_rmpad (po_indices po) batch_size seqlen;
    full_log_probs ← pad_input 0%Q log_probs (po_indices po) batch_size seqlen;
    let entropy := response_slice response_length full_entropy in
    let log_probs := response_slice response_length full_log_probs in
    Ok (entropy, log_probs, self)
  else
    let '(logits, self) :=
      dense_forward self input_ids attention_mask position_ids response_length temperature in
    log_probs ← logprobs_from_logits_2d logits responses;
    let entropy := map2d entropy_from_logits logits in
    Ok (entropy, log_probs, self).

Definition _forward_micro_batch_2 (self : actor) (micro_batch : TensorDict) (temperature : Q)
  : result (tensor * tensor * list (list Logits) * actor) :=
  responses ← getitem micro_batch "responses";
  let response_length := size_last responses in
  input_ids ← getitem micro_batch "input_ids";
  let batch_size := length input_ids in
  let seqlen := size_last input_ids in
  attention_mask ← getitem micro_batch "attention_mask";
  position_ids ← getitem micro_batch "position_ids";
  if use_remove_padding (config self) then
    '(po, self) ← packed_forward self input_ids attention_mask position_ids temperature;
    '(log_probs, entropy_rmpad) ←
      (if use_ulysses_sp self then
         let log_probs := gather_outpus_and_unpad (po_log_probs po) (po_pad_size po) in
         let entropy_rmpad := gather_outpus_and_unpad (po_entropy po) (po_pad_size po) in
         _ ← assert false;
         Ok (log_probs, entropy_rmpad)
       else Ok (po_log_probs po, po_entropy po));
    full_entropy ← pad_input 0%Q entropy_rmpad (po_indices po) batch_size seqlen;
    full_log_probs ← pad_input 0%Q log_probs (po_indices po) batch_size seqlen;
    all_logits ← pad_input zero_logits (po_logits po) (po_indices po) batch_size seqlen;
    let entropy := response_slice response_length full_entropy in
    let log_probs := response_slice response_length full_log_probs in
    let all_logits := response_slice response_length all_logits in
    Ok (entropy, log_probs, all_logits, self)
  else
    let '(logits, self) :=
      dense_forward self input_ids attention_mask position_ids response_length temperature in
    log_probs ← logprobs_from_logits_2d logits responses;
    let entropy := map2d entropy_from_logits logits in
    let all_logits := logits in
    Ok (entropy, log_probs, all_logits, self).

(** *** Field updates of [self] *)

Definition set_training (self : actor) (b : bool) : actor :=
  {| config := config self; is_fsdp := is_fsdp self; params := params self;
     opt_state := opt_state self; grads := grads self; training := b;
     gradient_accumulation := gradient_accumulation self; trace := trace self |}.

Definition set_grads (self : actor) (g : Grads) : actor :=
  {| config := config self; is_fsdp := is_fsdp self; params := params self;
     opt_state := opt_state self; grads := g; training := training self;
     gradient_accumulation := gradient_accumulation self; trace := trace self |}.

Definition set_optimized (self : actor) (po : Params * OptState) : actor :=
  {| config := config self; is_fsdp := is_fsdp self; params := po.1;
     opt_state := po.2; grads := grads self; training := training self;
     gradient_accumulation := gradient_accumulation self; trace := trace self |}.

Definition set_gradient_accumulation (self : actor) (ga : Z) : actor :=
  {| config := config self; is_fsdp := is_fsdp self; params := params self;
     opt_state := opt_state self; grads := grads self; training := training self;
     gradient_accumulation := Some ga; trace := trace self |}.

(** [self.actor_module.train()], [self.actor_module.eval()] *)
Definition train (self : actor) : actor := log (set_training self true) Train.
Definition eval (self : actor) : actor := log (set_training self false) Eval.

(** [self.actor_optimizer.zero_grad()] *)
Definition zero_grad (self : actor) : actor := log (set_grads self zero_grads) ZeroGrad.

(** [loss.backward()] on the loss of micro-batch [data].  Autograd refuses,
    with a RuntimeError, a loss that has no [grad_fn]: a value computed from
    the tensors of a batch alone. *)
Definition loss_backward (self : actor) (data : TensorDict) (loss : pyfloat)
  (has_grad_fn : bool) : result actor :=
  if has_grad_fn
  then Ok (log (set_grads self (backward (params self) data loss (grads self)))
             (Backward loss))
  else Err RuntimeError.

(** ** [_optimizer_step] *)

Definition _optimizer_step (self : actor) : result (pyfloat * actor) :=
  max_norm ← of_option AssertionError (grad_clip (config self));
  let '(g, grad_norm) :=
    if is_fsdp self then fsdp_clip_grad_norm_ (grads self) max_norm
    else clip_grad_norm_ (grads self) max_norm in
  let self := log (set_grads self g) (ClipGradNorm max_norm) in
  if negb (isfinite grad_norm) then
    let self := log self (Warn grad_norm) in
    let self := zero_grad self in
    Ok (grad_norm, self)
  else
    let self :=
      log (set_optimized self (optimizer_step (params self) (opt_state self) (grads self)))
          OptimizerStep in
    Ok (grad_norm, self).

(** ** [compute_log_prob], [compute_all_logits] *)

Record MetaInfo := {
  meta_micro_batch_size : Z;
  meta_temperature : Q;
  meta_use_dynamic_bsz : bool;
  meta_max_token_len : Z;
}.

Record DataProto := {
  batch : TensorDict;
  meta_info : MetaInfo;
}.

(** [data] without the tensor [key]. *)
Definition without_tensor (data : DataProto) (key : string) : DataProto :=
  {| batch := td_delete (batch data) key; meta_info := meta_info data |}.

(** The parallel view of a batch: its four '_pr' tensors under the names
    that [compute_log_prob] reads. *)
Definition parallel_view (data : DataProto)
  (responses input_ids attention_mask position_ids : tensor) : DataProto :=
  {| batch := {| batch_size := batch_size (batch data);
                 tensors := list_to_map [("responses", responses); ("input_ids", input_ids);
                                         ("attention_mask", attention_mask);
                                         ("position_ids", position_ids)] |};
     meta_info := meta_info data |}.

(** Source lines 301-306, 360-365, 422-427.  Without dynamic batching the
    name [indices] stays unbound; it reads as the empty list here and is not
    used. *)
Definition plan_micro_batches (self : actor) (data : DataProto) (batch : TensorDict)
  : result (list TensorDict * list (list nat)) :=
  if meta_use_dynamic_bsz (meta_info data) then
    let max_token_len :=
      meta_max_token_len (meta_info data) * ulysses_sequence_parallel_size (config self) in
    rearrange_micro_batches batch max_token_len
  else
    micro_batches ← split batch (meta_micro_batch_size (meta_info data));
    Ok (micro_batches, []).

(** The loop of source lines 308-315. *)
Fixpoint log_prob_loop (self : actor) (micro_batches : list TensorDict) (temperature : Q)
  (log_probs_lst entropy_lst : list tensor) : result (list tensor * list tensor * actor) :=
  match micro_batches with
  | [] => Ok (log_probs_lst, entropy_lst, self)
  | micro_batch :: rest =>
      '(entropy, log_probs, self) ← _forward_micro_batch self micro_batch temperature;
      log_prob_loop self rest temperature
        (log_probs_lst ++ [log_probs]) (entropy_lst ++ [entropy])
  end.

Definition compute_log_prob (self : actor) (data : DataProto)
  : result (tensor * tensor * actor) :=
  let self := eval self in
  let temperature := meta_temperature (meta_info data) in
  let use_dynamic_bsz := meta_use_dynamic_bsz (meta_info data) in
  let select_keys := ["responses"; "input_ids"; "attention_mask"; "position_ids"] in
  batch ← select (batch data) select_keys;
  '(micro_batches, indices) ← plan_micro_batches self data batch;
  '(log_probs_lst, entropy_lst, self) ← log_prob_loop self micro_batches temperature [] [];
  log_probs ← torch_concat log_probs_lst;
  entropy ← torch_concat entropy_lst;
  if use_dynamic_bsz then
    let indices := concat indices in
    _ ← assert (length indices =? length log_probs)%nat;
    revert_indices ← get_reverse_idx indices;
    log_probs ← index_rows log_probs revert_indices;
    entropy ← index_rows entropy revert_indices;
    Ok (log_probs, entropy, self)
  else Ok (log_probs, entropy, self).

(** Source lines 360-387, the same text as lines 301-328 of
    [compute_log_prob]: plan the micro-batches, run them, concatenate, and
    restore the order under dynamic batching. *)
Definition log_prob_pass (self : actor) (data : DataProto) (batch : TensorDict)
  : result (tensor * tensor * actor) :=
  let temperature := meta_temperature (meta_info data) in
  let use_dynamic_bsz := meta_use_dynamic_bsz (meta_info data) in
  '(micro_batches, indices) ← plan_micro_batches self data batch;
  '(log_probs_lst, entropy_lst, self) ← log_prob_loop self micro_batches temperature [] [];
  log_probs ← torch_concat log_probs_lst;
  entropy ← torch_concat entropy_lst;
  if use_dynamic_bsz then
    let indices := concat indices in
    _ ← assert (length indices =? length log_probs)%nat;
    revert_indices ← get_reverse_idx indices;
    log_probs ← index_rows log_probs revert_indices;
    entropy ← index_rows entropy revert_indices;
    Ok (log_probs, entropy, self)
  else Ok (log_probs, entropy, self).

(** Source lines 330-387. *)
Definition compute_log_prob_pr (self : actor) (data : DataProto)
  : result (tensor * tensor * actor) :=
  let self := eval self in
  let select_keys :=
    ["responses_pr"; "input_ids_pr"; "attention_mask_pr"; "position_ids_pr"] in
  batch ← select (batch data) select_keys;
  batch ← rename_pr batch select_keys;
  log_prob_pass self data batch.

(** The loop of source lines 429-433. *)
Fixpoint all_logits_loop (self : actor) (micro_batches : list TensorDict) (temperature : Q)
  (all_logits_lst : list (list (list Logits)))
  : result (list (list (list Logits)) * actor) :=
  match micro_batches with
  | [] => Ok (all_logits_lst, self)
  | micro_batch :: rest =>
      '(_, _, all_logits, self) ← _forward_micro_batch_2 self micro_batch temperature;
      all_logits_loop self rest temperature (all_logits_lst ++ [all_logits])
  end.

Definition compute_all_logits (self : actor) (data : DataProto)
  : result (list (list Logits) * actor) :=
  let self := eval self in
  let temperature := meta_temperature (meta_info data) in
  let use_dynamic_bsz := meta_use_dynamic_bsz (meta_info data) in
  let select_keys := ["responses"; "input_ids"; "attention_mask"; "position_ids"] in
  batch ← select (batch data) select_keys;
  '(micro_batches, indices) ← plan_micro_batches self data batch;
  '(all_logits_lst, self) ← all_logits_loop self micro_batches temperature [];
  all_logits ← torch_concat all_logits_lst;
  if use_dynamic_bsz then
    let indices := concat indices in
    _ ← assert (length indices =? length all_logits)%nat;
    revert_indices ← get_reverse_idx indices;
    all_logits ← index_rows all_logits revert_indices;
    Ok (all_logits, self)
  else Ok (all_logits, self).

(** ** [update_policy] *)

(** [self.config.get('use_sft_loss', False) and
     self.config.get('sft_type', 'bilevel') == 'multi_task'] *)
Definition sft_multi_task (self : actor) : bool :=
  use_sft_loss (config self)
  && String.eqb (default "bilevel" (sft_type (config self))) "multi_task".

(** [self.config.get('use_sft_loss', False) and
     self.config.get('sft_type') == 'bilevel'] *)
Definition sft_bilevel (self : actor) : bool :=
  use_sft_loss (config self)
  && match sft_type (config self) with
     | Some s => String.eqb s "bilevel"
     | None => false
     end.

(** Source lines 464-481. *)
Definition update_select_keys (self : actor) (data : DataProto) (mode : string)
  : result (list string) :=
  if String.eqb mode "normal" then
    let select_keys :=
      ["responses"; "input_ids"; "attention_mask"; "position_ids";
       "old_log_probs"; "advantages"] in
    let select_keys :=
      if use_kl_loss (config self) then select_keys ++ ["ref_log_prob"]
      else select_keys in
    let select_keys :=
      if sft_multi_task self
      then select_keys ++ ["ground_truth_mask_pr"; "old_log_probs_pr"]
      else select_keys in
    let select_keys :=
      if contains (batch data) "response_mask_prob"
      then select_keys ++ ["response_mask_pr"]
      else select_keys in
    Ok select_keys
  else if String.eqb mode "sft_only" then
    _ ← assert (sft_bilevel self);
    Ok ["responses"; "input_ids"; "attention_mask"; "position_ids";
        "old_log_probs"; "ground_truth_mask_pr"; "old_log_probs_pr"]
  else Err NotImplementedError.

(** Source lines 492-498. *)
Definition update_micro_batches (self : actor) (mini_batch : TensorDict)
  : result (list TensorDict * actor) :=
  if use_dynamic_bsz (config self) then
    let max_token_len :=
      ppo_max_token_len_per_gpu (config self)
      * ulysses_sequence_parallel_size (config self) in
    '(micro_batches, _) ← rearrange_micro_batches mini_batch max_token_len;
    Ok (micro_batches, self)
  else
    if ppo_micro_batch_size_per_gpu (config self) =? 0 then Err ZeroDivisionError
    else
      let self :=
        set_gradient_accumulation self
          (ppo_mini_batch_size (config self) / ppo_micro_batch_size_per_gpu (config self)) in
      micro_batches ← split mini_batch (ppo_micro_batch_size_per_gpu (config self));
      Ok (micro_batches, self).

(** Source lines 505-512: the response mask of a micro-batch. *)
Definition response_mask_of (data : TensorDict) : result tensor :=
  responses ← getitem data "responses";
  let response_length := size_last responses in
  if contains data "response_mask_pr" then getitem data "response_mask_pr"
  else
    attention_mask ← getitem data "attention_mask";
    Ok (slice_cols (Some (- Z.of_nat response_length)) None attention_mask).

(** Source lines 555-567 and 579-590: the supervised loss of a micro-batch
    and its two entries of [metrics]. *)
Definition sft_terms (self : actor) (data : TensorDict) (metrics : gmap string metric)
  : result (Q * gmap string metric) :=
  ground_truth_mask_pr ← getitem data "ground_truth_mask_pr";
  old_log_prob_pr ← getitem data "old_log_probs_pr";
  let sft_loss := sft_loss_of ground_truth_mask_pr old_log_prob_pr in
  let metrics := <["actor/sft_loss" := MScalar (Fin sft_loss)]> metrics in
  let metrics := <["actor/sft_coef" := MScalar (Fin (sft_loss_coef (config self)))]> metrics in
  Ok (sft_loss, metrics).

(** Source lines 541-552: the KL term of the normal branch. *)
Definition add_kl_loss (self : actor) (data : TensorDict) (log_prob response_mask : tensor)
  (policy_loss : Q) (metrics : gmap string metric) : result (Q * gmap string metric) :=
  if use_kl_loss (config self) then
    let loss_agg_mode := default "token-mean" (loss_agg_mode (config self)) in
    let max_tokens := max_tokens (config self) in
    ref_log_prob ← getitem data "ref_log_prob";
    let kld := kl_penalty log_prob ref_log_prob (kl_loss_type (config self)) in
    let kl_loss := agg_loss kld response_mask loss_agg_mode max_tokens in
    let policy_loss := (policy_loss + kl_loss * kl_loss_coef (config self))%Q in
    let metrics := <["actor/kl_loss" := MScalar (Fin kl_loss)]> metrics in
    let metrics :=
      <["actor/kl_coef" := MScalar (Fin (kl_loss_coef (config self)))]> metrics in
    Ok (policy_loss, metrics)
  else Ok (policy_loss, metrics).

(** Source lines 554-567: the supervised term of the normal branch. *)
Definition add_sft_loss (self : actor) (data : TensorDict) (policy_loss : Q)
  (metrics : gmap string metric) : result (Q * gmap string metric) :=
  if sft_multi_task self then
    '(sft_loss, metrics) ← sft_terms self data metrics;
    Ok ((policy_loss + sft_loss * sft_loss_coef (config self))%Q, metrics)
  else Ok (policy_loss, metrics).

(** Source lines 505-575: the normal branch of the micro-batch body.
    Returns the policy loss, the new binding of the name [data], the metrics
    and [self]. *)
Definition normal_branch (self : actor) (data : TensorDict) (temperature : Q)
  (metrics : gmap string metric) : result (Q * pyobj * gmap string metric * actor) :=
  response_mask ← response_mask_of data;
  old_log_prob ← getitem data "old_log_probs";
  advantages ← getitem data "advantages";
  let clip_ratio :=
    match clip_ratio_low (config self), clip_ratio_high (config self) with
    | Some low, Some high => ClipPair low high
    | _, _ => ClipRatio (clip_ratio (config self))
    end in
  let entropy_coeff := entropy_coeff (config self) in
  let loss_agg_mode := default "token-mean" (loss_agg_mode (config self)) in
  let max_tokens := max_tokens (config self) in
  '(entropy, log_prob, self) ← _forward_micro_batch self data temperature;
  let '(pg_loss, pg_clipfrac, ppo_kl) :=
    compute_policy_loss old_log_prob log_prob advantages response_mask clip_ratio
      loss_agg_mode max_tokens in
  let entropy_loss := agg_loss entropy response_mask loss_agg_mode max_tokens in
  let policy_loss := (pg_loss - entropy_loss * entropy_coeff)%Q in
  '(policy_loss, metrics) ←
    add_kl_loss self data log_prob response_mask policy_loss metrics;
  '(policy_loss, metrics) ← add_sft_loss self data policy_loss metrics;
  let data :=
    [("actor/entropy_loss", Fin entropy_loss);
     ("actor/pg_loss", Fin pg_loss);
     ("actor/pg_clipfrac", Fin pg_clipfrac);
     ("actor/ppo_kl", Fin ppo_kl)] in
  metrics ← append_to_dict metrics data;
  Ok (policy_loss, PyDict data, metrics, self).

(** Source lines 577-590: the supervised-only branch; the name [data] keeps
    the micro-batch. *)
Definition sft_only_branch (self : actor) (data : TensorDict)
  (metrics : gmap string metric) : result (Q * pyobj * gmap string metric * actor) :=
  _ ← assert (sft_bilevel self);
  '(sft_loss, metrics) ← sft_terms self data metrics;
  let policy_loss := (sft_loss * sft_loss_coef (config self))%Q in
  Ok (policy_loss, PyTensorDict data, metrics, self).

(** Source lines 595-599: the loss handed to [backward], from the policy
    loss and whatever the name [data] is bound to at that point. *)
Definition scale_loss (self : actor) (policy_loss : Q) (data : pyobj) : result pyfloat :=
  if use_dynamic_bsz (config self) then
    if ppo_mini_batch_size (config self) =? 0 then Err ZeroDivisionError
    else
      Ok (Fin (policy_loss
               * (of_nat (py_len data) / inject_Z (ppo_mini_batch_size (config self)))))
  else
    ga ← of_option AttributeError (gradient_accumulation self);
    Ok (tensor_div policy_loss ga).

(** Whether the loss of a mode has a [grad_fn] when line 600 runs.  The
    normal branch computes it from [log_prob] and [entropy], the outputs of
    the model on this micro-batch (lines 524-539).  The supervised-only branch
    computes it from 'ground_truth_mask_pr' and 'old_log_probs_pr' alone
    (lines 579-588): two tensors of the batch, which autograd does not track. *)
Definition loss_has_grad_fn (mode : string) : bool := String.eqb mode "normal".

(** Source lines 502-600: one iteration of the micro-batch loop. *)
Definition micro_batch_step (self : actor) (mode : string) (temperature : Q)
  (metrics : gmap string metric) (micro_batch : TensorDict)
  : result (gmap string metric * actor) :=
  '(policy_loss, data, metrics, self) ←
    (if String.eqb mode "normal" then normal_branch self micro_batch temperature metrics
     else if String.eqb mode "sft_only" then sft_only_branch self micro_batch metrics
     else Err NotImplementedError);
  loss ← scale_loss self policy_loss data;
  self ← loss_backward self micro_batch loss (loss_has_grad_fn mode);
  Ok (metrics, self).

Fixpoint micro_batch_loop (self : actor) (mode : string) (temperature : Q)
  (metrics : gmap string metric) (micro_batches : list TensorDict)
  : result (gmap string metric * actor) :=
  match micro_batches with
  | [] => Ok (metrics, self)
  | micro_batch :: rest =>
      '(metrics, self) ← micro_batch_step self mode temperature metrics micro_batch;
      micro_batch_loop self mode temperature metrics rest
  end.

(** Source lines 604-609. *)
Definition record_grad_norm (mode : string) (metrics : gmap string metric)
  (grad_norm : pyfloat) : result (gmap string metric) :=
  if String.eqb mode "normal" then append_to_dict metrics [("actor/grad_norm", grad_norm)]
  else if String.eqb mode "sft_only"
  then append_to_dict metrics [("acotr/sft_grad_norm", grad_norm)]
  else Ok metrics.

(** Source lines 490-609: one iteration of the mini-batch loop. *)
Definition mini_batch_step (self : actor) (mode : string) (temperature : Q)
  (metrics : gmap string metric) (mini_batch : TensorDict)
  : result (gmap string metric * actor) :=
  '(micro_batches, self) ← update_micro_batches self mini_batch;
  let self := zero_grad self in
  '(metrics, self) ← micro_batch_loop self mode temperature metrics micro_batches;
  '(grad_norm, self) ← _optimizer_step self;
  metrics ← record_grad_norm mode metrics grad_norm;
  Ok (metrics, self).

Fixpoint mini_batch_loop (self : actor) (mode : string) (temperature : Q)
  (metrics : gmap string metric) (dataloader : list TensorDict)
  : result (gmap string metric * actor) :=
  match dataloader with
  | [] => Ok (metrics, self)
  | mini_batch :: rest =>
      '(metrics, self) ← mini_batch_step self mode temperature metrics mini_batch;
      mini_batch_loop self mode temperature metrics rest
  end.

Definition update_policy (self : actor) (data : DataProto) (mode : string)
  : result (gmap string metric * actor) :=
  let self := train self in
  let temperature := meta_temperature (meta_info data) in
  select_keys ← update_select_keys self data mode;
  batch ← select (batch data) select_keys;
  dataloader ← split batch (ppo_mini_batch_size (config self));
  '(metrics, self) ← mini_batch_loop self mode temperature ∅ dataloader;
  let self := zero_grad self in
  Ok (metrics, self).

(** *** Reading the metrics and the trace *)

(** The sequence recorded under a name; empty when the name is absent or
    holds a single number. *)
Definition metric_list (metrics : gmap string metric) (key : string) : list pyfloat :=
  match metrics !! key with
  | Some (MList xs) => xs
  | _ => []
  end.

(** The name under which a mode records the gradient norm (source lines
    605 and 608). *)
Definition grad_norm_key (mode : string) : string :=
  if String.eqb mode "normal" then "actor/grad_norm" else "acotr/sft_grad_norm".

(** The four diagnostics of the normal branch (source lines 569-574). *)
Definition loss_keys : list string :=
  ["actor/entropy_loss"; "actor/pg_loss"; "actor/pg_clipfrac"; "actor/ppo_kl"].

(** The names that hold a single number, which every micro-batch that
    computes it overwrites (source lines 551-552, 566-567, 589-590). *)
Definition scalar_keys : list string :=
  ["actor/kl_loss"; "actor/kl_coef"; "actor/sft_loss"; "actor/sft_coef"].

(** The events of one mini-batch: gradients are zeroed, the micro-batches
    accumulate (model calls and backward passes only), and the optimizer step
    clips and then either updates, or warns and zeroes. *)
Definition accumulation_event (e : event) : Prop :=
  match e with
  | ModelCall _ | Backward _ => True
  | _ => False
  end.

(** The clipping primitive that [_optimizer_step] calls on [self]: the
    clipped gradients and the norm. *)
Definition clipped (self : actor) (max_norm : Q) : Grads * pyfloat :=
  if is_fsdp self then fsdp_clip_grad_norm_ (grads self) max_norm
  else clip_grad_norm_ (grads self) max_norm.

(** What a micro-batch iteration may change of [self]: the gradients, and
    the trace, by accumulation events only. *)
Definition accumulates (self self' : actor) : Prop :=
  config self' = config self
  /\ is_fsdp self' = is_fsdp self
  /\ params self' = params self
  /\ opt_state self' = opt_state self
  /\ training self' = training self
  /\ gradient_accumulation self' = gradient_accumulation self
  /\ exists acc, trace self' = trace self ++ acc /\ Forall accumulation_event acc.

Definition optimizer_events (t : list event) : Prop :=
  exists max_norm,
    t = [ClipGradNorm max_norm; OptimizerStep]
    \/ exists grad_norm, t = [ClipGradNorm max_norm; Warn grad_norm; ZeroGrad].

Definition mini_batch_events (t : list event) : Prop :=
  exists acc opt,
    t = ZeroGrad :: acc ++ opt /\ Forall accumulation_event acc /\ optimizer_events opt.

(** Counting the events of a trace. *)
Definition is_model_call (e : event) : bool :=
  match e with
  | ModelCall _ => true
  | _ => false
  end.

Definition is_backward (e : event) : bool :=
  match e with
  | Backward _ => true
  | _ => false
  end.

Definition count_events (p : event -> bool) (t : list event) : nat :=
  length (List.filter p t).

End Actor.

(** ** A stub environment and test batches

    A fixed stub model (the logits of a position are its token id), stub loss
    kernels, and an optimizer whose gradient is the list of the losses handed
    to [backward]; its norm is not finite as soon as one of them is not. *)

Definition stub : Collaborators := {|
  Params := Z;
  OptState := Z;
  Grads := list pyfloat;
  Logits := Q;
  zero_logits := 0%Q;
  actor_module := fun _ _ args => arg_input_ids args;
  div_ := fun l t => (l / t)%Q;
  entropy_from_logits := fun l => l;
  logprob_at := fun l y => (l - y)%Q;
  ulysses_pad_and_slice_inputs := fun ids pos _ => (ids, pos, 0);
  gather_outpus_and_unpad := fun x _ => x;
  compute_policy_loss := fun _ _ _ eos_mask _ _ _ => (qsum (concat eos_mask), 0%Q, 0%Q);
  agg_loss := fun x mask _ _ => qsum (concat (mul2d x mask));
  kl_penalty := fun log_prob _ _ => log_prob;
  zero_grads := [];
  backward := fun _ _ loss g => g ++ [loss];
  fsdp_clip_grad_norm_ := fun g _ =>
    (g, if forallb isfinite g then Fin (of_nat (length g)) else NaN);
  clip_grad_norm_ := fun g _ =>
    (g, if forallb isfinite g then Fin (of_nat (length g)) else NaN);
  optimizer_step := fun p o g => (p + 1, o + Z.of_nat (length g));
|}.

Definition make_config (rmpad : bool) (sp : Z) (dynamic : bool) (mini micro : Z)
  (sft : bool) (sft_kind : option string) : Config := {|
  use_remove_padding := rmpad;
  ulysses_sequence_parallel_size := sp;
  grad_clip := Some 1%Q;
  use_kl_loss := false;
  kl_loss_type := "kl";
  kl_loss_coef := 0%Q;
  use_sft_loss := sft;
  sft_type := sft_kind;
  sft_loss_coef := 1%Q;
  ppo_mini_batch_size := mini;
  ppo_micro_batch_size_per_gpu := micro;
  ppo_max_token_len_per_gpu := 8;
  use_dynamic_bsz := dynamic;
  clip_ratio := (1 # 5)%Q;
  clip_ratio_low := None;
  clip_ratio_high := None;
  entropy_coeff := 0%Q;
  loss_agg_mode := None;
  max_tokens := None;
|}.

(** Packing, fixed micro-batches of one example, mini-batches of two. *)
Definition test_config : Config := make_config true 1 false 2 1 false None.

(** The same without packing, and with a sequence-parallel width of 2. *)
Definition dense_config : Config := make_config false 1 false 2 1 false None.
Definition sp_config : Config := make_config true 2 false 2 1 false None.

(** Dynamic micro-batches within a budget of 8 tokens; a micro-batch size
    above the mini-batch size, which makes the accumulation count 0. *)
Definition dynamic_config : Config := make_config true 1 true 2 1 false None.
Definition zero_accumulation_config : Config := make_config true 1 false 1 2 false None.

Definition with_config (c : Config) : @actor stub :=
  @Build_actor stub c false 0 0 [] false None [].

Definition test_actor : @actor stub := with_config test_config.

(** Two sequences of lengths 3 and 5 padded on the left to 5 positions, of
    which the last 2 are the response. *)
Definition test_tensors : gmap string tensor :=
  list_to_map
    [("input_ids", [[0; 0; 11; 12; 13]; [21; 22; 23; 24; 25]]%Q);
     ("attention_mask", [[0; 0; 1; 1; 1]; [1; 1; 1; 1; 1]]%Q);
     ("position_ids", [[0; 0; 0; 1; 2]; [0; 1; 2; 3; 4]]%Q);
     ("responses", [[12; 13]; [24; 25]]%Q);
     ("old_log_probs", [[-1; -1]; [-1; -1]]%Q);
     ("advantages", [[1; 1]; [1; 1]]%Q)].

Definition test_batch : TensorDict :=
  {| batch_size := 2; tensors := test_tensors |}.

Definition test_meta : MetaInfo := {|
  meta_micro_batch_size := 1;
  meta_temperature := 1%Q;
  meta_use_dynamic_bsz := true;
  meta_max_token_len := 5;
|}.

Definition test_data : DataProto := {| batch := test_batch; meta_info := test_meta |}.

(** Three sequences of lengths 3, 5 and 2: under a budget of 5 tokens the
    greedy planner puts the first and the third together. *)
Definition test_tensors3 : gmap string tensor :=
  list_to_map
    [("input_ids", [[0; 0; 11; 12; 13]; [21; 22; 23; 24; 25]; [0; 0; 0; 31; 32]]%Q);
     ("attention_mask", [[0; 0; 1; 1; 1]; [1; 1; 1; 1; 1]; [0; 0; 0; 1; 1]]%Q);
     ("position_ids", [[0; 0; 0; 1; 2]; [0; 1; 2; 3; 4]; [0; 0; 0; 0; 1]]%Q);
     ("responses", [[12; 13]; [24; 25]; [31; 32]]%Q)].

Definition test_data3 : DataProto :=
  {| batch := {| batch_size := 3; tensors := test_tensors3 |}; meta_info := test_meta |}.


(** One sequence of 3 tokens with an empty response. *)
Definition empty_response_batch : TensorDict :=
  {| batch_size := 1;
     tensors := list_to_map [("responses", [[]]); ("attention_mask", [[1; 1; 1]]%Q)] |}.

(** The test batch with the two tensors of the supervised loss, and a
    configuration of the supervised-only mode. *)
Definition sft_batch : TensorDict :=
  {| batch_size := 2;
     tensors := <["ground_truth_mask_pr" := [[1; 0]; [1; 1]]%Q]>
                  (<["old_log_probs_pr" := [[-1; -2]; [-3; -4]]%Q]> test_tensors) |}.

Definition sft_config : Config := make_config true 1 false 2 1 true (Some "bilevel").

(** The same with dynamic micro-batches, and with the supervised loss added
    to the normal mode. *)
Definition sft_dynamic_config : Config := make_config true 1 true 2 1 true (Some "bilevel").
Definition multi_task_config : Config := make_config true 1 false 2 1 true (Some "multi_task").

(** * Properties *)

(** ** The error monad *)

Lemma bind_Ok {A B} (m : result A) (f : A -> result B) (b : B) :
  m ≫= f = Ok b -> exists a, m = Ok a /\ f a = Ok b.
Proof. destruct m as [a|e]; [eauto | discriminate]. Qed.

Lemma bind_Err {A B} (m : result A) (f : A -> result B) (e : exn) :
  m = Err e -> m ≫= f = Err e.
Proof. now intros ->. Qed.

Lemma assert_Ok (c : bool) (u : unit) : assert c = Ok u -> c = true.
Proof. now destruct c. Qed.

Lemma bind_Ok_l {A B} (a : A) (f : A -> result B) : Ok a ≫= f = f a.
Proof. reflexivity. Qed.

Lemma succeeds_Ok {A} (m : result A) : succeeds m = true -> exists a, m = Ok a.
Proof. destruct m as [a|e]; [eauto|discriminate]. Qed.

(** Splits a hypothesis [x ← m; k = Ok b] into [m = Ok x] and [k = Ok b]. *)
Ltac bind_inv H :=
  let a := fresh "a" in
  let Ha := fresh "Ha" in
  apply bind_Ok in H as (a & Ha & H).

(** Splits a [Forall] or [Forall2] over a literal list into its elements. *)
Ltac forall_rows :=
  repeat first [apply Forall_nil_2 | apply Forall_cons_2
               | apply Forall2_nil | apply Forall2_cons].

Lemma mapM_Ok_length {A B} (f : A -> result B) (l : list A) (l' : list B) :
  mapM f l = Ok l' -> length l' = length l.
Proof.
  revert l'. induction l as [|x l IH]; intros l' Hm; simpl in Hm.
  - now inversion Hm.
  - bind_inv Hm. bind_inv Hm. inversion Hm; subst. simpl. f_equal. eauto.
Qed.

Lemma mapM_Ok_lookup {A B} (f : A -> result B) (l : list A) (l' : list B) (i : nat) (x : A) :
  mapM f l = Ok l' -> l !! i = Some x -> exists y, f x = Ok y /\ l' !! i = Some y.
Proof.
  revert l' i. induction l as [|z l IH]; intros l' i Hm Hi; [done|].
  simpl in Hm. bind_inv Hm. bind_inv Hm. inversion Hm; subst.
  destruct i as [|i]; simpl in *.
  - inversion Hi; subst. eauto.
  - eauto.
Qed.

Lemma mapM_is_Ok {A B} (f : A -> result B) (l : list A) :
  Forall (fun x => is_Ok (f x)) l -> is_Ok (mapM f l).
Proof.
  induction 1 as [|x l [y Hy] _ [l' IH]]; simpl.
  - now exists [].
  - rewrite Hy. simpl. rewrite IH. now eexists.
Qed.

(** ** Python slices *)


Lemma py_slice_last {A} (R : nat) (row : list A) :
  (0 < R <= length row)%nat ->
  py_slice (Some (- Z.of_nat R)) None row = drop (length row - R) row.
Proof.
  intros HR. unfold py_slice, slice_bound. simpl.
  destruct (Z.ltb_spec (- Z.of_nat R) 0) as [_|?]; [|lia].
  rewrite take_ge; [f_equal; lia|]. rewrite length_drop. lia.
Qed.




(** ** Packing and scattering *)

Lemma scatter_length {A} (out : list A) (indices : list nat) (hidden : list A) :
  length (scatter out indices hidden) = length out.
Proof.
  unfold scatter. revert out. generalize (zip indices hidden) as ihs.
  induction ihs as [|ih ihs IH]; intros out; simpl; [done|].
  now rewrite IH, length_insert.
Qed.

Lemma reshape_length {A} (batch seqlen : nat) (l : list A) :
  length (reshape batch seqlen l) = batch.
Proof. revert l. induction batch as [|b IH]; intros l; simpl; [done|]. now rewrite IH. Qed.

Lemma reshape_rows {A} (batch seqlen : nat) (l : list A) :
  length l = (batch * seqlen)%nat ->
  Forall (fun row => length row = seqlen) (reshape batch seqlen l).
Proof.
  revert l. induction batch as [|b IH]; intros l Hl; simpl; constructor.
  - rewrite length_take. lia.
  - apply IH. rewrite length_drop. lia.
Qed.


Lemma pad_input_shape {A} (zero : A) (hidden : list A) (indices : list nat)
  (batch seqlen : nat) (full : list (list A)) :
  pad_input zero hidden indices batch seqlen = Ok full ->
  length full = batch /\ Forall (fun row => length row = seqlen) full.
Proof.
  unfold pad_input. intros Hp.
  destruct (negb _); [discriminate|]. destruct (negb _); [discriminate|].
  inversion Hp; subst. split.
  - apply reshape_length.
  - apply reshape_rows. now rewrite scatter_length, length_replicate.
Qed.

Local Open Scope nat_scope.




Lemma nonzero_from_lt (k : nat) (l : list Q) (p : nat) :
  p ∈ nonzero_from k l -> p < k + length l.
Proof.
  revert k. induction l as [|x l IH]; intros k Hp; simpl in Hp.
  - by apply not_elem_of_nil in Hp.
  - simpl. destruct (is_zero x).
    + apply IH in Hp. lia.
    + apply elem_of_cons in Hp as [->|Hp]; [lia|]. apply IH in Hp. lia.
Qed.








Lemma index_rows_lookup {A} (t : list A) (idx : list nat) (l' : list A) (r p : nat) :
  index_rows t idx = Ok l' -> idx !! r = Some p ->
  exists x, t !! p = Some x /\ l' !! r = Some x.
Proof.
  intros Hi Hr. destruct (mapM_Ok_lookup _ _ _ _ _ Hi Hr) as (y & Hy & Hl).
  destruct (t !! p) as [x|]; [|done]. inversion Hy; subst. eauto.
Qed.

Lemma index_rows_length {A} (t : list A) (idx : list nat) (l' : list A) :
  index_rows t idx = Ok l' -> length l' = length idx.
Proof. apply mapM_Ok_length. Qed.



(** ** The per-micro-batch forward *)

Section ForwardFacts.
Context `{Collaborators}.

Lemma packed_forward_inv (self self' : actor) (input_ids attention_mask position_ids : tensor)
  (temperature : Q) (po : packed_out) :
  packed_forward self input_ids attention_mask position_ids temperature = Ok (po, self') ->
  exists flat_ids flat_pos labels raw,
    let inputs := ulysses_inputs self [flat_ids] [flat_pos] [roll_left flat_ids] in
    let args := {| arg_input_ids := inputs.1.1.1;
                   arg_attention_mask := None;
                   arg_position_ids := inputs.1.1.2;
                   arg_use_cache := false |} in
    unpad_input input_ids attention_mask = Ok (flat_ids, po_indices po)
    /\ index_first_axis position_ids (po_indices po) = Ok flat_pos
    /\ squeeze0 inputs.1.2 = Ok labels
    /\ po_pad_size po = inputs.2
    /\ self' = log self (ModelCall args)
    /\ squeeze0 (actor_module (params self) (training self) args) = Ok raw
    /\ po_logits po = (fun l => div_ l temperature) <$> raw
    /\ po_entropy po = entropy_from_logits <$> po_logits po
    /\ logprobs_from_logits (po_logits po) labels = Ok (po_log_probs po).
Proof.
  unfold packed_forward. intros Hf.
  bind_inv Hf. destruct a as [flat_ids indices].
  bind_inv Hf. rename a into flat_pos.
  exists flat_ids, flat_pos. simpl in Hf.
  destruct (ulysses_inputs self [flat_ids] [flat_pos] [roll_left flat_ids])
    as [[[ids pos] rolled] pad].
  bind_inv Hf. rename a into labels.
  unfold call_model in Hf. bind_inv Hf. rename a into raw. bind_inv Hf.
  inversion Hf; subst; clear Hf. simpl. exists labels, raw. repeat split; done.
Qed.

Lemma use_ulysses_sp_log (self : actor) (e : event) :
  use_ulysses_sp (log self e) = use_ulysses_sp self.
Proof. reflexivity. Qed.

Lemma forward_packed_inv (self self' : actor) (micro_batch : TensorDict) (temperature : Q)
  (entropy log_probs : tensor) :
  use_remove_padding (config self) = true ->
  _forward_micro_batch self micro_batch temperature = Ok (entropy, log_probs, self') ->
  exists responses input_ids attention_mask position_ids po full_entropy full_log_probs,
    getitem micro_batch "responses" = Ok responses
    /\ getitem micro_batch "input_ids" = Ok input_ids
    /\ getitem micro_batch "attention_mask" = Ok attention_mask
    /\ getitem micro_batch "position_ids" = Ok position_ids
    /\ packed_forward self input_ids attention_mask position_ids temperature = Ok (po, self')
    /\ pad_input 0%Q (ulysses_gather self (po_pad_size po) (po_entropy po)) (po_indices po)
         (length input_ids) (size_last input_ids) = Ok full_entropy
    /\ pad_input 0%Q (ulysses_gather self (po_pad_size po) (po_log_probs po)) (po_indices po)
         (length input_ids) (size_last input_ids) = Ok full_log_probs
    /\ entropy = response_slice (size_last responses) full_entropy
    /\ log_probs = response_slice (size_last responses) full_log_probs.
Proof.
  intros Hrm Hf. unfold _forward_micro_batch in Hf. rewrite Hrm in Hf.
  bind_inv Hf. rename a into responses. bind_inv Hf. rename a into input_ids.
  bind_inv Hf. rename a into attention_mask. bind_inv Hf. rename a into position_ids.
  bind_inv Hf. destruct a as [po self1].
  pose proof Ha3 as Hpo. apply packed_forward_inv in Hpo as (? & ? & ? & ? & Hpo).
  simpl in Hpo. destruct Hpo as (_ & _ & _ & _ & Hself & _).
  assert (forall p x, ulysses_gather self1 p x = ulysses_gather self p x) as Hsp
    by now subst self1.
  rewrite !Hsp in Hf. bind_inv Hf. bind_inv Hf. inversion Hf; subst self' entropy log_probs.
  exists responses, input_ids, attention_mask, position_ids, po, a, a0.
  repeat split; done.
Qed.

Lemma forward_dense_inv (self self' : actor) (micro_batch : TensorDict) (temperature : Q)
  (entropy log_probs : tensor) :
  use_remove_padding (config self) = false ->
  _forward_micro_batch self micro_batch temperature = Ok (entropy, log_probs, self') ->
  exists responses input_ids attention_mask position_ids,
    let args := {| arg_input_ids := input_ids;
                   arg_attention_mask := Some attention_mask;
                   arg_position_ids := Some position_ids;
                   arg_use_cache := false |} in
    let logits :=
      response_slice (size_last responses)
        (map2d (fun l => div_ l temperature)
           (actor_module (params self) (training self) args)) in
    getitem micro_batch "responses" = Ok responses
    /\ getitem micro_batch "input_ids" = Ok input_ids
    /\ getitem micro_batch "attention_mask" = Ok attention_mask
    /\ getitem micro_batch "position_ids" = Ok position_ids
    /\ self' = log self (ModelCall args)
    /\ logprobs_from_logits_2d logits responses = Ok log_probs
    /\ entropy = map2d entropy_from_logits logits.
Proof.
  intros Hrm Hf. unfold _forward_micro_batch in Hf. rewrite Hrm in Hf.
  bind_inv Hf. rename a into responses. bind_inv Hf. rename a into input_ids.
  bind_inv Hf. rename a into attention_mask. bind_inv Hf. rename a into position_ids.
  unfold dense_forward, call_model in Hf. bind_inv Hf. inversion Hf; subst.
  exists responses, input_ids, attention_mask, position_ids. repeat split; done.
Qed.

Lemma logprobs_from_logits_inv (logits : list Logits) (labels lp : list Q) :
  logprobs_from_logits logits labels = Ok lp ->
  length logits = length labels /\ lp = zip_with logprob_at logits labels.
Proof.
  unfold logprobs_from_logits. destruct (Nat.eqb_spec (length logits) (length labels)); [|done].
  intros Hl. inversion Hl. done.
Qed.

Lemma ulysses_inputs_off (self : actor) (a b c : tensor) :
  use_ulysses_sp self = false -> ulysses_inputs self a b c = (a, Some b, c, 0%Z).
Proof. unfold ulysses_inputs. now intros ->. Qed.






(** C7.  In the packed path the model is called exactly once, with the
    packed token ids and position ids (their shard under sequence
    parallelism), no attention mask and [use_cache=False]; the entropies and
    log-probabilities that are scattered back and sliced are computed from the
    logits of that call divided by the temperature. *)
Theorem forward_packed_model_call
  (self self' : actor) (micro_batch : TensorDict) (temperature : Q)
  (entropy log_probs : tensor) :
  use_remove_padding (config self) = true ->
  _forward_micro_batch self micro_batch temperature = Ok (entropy, log_probs, self') ->
  exists responses input_ids attention_mask position_ids flat_ids flat_pos labels raw
         full_entropy full_log_probs,
    let indices := unpad_indices attention_mask in
    let inputs := ulysses_inputs self [flat_ids] [flat_pos] [roll_left flat_ids] in
    let args := {| arg_input_ids := inputs.1.1.1;
                   arg_attention_mask := None;
                   arg_position_ids := inputs.1.1.2;
                   arg_use_cache := false |} in
    let scaled := (fun l => div_ l temperature) <$> raw in
    getitem micro_batch "responses" = Ok responses
    /\ getitem micro_batch "input_ids" = Ok input_ids
    /\ getitem micro_batch "attention_mask" = Ok attention_mask
    /\ getitem micro_batch "position_ids" = Ok position_ids
    /\ unpad_input input_ids attention_mask = Ok (flat_ids, indices)
    /\ index_first_axis position_ids indices = Ok flat_pos
    /\ (use_ulysses_sp self = false ->
        args = {| arg_input_ids := [flat_ids]; arg_attention_mask := None;
                  arg_position_ids := Some [flat_pos]; arg_use_cache := false |})
    /\ trace self' = trace self ++ [ModelCall args]
    /\ squeeze0 (actor_module (params self) (training self) args) = Ok raw
    /\ squeeze0 inputs.1.2 = Ok labels
    /\ length scaled = length labels
    /\ pad_input 0%Q (ulysses_gather self inputs.2 (entropy_from_logits <$> scaled))
         indices (length input_ids) (size_last input_ids) = Ok full_entropy
    /\ pad_input 0%Q (ulysses_gather self inputs.2 (zip_with logprob_at scaled labels))
         indices (length input_ids) (size_last input_ids) = Ok full_log_probs
    /\ entropy = response_slice (size_last responses) full_entropy
    /\ log_probs = response_slice (size_last responses) full_log_probs.
Proof.
  intros Hrm Hf.
  destruct (forward_packed_inv _ _ _ _ _ _ Hrm Hf)
    as (responses & input_ids & attention_mask & position_ids & po & fe & fl
        & E1 & E2 & E3 & E4 & Hpo & Hfe & Hfl & He & Hl).
  apply packed_forward_inv in Hpo as (flat_ids & flat_pos & labels & raw & Hpo).
  cbv zeta in Hpo.
  destruct Hpo as (Hun & Hpos & Hlab & Hpad & Hself & Hraw & Hlog & Hent & Hlp).
  apply logprobs_from_logits_inv in Hlp as [Hlen Hlp].
  assert (po_indices po = unpad_indices attention_mask) as Hidx.
  { unfold unpad_input in Hun. bind_inv Hun. now inversion Hun. }
  rewrite Hidx in *. rewrite Hent, Hlp, Hlog, Hpad in *.
  exists responses, input_ids, attention_mask, position_ids, flat_ids, flat_pos, labels, raw,
    fe, fl.
  cbv zeta. repeat split; try done.
  - intros Hsp. now rewrite ulysses_inputs_off.
  - now rewrite Hself.
Qed.

(** C8.  With packing and a sequence-parallel width above 1,
    [_forward_micro_batch_2] never returns: once the gathers are done it fails
    the always-false assertion, and [compute_all_logits] never returns
    either. *)
Theorem forward_micro_batch_2_sp_unsupported (self : actor) :
  use_remove_padding (config self) = true ->
  (1 < ulysses_sequence_parallel_size (config self))%Z ->
  (forall micro_batch temperature,
     ~ is_Ok (_forward_micro_batch_2 self micro_batch temperature))
  /\ (forall micro_batch temperature responses input_ids attention_mask position_ids po self1,
        getitem micro_batch "responses" = Ok responses ->
        getitem micro_batch "input_ids" = Ok input_ids ->
        getitem micro_batch "attention_mask" = Ok attention_mask ->
        getitem micro_batch "position_ids" = Ok position_ids ->
        packed_forward self input_ids attention_mask position_ids temperature
        = Ok (po, self1) ->
        _forward_micro_batch_2 self micro_batch temperature = Err AssertionError)
  /\ (forall data, ~ is_Ok (compute_all_logits self data)).
Proof.
  intros Hrm Hsp.
  assert (forall s, config s = config self -> use_ulysses_sp s = true) as Hsp'.
  { intros s Hs. unfold use_ulysses_sp. rewrite Hs. now apply Z.ltb_lt. }
  assert (forall s micro_batch temperature, config s = config self ->
            ~ is_Ok (_forward_micro_batch_2 s micro_batch temperature)) as Hfail.
  { intros s micro_batch temperature Hs [r Hr]. unfold _forward_micro_batch_2 in Hr.
    rewrite Hs, Hrm in Hr. do 4 bind_inv Hr. bind_inv Hr. destruct a3 as [po self1].
    assert (config self1 = config self) as Hc.
    { apply packed_forward_inv in Ha3 as (? & ? & ? & ? & Hpo). cbv zeta in Hpo.
      destruct Hpo as (_ & _ & _ & _ & -> & _). exact Hs. }
    rewrite (Hsp' self1 Hc) in Hr. discriminate. }
  split; [|split].
  - intros micro_batch temperature. now apply Hfail.
  - intros micro_batch temperature responses input_ids attention_mask position_ids po self1
      E1 E2 E3 E4 Hpo.
    unfold _forward_micro_batch_2. rewrite E1. simpl. rewrite E2. simpl. rewrite E3. simpl.
    rewrite E4. simpl. rewrite Hrm, Hpo. simpl.
    assert (config self1 = config self) as Hc.
    { apply packed_forward_inv in Hpo as (? & ? & ? & ? & Hpo). cbv zeta in Hpo.
      now destruct Hpo as (_ & _ & _ & _ & -> & _). }
    now rewrite (Hsp' self1 Hc).
  - intros data [r Hr]. unfold compute_all_logits in Hr.
    bind_inv Hr. bind_inv Hr. destruct a0 as [micro_batches indices].
    bind_inv Hr. destruct a0 as [all_logits_lst self1].
    destruct micro_batches as [|micro_batch rest].
    + simpl in Ha1. inversion Ha1; subst. bind_inv Hr. discriminate Ha2.
    + simpl in Ha1. bind_inv Ha1.
      eapply (Hfail (eval self)); [reflexivity|]. unfold is_Ok. eauto.
Qed.

End ForwardFacts.



Lemma forward_packed_model_call_witness :
  exists entropy log_probs self',
    _forward_micro_batch test_actor test_batch 1%Q = Ok (entropy, log_probs, self')
    /\ trace self'
       = [ModelCall {| arg_input_ids := [[11; 12; 13; 21; 22; 23; 24; 25]]%Q;
                       arg_attention_mask := None;
                       arg_position_ids := Some [[0; 1; 2; 0; 1; 2; 3; 4]]%Q;
                       arg_use_cache := false |}].
Proof.
  destruct (_forward_micro_batch test_actor test_batch 1%Q) as [[[entropy log_probs] self']|e]
    eqn:Hf; [|vm_compute in Hf; discriminate].
  exists entropy, log_probs, self'. split; [reflexivity|].
  destruct (forward_packed_model_call test_actor self' test_batch 1%Q entropy log_probs
              eq_refl Hf)
    as (responses & input_ids & attention_mask & position_ids & flat_ids & flat_pos
        & labels & raw & fe & fl & E1 & E2 & E3 & E4 & Hun & Hpos & Hargs & Htr & _).
  vm_compute in E2, E3, E4. inversion E2; inversion E3; inversion E4; subst.
  vm_compute in Hun, Hpos. inversion Hun; inversion Hpos; subst.
  rewrite Htr. rewrite (Hargs eq_refl). reflexivity.
Defined.

Lemma forward_micro_batch_2_sp_unsupported_witness :
  _forward_micro_batch_2 (with_config sp_config) test_batch 1%Q = Err AssertionError
  /\ ~ is_Ok (compute_all_logits (with_config sp_config) test_data).
Proof.
  destruct (forward_micro_batch_2_sp_unsupported (with_config sp_config) eq_refl)
    as (_ & Hassert & Hall); [vm_compute; reflexivity|].
  split; [|apply Hall].
  destruct (packed_forward (with_config sp_config)
              [[0; 0; 11; 12; 13]; [21; 22; 23; 24; 25]]%Q
              [[0; 0; 1; 1; 1]; [1; 1; 1; 1; 1]]%Q
              [[0; 0; 0; 1; 2]; [0; 1; 2; 3; 4]]%Q 1%Q) as [[po self1]|e] eqn:Hpo;
    [|vm_compute in Hpo; discriminate].
  eapply Hassert; [..|exact Hpo]; reflexivity.
Defined.

(** ** The micro-batch planner and the reverse permutation *)

Lemma place_perm (budget : Q) (i : nat) (n : Q) (groups : list (Q * list nat)) :
  concat (snd <$> place budget i n groups) ≡ₚ i :: concat (snd <$> groups).
Proof.
  induction groups as [|g gs IH]; simpl.
  - done.
  - destruct (Qle_bool _ _); simpl.
    + rewrite <- app_assoc. simpl. symmetry. apply Permutation_middle.
    + rewrite IH. symmetry. apply Permutation_middle.
Qed.

Lemma plan_from_perm (budget : Q) (i : nat) (seqlens : list Q) (groups : list (Q * list nat)) :
  concat (snd <$> plan_from budget i seqlens groups)
  ≡ₚ seq i (length seqlens) ++ concat (snd <$> groups).
Proof.
  revert i groups. induction seqlens as [|n rest IH]; intros i groups; simpl.
  - done.
  - rewrite IH, place_perm. symmetry. apply Permutation_middle.
Qed.

(** The index lists of the planner are a partition of the examples. *)
Lemma rearrange_micro_batches_perm (batch : TensorDict) (max_token_len : Z)
  (micro_batches : list TensorDict) (indices : list (list nat)) (attention_mask : tensor) :
  getitem batch "attention_mask" = Ok attention_mask ->
  rearrange_micro_batches batch max_token_len = Ok (micro_batches, indices) ->
  concat indices ≡ₚ seq 0 (length attention_mask)
  /\ micro_batches = td_gather batch <$> indices.
Proof.
  unfold rearrange_micro_batches. intros -> Hr. simpl in Hr. inversion Hr; subst. split; [|done].
  rewrite plan_from_perm. simpl. rewrite app_nil_r. now rewrite length_fmap.
Qed.

Lemma get_reverse_idx_from_spec (rest : list nat) (i : nat) (acc : list nat) :
  Forall (fun p => p < length acc) rest -> NoDup rest ->
  exists rev,
    get_reverse_idx_from i rest acc = Ok rev
    /\ length rev = length acc
    /\ (forall k p, rest !! k = Some p -> rev !! p = Some (i + k))
    /\ (forall p, p ∉ rest -> rev !! p = acc !! p).
Proof.
  revert i acc. induction rest as [|idx rest IH]; intros i acc Hlt Hnd; simpl.
  - exists acc. repeat split; try done.
  - apply list.Forall_cons in Hlt as [Hidx Hlt]. apply list.NoDup_cons in Hnd as [Hni Hnd].
    destruct (Nat.ltb_spec idx (length acc)) as [_|?]; [|lia].
    destruct (IH (S i) (<[idx := i]> acc)) as (rev & Hrev & Hlen & Hin & Hout);
      [now rewrite length_insert|done|].
    rewrite length_insert in Hlen.
    exists rev. repeat split; try done.
    + intros k p Hk. destruct k as [|k]; simpl in Hk.
      * inversion Hk; subst p. rewrite Hout by done.
        rewrite list_lookup_insert_eq by done. f_equal. lia.
      * rewrite (Hin k p Hk). f_equal. lia.
    + intros p Hp. apply not_elem_of_cons in Hp as [Hne Hp].
      rewrite Hout by done. now apply list_lookup_insert_ne.
Qed.

(** On a permutation of the positions, [get_reverse_idx] is the inverse
    permutation. *)
Lemma get_reverse_idx_perm (idx_map : list nat) (n : nat) :
  idx_map ≡ₚ seq 0 n ->
  exists rev,
    get_reverse_idx idx_map = Ok rev
    /\ length rev = n
    /\ (forall k p, idx_map !! k = Some p -> rev !! p = Some k)
    /\ (forall p, p < n -> exists k, rev !! p = Some k /\ idx_map !! k = Some p).
Proof.
  intros Hperm.
  assert (length idx_map = n) as Hlen by (rewrite Hperm; apply length_seq).
  assert (NoDup idx_map) as Hnd by (rewrite Hperm; apply NoDup_seq).
  assert (Forall (fun p => p < length idx_map) idx_map) as Hlt.
  { rewrite Hlen. apply list.Forall_forall. intros p Hp. rewrite Hperm in Hp.
    apply elem_of_seq in Hp. lia. }
  destruct (get_reverse_idx_from_spec idx_map 0 idx_map Hlt Hnd)
    as (rev & Hrev & Hrlen & Hin & _).
  exists rev. repeat split; try done; [lia|].
  intros p Hp.
  assert (p ∈ idx_map) as Hel by (rewrite Hperm; apply elem_of_seq; lia).
  apply list_elem_of_lookup in Hel as [k Hk]. exists k. split; [|done]. now apply Hin.
Qed.

Lemma index_rows_Ok {A} (t : list A) (idx : list nat) :
  Forall (fun i => i < length t) idx -> is_Ok (index_rows t idx).
Proof.
  intros Hidx. apply mapM_is_Ok. revert Hidx. apply Forall_impl. intros i Hi.
  destruct (lookup_lt_is_Some_2 t i Hi) as [x Hx]. rewrite Hx. now eexists.
Qed.

Lemma select_spec (td td' : TensorDict) (batch_keys : list string) :
  select td batch_keys = Ok td' ->
  batch_size td' = batch_size td
  /\ forall key, tensors td' !! key
                 = if bool_decide (key ∈ batch_keys) then tensors td !! key else None.
Proof.
  unfold select. intros Hs. bind_inv Hs. inversion Hs; subst td'; clear Hs. simpl.
  split; [done|]. revert a Ha. induction batch_keys as [|k ks IH]; intros kts Hm key.
  - simpl in Hm. inversion Hm; subst. simpl. now rewrite lookup_empty.
  - simpl in Hm. apply bind_Ok in Hm as (kt & Hkt & Hm).
    apply bind_Ok in Hkt as (t & Ht & Hkt). inversion Hkt; subst kt; clear Hkt.
    apply bind_Ok in Hm as (kts' & Hkts & Hm). inversion Hm; subst kts; clear Hm. simpl.
    unfold getitem in Ht. destruct (tensors td !! k) as [t'|] eqn:Hk; [|done].
    inversion Ht; subst t'.
    destruct (decide (key = k)) as [->|Hne].
    + rewrite lookup_insert_eq. rewrite bool_decide_eq_true_2 by apply list_elem_of_here. done.
    + rewrite lookup_insert_ne by done. rewrite (IH _ Hkts key).
      destruct (decide (key ∈ ks)) as [Hin|Hnin].
      * rewrite !bool_decide_eq_true_2; [done| |done]. now apply list_elem_of_further.
      * rewrite !bool_decide_eq_false_2; [done| |done].
        intros Hin. apply elem_of_cons in Hin as [?|?]; done.
Qed.

Lemma select_getitem (td td' : TensorDict) (batch_keys : list string) (key : string) :
  select td batch_keys = Ok td' -> key ∈ batch_keys -> getitem td' key = getitem td key.
Proof.
  intros Hs Hk. unfold getitem. destruct (select_spec _ _ _ Hs) as [_ Hl].
  now rewrite Hl, bool_decide_eq_true_2.
Qed.

(** ** [compute_log_prob] *)

Section LogProbFacts.
Context `{Collaborators}.

Lemma logprobs_from_logits_2d_length (logits : list (list Logits)) (labels lp : tensor) :
  logprobs_from_logits_2d logits labels = Ok lp -> length lp = length logits.
Proof.
  unfold logprobs_from_logits_2d.
  destruct (Nat.eqb_spec (length logits) (length labels)) as [Hl|]; [|done].
  intros Hm. apply mapM_Ok_length in Hm. rewrite Hm. now apply length_zip_with_l_eq.
Qed.

(** Both results of the forward have one row per row of [input_ids] or of
    the model's output: the same number. *)
Lemma forward_micro_batch_rows (self self' : actor) (micro_batch : TensorDict)
  (temperature : Q) (entropy log_probs : tensor) :
  _forward_micro_batch self micro_batch temperature = Ok (entropy, log_probs, self') ->
  length entropy = length log_probs.
Proof.
  intros Hf. destruct (use_remove_padding (config self)) eqn:Hrm.
  - apply forward_packed_inv in Hf
      as (? & ? & ? & ? & po & fe & fl & _ & _ & _ & _ & _ & Hfe & Hfl & -> & ->); [|done].
    apply pad_input_shape in Hfe as [Hfe _]. apply pad_input_shape in Hfl as [Hfl _].
    unfold response_slice, slice_cols. rewrite !length_fmap. lia.
  - apply forward_dense_inv in Hf as (? & ? & ? & ? & Hf); [|done]. cbv zeta in Hf.
    destruct Hf as (_ & _ & _ & _ & _ & Hlp & ->).
    apply logprobs_from_logits_2d_length in Hlp. unfold map2d. now rewrite length_fmap.
Qed.

Lemma log_prob_loop_rows (self self' : actor) (micro_batches : list TensorDict)
  (temperature : Q) (lps es lps' es' : list tensor) :
  log_prob_loop self micro_batches temperature lps es = Ok (lps', es', self') ->
  length (concat es) = length (concat lps) ->
  length lps' = length lps + length micro_batches
  /\ length es' = length es + length micro_batches
  /\ length (concat es') = length (concat lps').
Proof.
  revert self lps es. induction micro_batches as [|mb rest IH]; intros self lps es Hl Hlen.
  - simpl in Hl. inversion Hl; subst. simpl. repeat split; [lia..|done].
  - simpl in Hl. bind_inv Hl. destruct a as [[entropy log_probs] self1].
    apply forward_micro_batch_rows in Ha.
    apply IH in Hl as (Hl1 & Hl2 & Hl3).
    + rewrite length_app in Hl1, Hl2. simpl in *. repeat split; [lia..|done].
    + rewrite !concat_app, !length_app. simpl. rewrite !app_nil_r. lia.
Qed.

(** C1.  With dynamic micro-batching, on a batch of [N >= 1] examples:
    the flattened index lists of the planner are a permutation of the [N]
    examples; [compute_log_prob] fails its assertion when the number of
    recorded indices differs from the number of concatenated rows; otherwise it
    returns the concatenated rows reindexed by the reverse permutation, so that
    row [p] of the result is the concatenated row [reverse[p]], which is the
    row computed in the slot that holds example [p]. *)
Theorem compute_log_prob_restores_order
  (self self1 : actor) (data : DataProto) (selected : TensorDict) (attention_mask : tensor)
  (micro_batches : list TensorDict) (indices : list (list nat))
  (log_probs_lst entropy_lst : list tensor) :
  let N := length attention_mask in
  let flat := concat indices in
  let concatenated := concat log_probs_lst in
  let concatenated_entropy := concat entropy_lst in
  meta_use_dynamic_bsz (meta_info data) = true ->
  select (batch data) ["responses"; "input_ids"; "attention_mask"; "position_ids"]
  = Ok selected ->
  getitem selected "attention_mask" = Ok attention_mask ->
  0 < N ->
  plan_micro_batches (eval self) data selected = Ok (micro_batches, indices) ->
  log_prob_loop (eval self) micro_batches (meta_temperature (meta_info data)) [] []
  = Ok (log_probs_lst, entropy_lst, self1) ->
  flat ≡ₚ seq 0 N
  /\ micro_batches = td_gather selected <$> indices
  /\ (length flat <> length concatenated ->
      compute_log_prob self data = Err AssertionError)
  /\ (length flat = length concatenated ->
      exists reverse log_probs entropy,
        get_reverse_idx flat = Ok reverse
        /\ compute_log_prob self data = Ok (log_probs, entropy, self1)
        /\ length log_probs = N /\ length entropy = N
        /\ forall p, p < N ->
             exists k, reverse !! p = Some k
                       /\ flat !! k = Some p
                       /\ log_probs !! p = concatenated !! k
                       /\ entropy !! p = concatenated_entropy !! k).
Proof.
  intros N flat concatenated concatenated_entropy Hdyn Hsel Hmask HN Hplan Hloop.
  pose proof Hplan as Hplan'. unfold plan_micro_batches in Hplan'. rewrite Hdyn in Hplan'.
  destruct (rearrange_micro_batches_perm _ _ _ _ _ Hmask Hplan') as [Hperm Hmbs].
  fold flat N in Hperm.
  assert (micro_batches <> []) as Hne.
  { rewrite Hmbs. intros Hnil. apply fmap_nil_inv in Hnil. subst flat. rewrite Hnil in Hperm.
    simpl in Hperm. apply Permutation_length in Hperm. rewrite length_seq in Hperm.
    simpl in Hperm. lia. }
  destruct (log_prob_loop_rows _ _ _ _ _ _ _ _ Hloop eq_refl) as (Hl1 & Hl2 & Hl3).
  simpl in Hl1, Hl2. fold concatenated concatenated_entropy in Hl3.
  assert (torch_concat log_probs_lst = Ok concatenated) as Hc1.
  { destruct log_probs_lst; [|done]. destruct micro_batches; done. }
  assert (torch_concat entropy_lst = Ok concatenated_entropy) as Hc2.
  { destruct entropy_lst; [|done]. destruct micro_batches; done. }
  assert (forall k : result (tensor * tensor * actor) -> Prop,
            k (_ ← assert (length flat =? length concatenated);
               revert_indices ← get_reverse_idx flat;
               log_probs ← index_rows concatenated revert_indices;
               entropy ← index_rows concatenated_entropy revert_indices;
               Ok (log_probs, entropy, self1)) ->
            k (compute_log_prob self data)) as Hunfold.
  { intros k Hk. unfold compute_log_prob. rewrite Hsel. simpl. rewrite Hplan. simpl.
    rewrite Hloop. simpl. rewrite Hc1. simpl. rewrite Hc2. simpl. rewrite Hdyn. exact Hk. }
  split; [done|]. split; [done|]. split.
  - intros Hlen. apply Hunfold.
    destruct (Nat.eqb_spec (length flat) (length concatenated)); [done|]. reflexivity.
  - intros Hlen.
    destruct (get_reverse_idx_perm flat N Hperm) as (rev & Hrev & Hrlen & Hfwd & Hinv).
    assert (length flat = N) as HflatN by (rewrite Hperm; apply length_seq).
    assert (Forall (fun i => i < length concatenated) rev) as Hbound.
    { apply list.Forall_forall. intros k Hk. apply list_elem_of_lookup in Hk as [p Hp].
      pose proof (lookup_lt_Some _ _ _ Hp) as Hplt. rewrite Hrlen in Hplt.
      destruct (Hinv p Hplt) as (k' & Hk' & Hflat). rewrite Hp in Hk'. inversion Hk'; subst k'.
      apply lookup_lt_Some in Hflat. lia. }
    destruct (index_rows_Ok concatenated rev Hbound) as [log_probs Hlp].
    assert (Forall (fun i => i < length concatenated_entropy) rev) as Hbound'
      by now rewrite Hl3.
    destruct (index_rows_Ok concatenated_entropy rev Hbound') as [entropy Hen].
    exists rev, log_probs, entropy. split; [done|]. split; [|split; [|split]].
    + apply Hunfold. rewrite Hlen, Nat.eqb_refl. simpl. rewrite Hrev. simpl.
      rewrite Hlp. simpl. rewrite Hen. reflexivity.
    + apply index_rows_length in Hlp. lia.
    + apply index_rows_length in Hen. lia.
    + intros p Hp. destruct (Hinv p Hp) as (k & Hk & Hflat). exists k.
      split; [done|]. split; [done|].
      destruct (index_rows_lookup _ _ _ _ _ Hlp Hk) as (x & Hx & ->).
      destruct (index_rows_lookup _ _ _ _ _ Hen Hk) as (x' & Hx' & ->). done.
Qed.

End LogProbFacts.

Lemma compute_log_prob_restores_order_witness :
  [0; 2; 1] ≡ₚ seq 0 3
  /\ exists log_probs entropy self1,
       compute_log_prob test_actor test_data3 = Ok (log_probs, entropy, self1)
       /\ length log_probs = 3.
Proof.
  edestruct (compute_log_prob_restores_order test_actor) with (data := test_data3)
    (indices := [[0; 2]; [1]])
    as (Hperm & _ & _ & Hok).
  - reflexivity.
  - vm_compute. reflexivity.
  - vm_compute. reflexivity.
  - simpl. lia.
  - vm_compute. reflexivity.
  - vm_compute. reflexivity.
  - split; [exact Hperm|].
    destruct Hok as (rev & log_probs & entropy & _ & Hc & Hlen & _); [reflexivity|].
    exists log_probs, entropy. eexists. split; [exact Hc|exact Hlen].
Defined.

(** ** [update_policy] *)

Lemma append_to_dict_single (metrics : gmap string metric) (key : string) (x : pyfloat) :
  append_to_dict metrics [(key, x)]
  = match metrics !! key with
    | None => Ok (<[key := MList [x]]> metrics)
    | Some (MList xs) => Ok (<[key := MList (xs ++ [x])]> metrics)
    | Some (MScalar _) => Err AttributeError
    end.
Proof. reflexivity. Qed.

Section UpdateFacts.
Context `{Collaborators}.

Lemma forward_micro_batch_trace (self self' : actor) (micro_batch : TensorDict)
  (temperature : Q) (entropy log_probs : tensor) :
  _forward_micro_batch self micro_batch temperature = Ok (entropy, log_probs, self') ->
  exists args, self' = log self (ModelCall args).
Proof.
  intros Hf. destruct (use_remove_padding (config self)) eqn:Hrm.
  - apply forward_packed_inv in Hf
      as (? & ? & ? & ? & po & ? & ? & _ & _ & _ & _ & Hpo & _); [|done].
    apply packed_forward_inv in Hpo as (? & ? & ? & ? & Hpo). cbv zeta in Hpo.
    destruct Hpo as (_ & _ & _ & _ & -> & _). eauto.
  - apply forward_dense_inv in Hf as (? & ? & ? & ? & Hf); [|done]. cbv zeta in Hf.
    destruct Hf as (_ & _ & _ & _ & -> & _). eauto.
Qed.

Lemma accumulates_refl (self : actor) : accumulates self self.
Proof.
  repeat split. exists []. split; [now rewrite app_nil_r|constructor].
Qed.

Lemma accumulates_trans (s1 s2 s3 : actor) :
  accumulates s1 s2 -> accumulates s2 s3 -> accumulates s1 s3.
Proof.
  intros (C1 & F1 & P1 & O1 & T1 & G1 & a1 & E1 & A1)
         (C2 & F2 & P2 & O2 & T2 & G2 & a2 & E2 & A2).
  repeat split; try congruence.
  exists (a1 ++ a2). split; [rewrite E2, E1; now rewrite app_assoc|].
  now apply Forall_app.
Qed.

Lemma accumulates_model_call (self : actor) (args : forward_args) :
  accumulates self (log self (ModelCall args)).
Proof. repeat split. exists [ModelCall args]. split; [done|]. now repeat constructor. Qed.

Lemma loss_backward_inv (self self' : actor) (data : TensorDict) (loss : pyfloat)
  (has_grad_fn : bool) :
  loss_backward self data loss has_grad_fn = Ok self' ->
  has_grad_fn = true
  /\ self' = log (set_grads self (backward (params self) data loss (grads self)))
               (Backward loss).
Proof. unfold loss_backward. destruct has_grad_fn; intros Hb; now inversion Hb. Qed.

Lemma accumulates_backward (self self' : actor) (data : TensorDict) (loss : pyfloat)
  (has_grad_fn : bool) :
  loss_backward self data loss has_grad_fn = Ok self' -> accumulates self self'.
Proof.
  intros Hb. apply loss_backward_inv in Hb as [_ ->].
  repeat split. exists [Backward loss]. split; [done|]. now repeat constructor.
Qed.

Lemma add_kl_loss_inv (self : actor) (data : TensorDict) (log_prob response_mask : tensor)
  (policy_loss policy_loss' : Q) (metrics metrics' : gmap string metric) :
  add_kl_loss self data log_prob response_mask policy_loss metrics
  = Ok (policy_loss', metrics') ->
  forall key, key <> "actor/kl_loss" -> key <> "actor/kl_coef" ->
    metrics' !! key = metrics !! key.
Proof.
  unfold add_kl_loss. intros Hk key H1 H2. destruct (use_kl_loss _).
  - bind_inv Hk. inversion Hk; subst. now rewrite !lookup_insert_ne.
  - now inversion Hk.
Qed.

Lemma sft_terms_inv (self : actor) (data : TensorDict) (sft_loss : Q)
  (metrics metrics' : gmap string metric) :
  sft_terms self data metrics = Ok (sft_loss, metrics') ->
  exists ground_truth_mask_pr old_log_prob_pr,
    getitem data "ground_truth_mask_pr" = Ok ground_truth_mask_pr
    /\ getitem data "old_log_probs_pr" = Ok old_log_prob_pr
    /\ sft_loss = sft_loss_of ground_truth_mask_pr old_log_prob_pr
    /\ metrics' = <["actor/sft_coef" := MScalar (Fin (sft_loss_coef (config self)))]>
                    (<["actor/sft_loss" := MScalar (Fin sft_loss)]> metrics).
Proof.
  unfold sft_terms. intros Hs. apply bind_Ok in Hs as (gt & Hgt & Hs).
  apply bind_Ok in Hs as (lp & Hlp & Hs). inversion Hs; subst.
  exists gt, lp. repeat split; done.
Qed.

Lemma add_sft_loss_other (self : actor) (data : TensorDict)
  (policy_loss policy_loss' : Q) (metrics metrics' : gmap string metric) :
  add_sft_loss self data policy_loss metrics = Ok (policy_loss', metrics') ->
  forall key, key <> "actor/sft_loss" -> key <> "actor/sft_coef" ->
    metrics' !! key = metrics !! key.
Proof.
  unfold add_sft_loss. intros Hk key H1 H2. destruct (sft_multi_task _).
  - apply bind_Ok in Hk as ([sft_loss m1] & Hs & Hk). inversion Hk; subst.
    apply sft_terms_inv in Hs as (? & ? & _ & _ & _ & ->). now rewrite !lookup_insert_ne.
  - now inversion Hk.
Qed.

(** The normal branch, taken apart. *)
Lemma normal_branch_inv (self self' : actor) (data : TensorDict) (temperature : Q)
  (metrics metrics' : gmap string metric) (policy_loss : Q) (data' : pyobj) :
  normal_branch self data temperature metrics = Ok (policy_loss, data', metrics', self') ->
  exists response_mask entropy log_prob diagnostics metrics1,
    response_mask_of data = Ok response_mask
    /\ _forward_micro_batch self data temperature = Ok (entropy, log_prob, self')
    /\ data' = PyDict diagnostics
    /\ diagnostics.*1 = loss_keys
    /\ (forall key, key ∉ ["actor/kl_loss"; "actor/kl_coef"; "actor/sft_loss"; "actor/sft_coef"] ->
        metrics1 !! key = metrics !! key)
    /\ append_to_dict metrics1 diagnostics = Ok metrics'.
Proof.
  unfold normal_branch. intros Hn.
  apply bind_Ok in Hn as (response_mask & Hmask & Hn).
  apply bind_Ok in Hn as (old_log_prob & Hold & Hn).
  apply bind_Ok in Hn as (advantages & Hadv & Hn).
  apply bind_Ok in Hn as ([[entropy log_prob] self1] & Hf & Hn).
  destruct (compute_policy_loss _ _ _ _ _ _ _) as [[pg_loss pg_clipfrac] ppo_kl].
  apply bind_Ok in Hn as ([pl1 m1] & Hkl & Hn).
  apply bind_Ok in Hn as ([pl2 m2] & Hsft & Hn).
  apply bind_Ok in Hn as (m3 & Happ & Hn). inversion Hn; subst. clear Hn.
  eexists response_mask, entropy, log_prob, _, m2. repeat split; try done.
  intros key Hkey.
  rewrite (add_sft_loss_other _ _ _ _ _ _ Hsft), (add_kl_loss_inv _ _ _ _ _ _ _ _ Hkl);
    try done; intros ->; apply Hkey; set_solver.
Qed.

Lemma normal_branch_accumulates (self self' : actor) (data : TensorDict) (temperature : Q)
  (metrics metrics' : gmap string metric) (policy_loss : Q) (data' : pyobj) :
  normal_branch self data temperature metrics = Ok (policy_loss, data', metrics', self') ->
  accumulates self self' /\ py_len data' = 4.
Proof.
  intros Hn. apply normal_branch_inv in Hn
    as (? & ? & ? & d & ? & _ & Hf & -> & Hd & _).
  apply forward_micro_batch_trace in Hf as [args ->]. split.
  - apply accumulates_model_call.
  - simpl. rewrite <- (length_fmap fst), Hd. reflexivity.
Qed.

Lemma sft_only_branch_inv (self self' : actor) (data : TensorDict)
  (metrics metrics' : gmap string metric) (policy_loss : Q) (data' : pyobj) :
  sft_only_branch self data metrics = Ok (policy_loss, data', metrics', self') ->
  self' = self /\ data' = PyTensorDict data
  /\ exists sft_loss, sft_terms self data metrics = Ok (sft_loss, metrics')
                      /\ policy_loss = (sft_loss * sft_loss_coef (config self))%Q.
Proof.
  unfold sft_only_branch. intros Hs. apply bind_Ok in Hs as (? & _ & Hs).
  apply bind_Ok in Hs as ([sft_loss m1] & Hsft & Hs). inversion Hs; subst. eauto.
Qed.

Lemma micro_batch_step_accumulates (self self' : actor) (mode : string) (temperature : Q)
  (metrics metrics' : gmap string metric) (micro_batch : TensorDict) :
  micro_batch_step self mode temperature metrics micro_batch = Ok (metrics', self') ->
  accumulates self self'.
Proof.
  unfold micro_batch_step. intros Hm.
  apply bind_Ok in Hm as ([[[policy_loss data'] m1] self1] & Hb & Hm).
  apply bind_Ok in Hm as (loss & _ & Hm).
  apply bind_Ok in Hm as (self2 & Hback & Hm). inversion Hm; subst. clear Hm.
  apply accumulates_trans with self1; [|now apply accumulates_backward in Hback].
  destruct (String.eqb mode "normal").
  - now apply normal_branch_accumulates in Hb.
  - destruct (String.eqb mode "sft_only"); [|done].
    apply sft_only_branch_inv in Hb as (-> & _). apply accumulates_refl.
Qed.

Lemma micro_batch_loop_accumulates (self self' : actor) (mode : string) (temperature : Q)
  (metrics metrics' : gmap string metric) (micro_batches : list TensorDict) :
  micro_batch_loop self mode temperature metrics micro_batches = Ok (metrics', self') ->
  accumulates self self'.
Proof.
  revert self metrics. induction micro_batches as [|mb rest IH]; intros self metrics Hl.
  - simpl in Hl. inversion Hl; subst. apply accumulates_refl.
  - simpl in Hl. apply bind_Ok in Hl as ([m1 self1] & Hs & Hl).
    apply accumulates_trans with self1; [|eauto].
    eapply micro_batch_step_accumulates; eauto.
Qed.

Lemma update_micro_batches_self (self self' : actor) (mini_batch : TensorDict)
  (micro_batches : list TensorDict) :
  update_micro_batches self mini_batch = Ok (micro_batches, self') ->
  config self' = config self /\ is_fsdp self' = is_fsdp self
  /\ params self' = params self /\ opt_state self' = opt_state self
  /\ training self' = training self /\ trace self' = trace self.
Proof.
  unfold update_micro_batches. intros Hu. destruct (use_dynamic_bsz _).
  - apply bind_Ok in Hu as ([mbs idx] & _ & Hu). now inversion Hu.
  - destruct (_ =? _)%Z; [done|]. apply bind_Ok in Hu as (mbs & _ & Hu). now inversion Hu.
Qed.

Lemma optimizer_step_spec (self : actor) (max_norm : Q) :
  grad_clip (config self) = Some max_norm ->
  let grad_norm := (clipped self max_norm).2 in
  exists self',
    _optimizer_step self = Ok (grad_norm, self')
    /\ config self' = config self
    /\ (isfinite grad_norm = false ->
        params self' = params self /\ opt_state self' = opt_state self
        /\ grads self' = zero_grads
        /\ trace self' = trace self ++ [ClipGradNorm max_norm; Warn grad_norm; ZeroGrad])
    /\ (isfinite grad_norm = true ->
        (params self', opt_state self')
        = optimizer_step (params self) (opt_state self) (clipped self max_norm).1
        /\ grads self' = (clipped self max_norm).1
        /\ trace self' = trace self ++ [ClipGradNorm max_norm; OptimizerStep]).
Proof.
  intros Hclip grad_norm. unfold _optimizer_step. rewrite Hclip. simpl.
  subst grad_norm. unfold clipped.
  destruct (if is_fsdp self then _ else _) as [g grad_norm]. simpl.
  destruct (isfinite grad_norm) eqn:Hfin; simpl.
  - eexists. split; [reflexivity|]. split; [reflexivity|].
    split; [intros; discriminate|]. intros _. simpl. repeat split.
    + now destruct (optimizer_step _ _ _).
    + now rewrite <- app_assoc.
  - eexists. split; [reflexivity|]. split; [reflexivity|].
    split; [|intros; discriminate]. intros _. simpl. repeat split.
    now rewrite <- !app_assoc.
Qed.

Lemma optimizer_step_events (self self' : actor) (grad_norm : pyfloat) :
  _optimizer_step self = Ok (grad_norm, self') ->
  config self' = config self
  /\ exists opt, trace self' = trace self ++ opt /\ optimizer_events opt.
Proof.
  intros Ho. destruct (grad_clip (config self)) as [max_norm|] eqn:Hclip.
  - destruct (optimizer_step_spec self max_norm Hclip) as (s & Hs & Hc & Hnf & Hf).
    cbv zeta in *. rewrite Ho in Hs. inversion Hs; subst. split; [done|].
    destruct (isfinite (clipped self max_norm).2) eqn:Hfin.
    + destruct (Hf eq_refl) as (_ & _ & ->). eexists. split; [done|].
      exists max_norm. now left.
    + destruct (Hnf eq_refl) as (_ & _ & _ & ->). eexists. split; [done|].
      exists max_norm. right. now eexists.
  - unfold _optimizer_step in Ho. rewrite Hclip in Ho. discriminate.
Qed.

Lemma record_grad_norm_inv (mode : string) (metrics metrics' : gmap string metric)
  (grad_norm : pyfloat) :
  mode = "normal" \/ mode = "sft_only" ->
  record_grad_norm mode metrics grad_norm = Ok metrics' ->
  metrics' = <[grad_norm_key mode := MList (metric_list metrics (grad_norm_key mode)
                                             ++ [grad_norm])]> metrics
  /\ (forall x, metrics !! grad_norm_key mode <> Some (MScalar x)).
Proof.
  unfold record_grad_norm, grad_norm_key, metric_list.
  intros [-> | ->]; simpl; rewrite append_to_dict_single;
    (destruct (metrics !! _) as [[x|xs]|]; [done| |]); intros Hr; inversion Hr; done.
Qed.

Lemma mini_batch_step_inv (self self' : actor) (mode : string) (temperature : Q)
  (metrics metrics' : gmap string metric) (mini_batch : TensorDict) :
  mini_batch_step self mode temperature metrics mini_batch = Ok (metrics', self') ->
  exists micro_batches self0 metrics1 self1 grad_norm,
    update_micro_batches self mini_batch = Ok (micro_batches, self0)
    /\ micro_batch_loop (zero_grad self0) mode temperature metrics micro_batches
       = Ok (metrics1, self1)
    /\ _optimizer_step self1 = Ok (grad_norm, self')
    /\ record_grad_norm mode metrics1 grad_norm = Ok metrics'.
Proof.
  unfold mini_batch_step. intros Hm.
  apply bind_Ok in Hm as ([micro_batches self0] & Hu & Hm).
  apply bind_Ok in Hm as ([metrics1 self1] & Hl & Hm).
  apply bind_Ok in Hm as ([grad_norm self2] & Ho & Hm).
  apply bind_Ok in Hm as (metrics2 & Hr & Hm). inversion Hm; subst.
  exists micro_batches, self0, metrics1, self1, grad_norm. done.
Qed.

Lemma mini_batch_step_events (self self' : actor) (mode : string) (temperature : Q)
  (metrics metrics' : gmap string metric) (mini_batch : TensorDict) :
  mini_batch_step self mode temperature metrics mini_batch = Ok (metrics', self') ->
  config self' = config self
  /\ exists t, trace self' = trace self ++ t /\ mini_batch_events t.
Proof.
  intros Hm. apply mini_batch_step_inv in Hm
    as (micro_batches & self0 & metrics1 & self1 & grad_norm & Hu & Hl & Ho & _).
  apply update_micro_batches_self in Hu as (C0 & _ & _ & _ & _ & T0).
  apply micro_batch_loop_accumulates in Hl as (C1 & _ & _ & _ & _ & _ & acc & T1 & Hacc).
  apply optimizer_step_events in Ho as (C2 & opt & T2 & Hopt).
  split; [simpl in C1; congruence|].
  exists (ZeroGrad :: acc ++ opt). split.
  - rewrite T2, T1. simpl. rewrite T0, <- !app_assoc. done.
  - exists acc, opt. done.
Qed.

Lemma mini_batch_loop_events (self self' : actor) (mode : string) (temperature : Q)
  (metrics metrics' : gmap string metric) (dataloader : list TensorDict) :
  mini_batch_loop self mode temperature metrics dataloader = Ok (metrics', self') ->
  config self' = config self
  /\ exists steps,
       length steps = length dataloader
       /\ Forall mini_batch_events steps
       /\ trace self' = trace self ++ concat steps.
Proof.
  revert self metrics. induction dataloader as [|mb rest IH]; intros self metrics Hl.
  - simpl in Hl. inversion Hl; subst. split; [done|]. exists []. simpl.
    rewrite app_nil_r. repeat split; done.
  - simpl in Hl. apply bind_Ok in Hl as ([metrics1 self1] & Hs & Hl).
    apply mini_batch_step_events in Hs as (C1 & t & T1 & Ht).
    apply IH in Hl as (C2 & steps & Hlen & Hsteps & T2).
    split; [congruence|]. exists (t :: steps). simpl. repeat split.
    + now rewrite Hlen.
    + now constructor.
    + rewrite T2, T1, <- app_assoc. done.
Qed.

Lemma update_policy_inv (self self' : actor) (data : DataProto) (mode : string)
  (metrics : gmap string metric) :
  update_policy self data mode = Ok (metrics, self') ->
  exists select_keys selected dataloader self1,
    update_select_keys (train self) data mode = Ok select_keys
    /\ select (batch data) select_keys = Ok selected
    /\ split selected (ppo_mini_batch_size (config self)) = Ok dataloader
    /\ mini_batch_loop (train self) mode (meta_temperature (meta_info data)) ∅ dataloader
       = Ok (metrics, self1)
    /\ self' = zero_grad self1.
Proof.
  unfold update_policy. intros Hu.
  apply bind_Ok in Hu as (select_keys & Hk & Hu).
  apply bind_Ok in Hu as (selected & Hs & Hu).
  apply bind_Ok in Hu as (dataloader & Hd & Hu).
  apply bind_Ok in Hu as ([m self1] & Hl & Hu). inversion Hu; subst.
  exists select_keys, selected, dataloader, self1. done.
Qed.

(** X3.  Whenever [update_policy] returns, the gradients are the zeroed
    ones, whatever the mode and whether or not a step was skipped; and its
    trace is [Train], then for each mini-batch one block that starts by zeroing
    the gradients, accumulates, and ends with the optimizer step or its
    skipping, then one final zeroing. *)
Theorem update_policy_zeroes_gradients (self self' : actor) (data : DataProto)
  (mode : string) (metrics : gmap string metric) :
  update_policy self data mode = Ok (metrics, self') ->
  grads self' = zero_grads
  /\ exists select_keys selected dataloader steps,
       update_select_keys (train self) data mode = Ok select_keys
       /\ select (batch data) select_keys = Ok selected
       /\ split selected (ppo_mini_batch_size (config self)) = Ok dataloader
       /\ length steps = length dataloader
       /\ Forall mini_batch_events steps
       /\ trace self' = trace self ++ [Train] ++ concat steps ++ [ZeroGrad].
Proof.
  intros Hu. apply update_policy_inv in Hu
    as (select_keys & selected & dataloader & self1 & Hk & Hs & Hd & Hl & ->).
  split; [reflexivity|].
  apply mini_batch_loop_events in Hl as (_ & steps & Hlen & Hsteps & T).
  exists select_keys, selected, dataloader, steps. repeat split; try done.
  simpl. rewrite T. simpl. now rewrite <- !app_assoc.
Qed.

(** X2.  One mini-batch around its optimizer step: once the micro-batches
    have accumulated, the gradients are clipped.  A norm that is not finite
    leaves parameters and optimizer state as they were before the mini-batch,
    zeroes the gradients and prints a warning; a finite one steps the optimizer
    from the state before the mini-batch.  Either way the norm is appended to
    the gradient-norm list of the mode and the loop goes on with the next
    mini-batch. *)
Theorem optimizer_step_guarded
  (self self0 self1 : actor) (mode : string) (temperature : Q)
  (metrics metrics1 : gmap string metric) (mini_batch : TensorDict)
  (micro_batches : list TensorDict) (max_norm : Q) :
  let grad_norm := (clipped self1 max_norm).2 in
  let key := grad_norm_key mode in
  let metrics2 := <[key := MList (metric_list metrics1 key ++ [grad_norm])]> metrics1 in
  mode = "normal" \/ mode = "sft_only" ->
  grad_clip (config self) = Some max_norm ->
  update_micro_batches self mini_batch = Ok (micro_batches, self0) ->
  micro_batch_loop (zero_grad self0) mode temperature metrics micro_batches
  = Ok (metrics1, self1) ->
  (forall x, metrics1 !! key <> Some (MScalar x)) ->
  exists self2,
    _optimizer_step self1 = Ok (grad_norm, self2)
    /\ (isfinite grad_norm = false ->
        params self2 = params self /\ opt_state self2 = opt_state self
        /\ grads self2 = zero_grads
        /\ trace self2 = trace self1 ++ [ClipGradNorm max_norm; Warn grad_norm; ZeroGrad])
    /\ (isfinite grad_norm = true ->
        (params self2, opt_state self2)
        = optimizer_step (params self) (opt_state self) (clipped self1 max_norm).1
        /\ trace self2 = trace self1 ++ [ClipGradNorm max_norm; OptimizerStep])
    /\ mini_batch_step self mode temperature metrics mini_batch = Ok (metrics2, self2)
    /\ metric_list metrics2 key = metric_list metrics1 key ++ [grad_norm]
    /\ forall rest,
         mini_batch_loop self mode temperature metrics (mini_batch :: rest)
         = mini_batch_loop self2 mode temperature metrics2 rest.
Proof.
  intros grad_norm key metrics2 Hmode Hclip Hu Hl Hscalar.
  pose proof (update_micro_batches_self _ _ _ _ Hu) as (C0 & _ & P0 & O0 & _).
  pose proof (micro_batch_loop_accumulates _ _ _ _ _ _ _ Hl) as (C1 & _ & P1 & O1 & _).
  simpl in C1, P1, O1.
  assert (grad_clip (config self1) = Some max_norm) as Hclip1 by congruence.
  destruct (optimizer_step_spec self1 max_norm Hclip1) as (self2 & Ho & _ & Hnf & Hf).
  fold grad_norm in Ho, Hnf, Hf.
  assert (record_grad_norm mode metrics1 grad_norm = Ok metrics2) as Hrec.
  { subst metrics2 key. unfold record_grad_norm, grad_norm_key, metric_list in *.
    destruct Hmode as [-> | ->]; simpl in *; rewrite append_to_dict_single;
      (destruct (metrics1 !! _) as [[x|xs]|]; [now destruct (Hscalar x)|done|done]). }
  assert (mini_batch_step self mode temperature metrics mini_batch = Ok (metrics2, self2))
    as Hstep.
  { unfold mini_batch_step. rewrite Hu. simpl. rewrite Hl. simpl. rewrite Ho. simpl.
    now rewrite Hrec. }
  exists self2. split; [done|]. split; [|split; [|split; [done|split]]].
  - intros Hfin. destruct (Hnf Hfin) as (-> & -> & -> & ->). repeat split; congruence.
  - intros Hfin. destruct (Hf Hfin) as (-> & _ & ->). split; [congruence|done].
  - subst metrics2. unfold metric_list at 1. now rewrite lookup_insert_eq.
  - intros rest. simpl. now rewrite Hstep.
Qed.

End UpdateFacts.

Lemma update_policy_zeroes_gradients_witness :
  exists metrics self',
    update_policy test_actor test_data "normal" = Ok (metrics, self')
    /\ grads self' = [].
Proof.
  destruct (succeeds_Ok (update_policy test_actor test_data "normal"))
    as [[metrics self'] Hu]; [vm_compute; reflexivity|].
  destruct (update_policy_zeroes_gradients test_actor self' test_data "normal" metrics Hu)
    as [Hg _].
  exists metrics, self'. split; [exact Hu|exact Hg].
Defined.

(** An accumulation count of 0: the loss is infinite, the norm is not finite
    and the step is skipped. *)
Lemma optimizer_step_guarded_witness :
  exists metrics2 self2 grad_norm,
    mini_batch_step (with_config zero_accumulation_config) "normal" 1%Q ∅
      (td_rows test_batch 0 1)
    = Ok (metrics2, self2)
    /\ isfinite grad_norm = false
    /\ metric_list metrics2 "actor/grad_norm" = [grad_norm]
    /\ params self2 = params (with_config zero_accumulation_config)
    /\ grads self2 = [].
Proof.
  set (self := with_config zero_accumulation_config).
  set (mini_batch := td_rows test_batch 0 1).
  set (run := r ← update_micro_batches self mini_batch;
              micro_batch_loop (zero_grad r.2) "normal" 1%Q ∅ r.1).
  destruct (succeeds_Ok run) as [[metrics1 self1] Hrun]; [vm_compute; reflexivity|].
  assert ((fun r => (isfinite (clipped r.2 1%Q).2,
                     match r.1 !! "actor/grad_norm" with
                     | None => true
                     | Some m => match m with MScalar _ => false | MList xs => bool_decide (xs = []) end
                     end)) <$> run = Ok (false, true)) as Hfacts
    by (vm_compute; reflexivity).
  rewrite Hrun in Hfacts. injection Hfacts as Hfinite Hlist. simpl in Hfinite, Hlist.
  subst run. apply bind_Ok in Hrun as ([micro_batches self0] & Hu & Hl). simpl in Hl.
  destruct (optimizer_step_guarded self self0 self1 "normal" 1%Q ∅ metrics1 mini_batch
              micro_batches 1%Q)
    as (self2 & _ & Hskip & _ & Hstep & Hrec & _);
    [now left|reflexivity|exact Hu|exact Hl| |].
  - intros x Hx. change (grad_norm_key "normal") with "actor/grad_norm" in Hx.
    rewrite Hx in Hlist. discriminate.
  - destruct (Hskip Hfinite) as (Hp & _ & Hg & _).
    eexists _, self2, _. split; [exact Hstep|]. split; [exact Hfinite|].
    split; [|split; [exact Hp|exact Hg]].
    etrans; [exact Hrec|]. change (grad_norm_key "normal") with "actor/grad_norm".
    unfold metric_list. destruct (metrics1 !! "actor/grad_norm") as [[x|xs]|]; try done.
    apply bool_decide_eq_true_1 in Hlist. now subst xs.
Defined.

(** ** The metrics dictionary *)

Lemma append_to_dict_cons (metrics : gmap string metric) (kv : string * pyfloat)
  (rest : list (string * pyfloat)) :
  append_to_dict metrics (kv :: rest)
  = append_to_dict metrics [kv] ≫= fun d => append_to_dict d rest.
Proof.
  unfold append_to_dict. simpl.
  destruct (metrics !! kv.1) as [[x|xs]|]; simpl; try reflexivity.
  induction rest as [|kv' rest IH]; [reflexivity|]. simpl. exact IH.
Qed.

(** [append_to_dict] appends one value under each name of [new_data] and
    touches no other name; it fails on a name that holds a single number. *)
Lemma append_to_dict_spec (new_data : list (string * pyfloat))
  (metrics metrics' : gmap string metric) :
  NoDup new_data.*1 ->
  append_to_dict metrics new_data = Ok metrics' ->
  (forall key, key ∉ new_data.*1 -> metrics' !! key = metrics !! key)
  /\ (forall key x, (key, x) ∈ new_data ->
        metrics' !! key = Some (MList (metric_list metrics key ++ [x]))
        /\ forall y, metrics !! key <> Some (MScalar y)).
Proof.
  revert metrics. induction new_data as [|[k v] rest IH]; intros metrics Hnd Ha.
  - inversion Ha; subst. split; [done|]. intros key x Hin. by apply not_elem_of_nil in Hin.
  - rewrite append_to_dict_cons in Ha. apply bind_Ok in Ha as (d & Hd & Ha).
    rewrite append_to_dict_single in Hd.
    simpl in Hnd. apply list.NoDup_cons in Hnd as [Hk Hnd].
    destruct (IH d Hnd Ha) as [Hother Hin].
    assert (d = <[k := MList (metric_list metrics k ++ [v])]> metrics
            /\ forall y, metrics !! k <> Some (MScalar y)) as [-> Hns].
    { unfold metric_list. destruct (metrics !! k) as [[y|xs]|]; [done| |];
        inversion Hd; done. }
    split.
    + intros key Hkey. simpl in Hkey. apply not_elem_of_cons in Hkey as [Hne Hkey].
      rewrite Hother by done. now rewrite lookup_insert_ne.
    + intros key x Hx. apply elem_of_cons in Hx as [Hx|Hx].
      * inversion Hx; subst key x. rewrite Hother by done.
        rewrite lookup_insert_eq. done.
      * assert (key <> k) as Hne.
        { intros ->. apply Hk. apply list_elem_of_fmap. now exists (k, x). }
        destruct (Hin key x Hx) as [Hl Hs]. unfold metric_list in Hl.
        rewrite lookup_insert_ne in Hl, Hs by done. done.
Qed.

Section StepFacts.
Context `{Collaborators}.

(** X1.  [_optimizer_step] in full: without [grad_clip] the assertion fails;
    with it, the gradients are clipped, and then either the norm is finite and
    the optimizer steps on the clipped gradients, or it is not, and the step is
    skipped: a warning is printed, the gradients are zeroed, parameters and
    optimizer state are exactly as before. The norm is returned either way. *)
Theorem optimizer_step_cases (self : actor) :
  match grad_clip (config self) with
  | None => _optimizer_step self = Err AssertionError
  | Some max_norm =>
      let grad_norm := (clipped self max_norm).2 in
      exists self',
        _optimizer_step self = Ok (grad_norm, self')
        /\ config self' = config self
        /\ (isfinite grad_norm = false ->
            params self' = params self /\ opt_state self' = opt_state self
            /\ grads self' = zero_grads
            /\ trace self'
               = trace self ++ [ClipGradNorm max_norm; Warn grad_norm; ZeroGrad])
        /\ (isfinite grad_norm = true ->
            (params self', opt_state self')
            = optimizer_step (params self) (opt_state self) (clipped self max_norm).1
            /\ grads self' = (clipped self max_norm).1
            /\ trace self' = trace self ++ [ClipGradNorm max_norm; OptimizerStep])
  end.
Proof.
  destruct (grad_clip (config self)) as [max_norm|] eqn:Hclip.
  - now apply optimizer_step_spec.
  - unfold _optimizer_step. now rewrite Hclip.
Qed.

Lemma normal_branch_metrics (self self' : actor) (data : TensorDict) (temperature : Q)
  (metrics metrics' : gmap string metric) (policy_loss : Q) (data' : pyobj) :
  normal_branch self data temperature metrics = Ok (policy_loss, data', metrics', self') ->
  (forall key, key ∈ loss_keys ->
     exists x, metrics' !! key = Some (MList (metric_list metrics key ++ [x])))
  /\ (forall key,
        key ∉ loss_keys ++ ["actor/kl_loss"; "actor/kl_coef"; "actor/sft_loss"; "actor/sft_coef"] ->
        metrics' !! key = metrics !! key).
Proof.
  intros Hn. apply normal_branch_inv in Hn
    as (? & ? & ? & d & m1 & _ & _ & _ & Hd & Hm1 & Happ).
  assert (NoDup d.*1) as Hnd.
  { rewrite Hd. apply (bool_decide_unpack _). by vm_compute. }
  destruct (append_to_dict_spec _ _ _ Hnd Happ) as [Hother Hin]. split.
  - intros key Hkey. pose proof Hkey as Hkey'. rewrite <- Hd in Hkey.
    apply list_elem_of_fmap in Hkey as ([kk vv] & -> & Hx). simpl in *.
    exists vv. destruct (Hin kk vv Hx) as [-> _]. unfold metric_list. rewrite Hm1; [done|].
    intros Hbad. unfold loss_keys in Hkey'.
    repeat (apply elem_of_cons in Hkey' as [->|Hkey'];
            [apply (bool_decide_pack _) in Hbad; by vm_compute in Hbad|]).
    by apply not_elem_of_nil in Hkey'.
  - intros key Hkey. apply not_elem_of_app in Hkey as [Hk1 Hk2].
    rewrite Hother by now rewrite Hd. now apply Hm1.
Qed.
End StepFacts.

Section LossScaleFacts.
Context `{Collaborators}.

Lemma micro_batch_step_inv (self self' : actor) (mode : string) (temperature : Q)
  (metrics metrics' : gmap string metric) (micro_batch : TensorDict) :
  micro_batch_step self mode temperature metrics micro_batch = Ok (metrics', self') ->
  exists policy_loss data self1 loss,
    mode = "normal"
    /\ normal_branch self micro_batch temperature metrics
       = Ok (policy_loss, data, metrics', self1)
    /\ scale_loss self1 policy_loss data = Ok loss
    /\ loss_backward self1 micro_batch loss true = Ok self'.
Proof.
  unfold micro_batch_step. intros Hm.
  apply bind_Ok in Hm as ([[[policy_loss data'] m1] self1] & Hb & Hm).
  apply bind_Ok in Hm as (loss & Hs & Hm).
  apply bind_Ok in Hm as (self2 & Hback & Hm). inversion Hm; subst. clear Hm.
  pose proof (loss_backward_inv _ _ _ _ _ Hback) as [Hg _].
  apply String.eqb_eq in Hg. subst mode.
  exists policy_loss, data', self1, loss. done.
Qed.

(** X4.  Under dynamic batching the policy loss is scaled by [len(data)] over
    the mini-batch size, where [data] is whatever the name is bound to when
    line 597 runs.  The normal branch has rebound the name to its dictionary of
    four diagnostics: the loss handed to [backward] is the policy loss times 4
    over the mini-batch size, whatever the number of examples of the
    micro-batch.  In the supervised-only branch the name still holds the
    micro-batch and the factor is its number of examples, but [backward]
    refuses that loss, which has no [grad_fn]. *)
Theorem dynamic_loss_scale (self : actor) (temperature : Q)
  (metrics : gmap string metric) (micro_batch : TensorDict) :
  use_dynamic_bsz (config self) = true ->
  ppo_mini_batch_size (config self) <> 0%Z ->
  let mini := inject_Z (ppo_mini_batch_size (config self)) in
  (forall policy_loss data metrics1 self1,
     normal_branch self micro_batch temperature metrics
     = Ok (policy_loss, data, metrics1, self1) ->
     let loss := Fin (policy_loss * (of_nat 4 / mini)) in
     scale_loss self1 policy_loss data = Ok loss
     /\ exists self',
          loss_backward self1 micro_batch loss true = Ok self'
          /\ micro_batch_step self "normal" temperature metrics micro_batch
             = Ok (metrics1, self')
          /\ trace self' = trace self1 ++ [Backward loss])
  /\ (forall policy_loss data metrics1 self1,
        sft_only_branch self micro_batch metrics
        = Ok (policy_loss, data, metrics1, self1) ->
        scale_loss self1 policy_loss data
        = Ok (Fin (policy_loss * (of_nat (td_len micro_batch) / mini)))
        /\ micro_batch_step self "sft_only" temperature metrics micro_batch
           = Err RuntimeError).
Proof.
  intros Hdyn Hmini mini. split.
  - intros policy_loss data metrics1 self1 Hn loss.
    destruct (normal_branch_accumulates _ _ _ _ _ _ _ _ Hn) as [(Hc & _) Hlen].
    assert (scale_loss self1 policy_loss data = Ok loss) as Hs.
    { unfold scale_loss. rewrite Hc, Hdyn.
      destruct (Z.eqb_spec (ppo_mini_batch_size (config self)) 0); [done|].
      now rewrite Hlen. }
    split; [exact Hs|]. eexists. split; [reflexivity|]. split; [|reflexivity].
    unfold micro_batch_step. simpl. rewrite Hn, bind_Ok_l, Hs. reflexivity.
  - intros policy_loss data metrics1 self1 Hb.
    destruct (sft_only_branch_inv _ _ _ _ _ _ _ Hb) as (-> & -> & _).
    assert (scale_loss self policy_loss (PyTensorDict micro_batch)
            = Ok (Fin (policy_loss * (of_nat (td_len micro_batch) / mini)))) as Hs.
    { unfold scale_loss. rewrite Hdyn.
      destruct (Z.eqb_spec (ppo_mini_batch_size (config self)) 0); [done|]. done. }
    split; [exact Hs|].
    unfold micro_batch_step. simpl. rewrite Hb, bind_Ok_l, Hs. reflexivity.
Qed.

(** X5.  Without dynamic batching the accumulation count is the floor
    quotient of the two configured sizes; a micro-batch size of 0 is a division
    by zero before any micro-batch is run.  In every state that the micro-batch
    loop of this mini-batch reaches, the loss that a micro-batch of the normal
    mode hands to [backward] is its policy loss over that count, and it is not
    finite when the mini-batch size is below the micro-batch size, the count
    being 0. *)
Theorem fixed_loss_scale (self : actor) (mini_batch : TensorDict) :
  use_dynamic_bsz (config self) = false ->
  let mini := ppo_mini_batch_size (config self) in
  let micro := ppo_micro_batch_size_per_gpu (config self) in
  (micro = 0%Z -> update_micro_batches self mini_batch = Err ZeroDivisionError)
  /\ (forall micro_batches self0,
        update_micro_batches self mini_batch = Ok (micro_batches, self0) ->
        micro <> 0%Z
        /\ gradient_accumulation self0 = Some (mini / micro)%Z
        /\ split mini_batch micro = Ok micro_batches
        /\ forall self2 temperature metrics micro_batch policy_loss data metrics1 self1,
             accumulates (zero_grad self0) self2 ->
             normal_branch self2 micro_batch temperature metrics
             = Ok (policy_loss, data, metrics1, self1) ->
             let loss := tensor_div policy_loss (mini / micro) in
             scale_loss self1 policy_loss data = Ok loss
             /\ (exists self',
                   micro_batch_step self2 "normal" temperature metrics micro_batch
                   = Ok (metrics1, self')
                   /\ trace self' = trace self1 ++ [Backward loss])
             /\ ((0 <= mini < micro)%Z -> isfinite loss = false)).
Proof.
  intros Hdyn mini micro. split.
  - intros Hz. unfold update_micro_batches. rewrite Hdyn. fold micro. now rewrite Hz.
  - intros micro_batches self0 Hu.
    pose proof (update_micro_batches_self _ _ _ _ Hu) as (C0 & _).
    unfold update_micro_batches in Hu. rewrite Hdyn in Hu. fold micro mini in Hu.
    destruct (Z.eqb_spec micro 0) as [|Hne]; [done|].
    apply bind_Ok in Hu as (mbs & Hs & Hu). inversion Hu; subst mbs self0. clear Hu.
    split; [done|]. split; [done|]. split; [done|].
    intros self2 temperature metrics micro_batch policy_loss data metrics1 self1 Hacc Hn loss.
    destruct Hacc as (C2 & _ & _ & _ & _ & G2 & _). simpl in C2, G2.
    destruct (normal_branch_accumulates _ _ _ _ _ _ _ _ Hn)
      as [(C1 & _ & _ & _ & _ & G1 & _) _].
    assert (scale_loss self1 policy_loss data = Ok loss) as Hscale.
    { unfold scale_loss. rewrite C1, C2, Hdyn, G1, G2. reflexivity. }
    split; [exact Hscale|]. split.
    + eexists. split.
      * unfold micro_batch_step. simpl. rewrite Hn, bind_Ok_l, Hscale. reflexivity.
      * reflexivity.
    + intros Hlt. subst loss. rewrite Z.div_small by done. unfold tensor_div. simpl.
      destruct (Qeq_bool policy_loss 0); [done|]. now destruct (Qle_bool 0 policy_loss).
Qed.

(** X6.  What the mode string selects: an unknown mode is refused before any
    data is read; the supervised-only mode asserts a 'bilevel' configuration
    that must be set explicitly; and one configuration never enables the
    supervised loss in both modes. *)
Theorem update_policy_mode_dispatch (self : actor) (data : DataProto) (mode : string) :
  (mode <> "normal" -> mode <> "sft_only" ->
   update_policy self data mode = Err NotImplementedError)
  /\ (mode = "sft_only" -> sft_bilevel self = false ->
      update_policy self data mode = Err AssertionError)
  /\ (sft_type (config self) = None -> sft_bilevel self = false)
  /\ (sft_multi_task self = true -> sft_bilevel self = false).
Proof.
  repeat split.
  - intros H1 H2. unfold update_policy, update_select_keys.
    apply String.eqb_neq in H1, H2. now rewrite H1, H2.
  - intros -> Hb. unfold update_policy, update_select_keys. simpl.
    change (sft_bilevel (train self)) with (sft_bilevel self). now rewrite Hb.
  - intros Hn. unfold sft_bilevel. rewrite Hn. now destruct (use_sft_loss _).
  - unfold sft_multi_task, sft_bilevel. destruct (use_sft_loss _); [|done]. simpl.
    destruct (sft_type (config self)) as [s|]; [|done]. simpl.
    destruct (String.eqb_spec s "multi_task") as [->|]; [done|done].
Qed.

End LossScaleFacts.

Lemma dynamic_loss_scale_witness :
  use_dynamic_bsz (config (with_config dynamic_config)) = true
  /\ td_len (td_rows test_batch 0 1) = 1
  /\ (exists policy_loss metrics1 (self1 self' : @actor stub),
        micro_batch_step (with_config dynamic_config) "normal" 1%Q ∅ (td_rows test_batch 0 1)
        = Ok (metrics1, self')
        /\ trace self'
           = trace self1 ++ [Backward (Fin (policy_loss * (of_nat 4 / inject_Z 2)))])
  /\ micro_batch_step (with_config sft_dynamic_config) "sft_only" 1%Q ∅ sft_batch
     = Err RuntimeError.
Proof.
  split; [reflexivity|]. split; [reflexivity|]. split.
  - destruct (succeeds_Ok
                (normal_branch (with_config dynamic_config) (td_rows test_batch 0 1) 1%Q ∅))
      as [[[[policy_loss data] metrics1] self1] Hn]; [vm_compute; reflexivity|].
    destruct (dynamic_loss_scale (with_config dynamic_config) 1%Q ∅ (td_rows test_batch 0 1))
      as [Hnormal _]; [reflexivity|discriminate|].
    destruct (Hnormal _ _ _ _ Hn) as (_ & self' & _ & Hstep & Htrace).
    exists policy_loss, metrics1, self1, self'. split; [exact Hstep|exact Htrace].
  - destruct (succeeds_Ok (sft_only_branch (with_config sft_dynamic_config) sft_batch ∅))
      as [[[[policy_loss data] metrics1] self1] Hb]; [vm_compute; reflexivity|].
    destruct (dynamic_loss_scale (with_config sft_dynamic_config) 1%Q ∅ sft_batch)
      as [_ Hsft]; [reflexivity|discriminate|].
    exact (proj2 (Hsft _ _ _ _ Hb)).
Defined.

Lemma fixed_loss_scale_witness :
  use_dynamic_bsz (config (with_config zero_accumulation_config)) = false
  /\ update_micro_batches
       (with_config (make_config true 1 false 2 0 false None)) test_batch
     = Err ZeroDivisionError
  /\ exists micro_batches self0 policy_loss metrics1 (self1 self' : @actor stub),
       update_micro_batches (with_config zero_accumulation_config) (td_rows test_batch 0 1)
       = Ok (micro_batches, self0)
       /\ micro_batch_step (zero_grad self0) "normal" 1%Q ∅ (td_rows test_batch 0 1)
          = Ok (metrics1, self')
       /\ trace self' = trace self1 ++ [Backward (tensor_div policy_loss (1 / 2))]
       /\ isfinite (tensor_div policy_loss (1 / 2)) = false.
Proof.
  split; [reflexivity|]. split.
  - destruct (fixed_loss_scale (with_config (make_config true 1 false 2 0 false None))
                test_batch) as (Hzero & _); [reflexivity|].
    now apply Hzero.
  - set (self := with_config zero_accumulation_config).
    set (mini_batch := td_rows test_batch 0 1).
    set (run := u ← update_micro_batches self mini_batch;
                r ← normal_branch (zero_grad u.2) mini_batch 1%Q ∅;
                Ok (u, r)).
    destruct (succeeds_Ok run)
      as [[[micro_batches self0] [[[policy_loss data] metrics1] self1]] Hrun];
      [vm_compute; reflexivity|].
    subst run. apply bind_Ok in Hrun as ([mbs s0] & Hu & Hrun).
    apply bind_Ok in Hrun as ([[[pl d] m1] s1] & Hn & Hrun). simpl in Hn.
    injection Hrun as -> -> -> -> -> ->.
    destruct (fixed_loss_scale self mini_batch) as (_ & Hfixed); [reflexivity|].
    destruct (Hfixed micro_batches self0 Hu) as (_ & _ & _ & Hstep).
    destruct (Hstep (zero_grad self0) 1%Q ∅ mini_batch policy_loss data metrics1 self1
                (accumulates_refl _) Hn)
      as (_ & (self' & Hs & Htrace) & Hinf).
    exists micro_batches, self0, policy_loss, metrics1, self1, self'.
    split; [exact Hu|]. split; [exact Hs|]. split; [exact Htrace|].
    apply Hinf. split; [discriminate|reflexivity].
Defined.

Section MetricsFacts.
Context `{Collaborators}.

Lemma metric_list_lookup (metrics : gmap string metric) (key : string) (xs : list pyfloat) :
  metrics !! key = Some (MList xs) -> metric_list metrics key = xs.
Proof. unfold metric_list. now intros ->. Qed.

Lemma micro_batch_step_metrics (self self' : actor) (mode : string) (temperature : Q)
  (metrics metrics' : gmap string metric) (micro_batch : TensorDict) :
  micro_batch_step self mode temperature metrics micro_batch = Ok (metrics', self') ->
  (forall key, key ∉ loss_keys ++ scalar_keys -> metrics' !! key = metrics !! key)
  /\ (forall key, key ∈ loss_keys ->
        if String.eqb mode "normal"
        then exists x, metric_list metrics' key = metric_list metrics key ++ [x]
        else metrics' !! key = metrics !! key).
Proof.
  intros Hm. apply micro_batch_step_inv in Hm
    as (policy_loss & data & self1 & loss & -> & Hb & _ & _).
  destruct (normal_branch_metrics _ _ _ _ _ _ _ _ Hb) as [Hin Hout]. split; [done|].
  intros key Hkey. simpl. destruct (Hin key Hkey) as [x Hx]. exists x.
  now apply metric_list_lookup.
Qed.

Lemma micro_batch_loop_metrics (self self' : actor) (mode : string) (temperature : Q)
  (metrics metrics' : gmap string metric) (micro_batches : list TensorDict) :
  micro_batch_loop self mode temperature metrics micro_batches = Ok (metrics', self') ->
  (forall key, key ∉ loss_keys ++ scalar_keys -> metrics' !! key = metrics !! key)
  /\ (forall key, key ∈ loss_keys ->
        if String.eqb mode "normal"
        then exists xs, length xs = length micro_batches
                        /\ metric_list metrics' key = metric_list metrics key ++ xs
        else metrics' !! key = metrics !! key).
Proof.
  revert self metrics. induction micro_batches as [|mb rest IH]; intros self metrics Hl.
  - simpl in Hl. inversion Hl; subst. split; [done|]. intros key Hkey.
    destruct (String.eqb mode "normal"); [|done]. exists []. now rewrite app_nil_r.
  - simpl in Hl. apply bind_Ok in Hl as ([m1 self1] & Hs & Hl).
    apply micro_batch_step_metrics in Hs as [Hs1 Hs2].
    apply IH in Hl as [Hl1 Hl2]. split.
    + intros key Hkey. now rewrite Hl1, Hs1.
    + intros key Hkey. specialize (Hs2 key Hkey). specialize (Hl2 key Hkey).
      destruct (String.eqb mode "normal").
      * destruct Hs2 as [x Hx]. destruct Hl2 as (xs & Hlen & Hxs).
        exists (x :: xs). simpl. split; [now rewrite Hlen|].
        rewrite Hxs, Hx, <- app_assoc. done.
      * now rewrite Hl2, Hs2.
Qed.

(** One mini-batch, as seen in the metrics. *)
Lemma mini_batch_step_metrics_inv (self self' : actor) (mode : string) (temperature : Q)
  (metrics metrics' : gmap string metric) (mini_batch : TensorDict) :
  mode = "normal" \/ mode = "sft_only" ->
  mini_batch_step self mode temperature metrics mini_batch = Ok (metrics', self') ->
  exists micro_batches self0 grad_norm,
    update_micro_batches self mini_batch = Ok (micro_batches, self0)
    /\ metric_list metrics' (grad_norm_key mode)
       = metric_list metrics (grad_norm_key mode) ++ [grad_norm]
    /\ (forall key, key ∈ loss_keys ->
          if String.eqb mode "normal"
          then exists xs, length xs = length micro_batches
                          /\ metric_list metrics' key = metric_list metrics key ++ xs
          else metrics' !! key = metrics !! key)
    /\ (forall key, key ∉ grad_norm_key mode :: loss_keys ++ scalar_keys ->
          metrics' !! key = metrics !! key).
Proof.
  intros Hmode Hm. apply mini_batch_step_inv in Hm
    as (micro_batches & self0 & metrics1 & self1 & grad_norm & Hu & Hl & Ho & Hr).
  exists micro_batches, self0, grad_norm. split; [done|].
  destruct (micro_batch_loop_metrics _ _ _ _ _ _ _ Hl) as [Hout Hin].
  destruct (record_grad_norm_inv _ _ _ _ Hmode Hr) as [-> _].
  assert (grad_norm_key mode ∉ loss_keys ++ scalar_keys) as Hgk.
  { destruct Hmode as [-> | ->]; intros Hbad; apply (bool_decide_pack _) in Hbad;
      by vm_compute in Hbad. }
  assert (forall key, key ∈ loss_keys -> key <> grad_norm_key mode) as Hne.
  { intros key Hkey ->. apply Hgk. apply elem_of_app. now left. }
  split; [|split].
  - unfold metric_list at 1. rewrite lookup_insert_eq. unfold metric_list at 1 2.
    now rewrite (Hout _ Hgk).
  - intros key Hkey. specialize (Hin key Hkey). specialize (Hne key Hkey).
    destruct (String.eqb mode "normal").
    + destruct Hin as (xs & Hlen & Hxs). exists xs. split; [done|].
      rewrite <- Hxs. unfold metric_list. now rewrite lookup_insert_ne.
    + now rewrite lookup_insert_ne.
  - intros key Hkey. apply not_elem_of_cons in Hkey as [Hk1 Hk2].
    rewrite lookup_insert_ne by done. now apply Hout.
Qed.

(** X7.  How the metrics grow over one mini-batch: in normal mode each of the
    four loss diagnostics receives one value per micro-batch (not one per
    mini-batch), appended after the values already there; the gradient norm
    receives exactly one value, under 'actor/grad_norm' in normal mode and
    under 'acotr/sft_grad_norm' in supervised-only mode, where the loss
    diagnostics are left alone. *)
Theorem mini_batch_step_metrics (self self' : actor) (mode : string) (temperature : Q)
  (metrics metrics' : gmap string metric) (mini_batch : TensorDict) :
  mode = "normal" \/ mode = "sft_only" ->
  mini_batch_step self mode temperature metrics mini_batch = Ok (metrics', self') ->
  exists micro_batches self0 grad_norm,
    update_micro_batches self mini_batch = Ok (micro_batches, self0)
    /\ metric_list metrics' (grad_norm_key mode)
       = metric_list metrics (grad_norm_key mode) ++ [grad_norm]
    /\ (forall key, key ∈ loss_keys ->
          if String.eqb mode "normal"
          then exists xs, length xs = length micro_batches
                          /\ metric_list metrics' key = metric_list metrics key ++ xs
          else metrics' !! key = metrics !! key)
    /\ (forall key, key ∉ grad_norm_key mode :: loss_keys ++ scalar_keys ->
          metrics' !! key = metrics !! key).
Proof. apply mini_batch_step_metrics_inv. Qed.

End MetricsFacts.

Lemma mini_batch_step_metrics_witness :
  exists metrics' self' grad_norm,
    mini_batch_step test_actor "normal" 1%Q ∅ test_batch = Ok (metrics', self')
    /\ metric_list metrics' "actor/grad_norm" = [grad_norm]
    /\ length (metric_list metrics' "actor/pg_loss") = 2.
Proof.
  destruct (succeeds_Ok (mini_batch_step test_actor "normal" 1%Q ∅ test_batch))
    as [[metrics' self'] Hstep]; [vm_compute; reflexivity|].
  destruct (mini_batch_step_metrics test_actor self' "normal" 1%Q ∅ metrics' test_batch)
    as (micro_batches & self0 & grad_norm & Hu & Hg & Hin & _); [now left|exact Hstep|].
  exists metrics', self', grad_norm. split; [exact Hstep|]. split; [exact Hg|].
  assert ((fun r => length r.1) <$> update_micro_batches test_actor test_batch = Ok 2)
    as Hlen by (vm_compute; reflexivity).
  rewrite Hu in Hlen. injection Hlen as Hlen.
  destruct (Hin "actor/pg_loss") as (xs & Hxs & ->).
  - apply (bool_decide_unpack _). by vm_compute.
  - rewrite length_app, Hxs. simpl in Hlen. rewrite Hlen. vm_compute. reflexivity.
Defined.

Lemma mapM_ext {A B} (f g : A -> result B) (l : list A) :
  (forall x, x ∈ l -> f x = g x) -> mapM f l = mapM g l.
Proof.
  induction l as [|x l IH]; intros Hfg; [done|]. simpl.
  rewrite (Hfg x) by apply list_elem_of_here.
  destruct (g x); [|done]. simpl. rewrite IH; [done|].
  intros y Hy. apply Hfg. now apply list_elem_of_further.
Qed.

Lemma mapM_cons_result {A B} (f : A -> result B) (x : A) (l : list A) :
  mapM f (x :: l) = (y ← f x; k ← mapM f l; Ok (y :: k)).
Proof. reflexivity. Qed.

Lemma select_td_delete (td : TensorDict) (key : string) (batch_keys : list string) :
  key ∉ batch_keys -> select (td_delete td key) batch_keys = select td batch_keys.
Proof.
  intros Hk. unfold select. simpl.
  rewrite (mapM_ext _ (fun key => t ← getitem td key; Ok (key, t))); [done|].
  intros k Hin. unfold getitem. simpl. rewrite lookup_delete_ne; [done|].
  intros ->. done.
Qed.

Lemma select_missing (td : TensorDict) (key : string) (batch_keys : list string) :
  key ∈ batch_keys -> tensors td !! key = None -> select td batch_keys = Err KeyError.
Proof.
  intros Hin Hnone. unfold select.
  assert (mapM (fun key => t ← getitem td key; Ok (key, t)) batch_keys = Err KeyError) as ->;
    [|done].
  induction batch_keys as [|k ks IH]; [by apply not_elem_of_nil in Hin|].
  rewrite mapM_cons_result. destruct (tensors td !! k) as [t|] eqn:Hk.
  - apply elem_of_cons in Hin as [->|Hin]; [congruence|]. rewrite IH by done.
    unfold getitem. now rewrite Hk.
  - unfold getitem. now rewrite Hk.
Qed.

Lemma contains_true (td : TensorDict) (key : string) :
  contains td key = true <-> is_Some (tensors td !! key).
Proof. unfold contains. apply bool_decide_eq_true. Qed.

Lemma contains_false (td : TensorDict) (key : string) :
  contains td key = false <-> tensors td !! key = None.
Proof.
  unfold contains. rewrite bool_decide_eq_false. rewrite <- eq_None_not_Some. done.
Qed.

Section ResponseMaskFacts.
Context `{Collaborators}.

(** The keys that [update_policy] selects in normal mode. *)
Lemma update_select_keys_normal (self : actor) (data : DataProto) :
  exists keys,
    update_select_keys self data "normal" = Ok keys
    /\ (("response_mask_pr" ∈ keys) <-> contains (batch data) "response_mask_prob" = true)
    /\ ("response_mask_prob" ∉ keys)
    /\ (forall key, key ∈ ["responses"; "input_ids"; "attention_mask"; "position_ids";
                           "old_log_probs"; "advantages"] -> key ∈ keys).
Proof.
  unfold update_select_keys. simpl. eexists. split; [reflexivity|].
  destruct (use_kl_loss (config self)), (sft_multi_task self),
    (contains (batch data) "response_mask_prob"); simpl;
    (split; [split; [intros Hin; try done; apply (bool_decide_pack _) in Hin;
                     by vm_compute in Hin
                    |intros Heq; try done; apply (bool_decide_unpack _); by vm_compute]|]);
    (split; [intros Hin; apply (bool_decide_pack _) in Hin; by vm_compute in Hin|]);
    intros key Hkey;
    repeat (apply elem_of_cons in Hkey as [->|Hkey];
            [apply (bool_decide_unpack _); by vm_compute|]);
    by apply not_elem_of_nil in Hkey.
Qed.

(** X8.  The override of the response mask is selected by the presence of a
    differently named tensor. A batch that has 'response_mask_pr' but not
    'response_mask_prob' is processed exactly as if the override were not
    there; a batch that has 'response_mask_prob' but not 'response_mask_pr' is
    refused with a KeyError. *)
Theorem response_mask_override_gating (self : actor) (data : DataProto) :
  (contains (batch data) "response_mask_prob" = false ->
   update_policy self data "normal"
   = update_policy self (without_tensor data "response_mask_pr") "normal")
  /\ (contains (batch data) "response_mask_prob" = true ->
      contains (batch data) "response_mask_pr" = false ->
      update_policy self data "normal" = Err KeyError).
Proof.
  split.
  - intros Hno. unfold update_policy.
    assert (update_select_keys (train self) (without_tensor data "response_mask_pr") "normal"
            = update_select_keys (train self) data "normal") as ->.
    { unfold update_select_keys. simpl.
      assert (contains (td_delete (batch data) "response_mask_pr") "response_mask_prob"
              = contains (batch data) "response_mask_prob") as ->; [|done].
      unfold contains. simpl. now rewrite lookup_delete_ne. }
    destruct (update_select_keys_normal (train self) data) as (keys & Hk & Hiff & _).
    rewrite Hk. simpl. rewrite select_td_delete; [done|].
    intros Hin. apply Hiff in Hin. congruence.
  - intros Hyes Hno. unfold update_policy.
    destruct (update_select_keys_normal (train self) data) as (keys & Hk & Hiff & _).
    rewrite Hk. simpl. rewrite (select_missing _ "response_mask_pr"); [done| |].
    + now apply Hiff.
    + now apply contains_false.
Qed.

(** X9.  Without the override the response mask is [attention_mask[:, -R:]]:
    the last [R] columns when [0 < R <= S], but the whole attention mask when
    the response length is 0, since [-0] is [0]. *)
Theorem response_mask_default (data : TensorDict) (responses attention_mask : tensor) :
  let R := size_last responses in
  getitem data "responses" = Ok responses ->
  getitem data "attention_mask" = Ok attention_mask ->
  contains data "response_mask_pr" = false ->
  (forall S, Forall (fun row => length row = S) attention_mask -> 0 < R <= S ->
     response_mask_of data = Ok (columns (S - R) S attention_mask))
  /\ (R = 0 -> response_mask_of data = Ok attention_mask).
Proof.
  intros R Hr Hm Hc.
  assert (response_mask_of data
          = Ok (slice_cols (Some (- Z.of_nat R)%Z) None attention_mask)) as ->.
  { unfold response_mask_of. rewrite Hr. simpl. rewrite Hc, Hm. done. }
  split.
  - intros S Hrect HR. f_equal. unfold slice_cols, columns.
    apply list_fmap_ext. intros i row Hrow.
    pose proof (Forall_lookup_1 _ _ _ _ Hrect Hrow) as Hlen. simpl in Hlen.
    rewrite py_slice_last by lia. rewrite Hlen.
    rewrite take_ge; [done|]. rewrite length_drop. lia.
  - intros ->. f_equal. unfold slice_cols. simpl.
    rewrite <- (list_fmap_id attention_mask) at 2.
    apply list_fmap_ext. intros i row _. unfold py_slice, slice_bound. simpl.
    rewrite Z.min_r by lia. rewrite Z.sub_0_r, Nat2Z.id. simpl.
    rewrite drop_0. now rewrite firstn_all.
Qed.

End ResponseMaskFacts.

Lemma response_mask_default_witness :
  contains empty_response_batch "response_mask_pr" = false
  /\ response_mask_of empty_response_batch = Ok [[1; 1; 1]]%Q.
Proof.
  assert (getitem empty_response_batch "responses" = Ok [[]]) as Hr
    by (vm_compute; reflexivity).
  assert (getitem empty_response_batch "attention_mask" = Ok [[1; 1; 1]]%Q) as Hm
    by (vm_compute; reflexivity).
  assert (contains empty_response_batch "response_mask_pr" = false) as Hc
    by (vm_compute; reflexivity).
  destruct (response_mask_default empty_response_batch [[]] [[1; 1; 1]]%Q Hr Hm Hc)
    as [_ Hzero].
  split; [exact Hc|]. exact (Hzero eq_refl).
Defined.

(** ** The supervised loss *)

Lemma sft_loss_of_means (mask lp : tensor) :
  sft_loss_of mask lp
  = (- (qsum (token_means mask lp)
        / (of_nat (count_nonzero (token_means mask lp)) + eps)))%Q.
Proof. reflexivity. Qed.

Lemma token_means_cons (mask_row lp_row : list Q) (mask lp : tensor) :
  token_means (mask_row :: mask) (lp_row :: lp)
  = (masked_sum mask_row lp_row / (qsum mask_row + eps))%Q :: token_means mask lp.
Proof. reflexivity. Qed.

Lemma token_means_Forall2 (P : Q -> Prop) (mask lp : tensor) :
  Forall2 (fun mask_row lp_row =>
             P (masked_sum mask_row lp_row / (qsum mask_row + eps))%Q) mask lp ->
  Forall P (token_means mask lp).
Proof.
  induction 1 as [|mask_row lp_row mask lp Hrow _ IH]; [constructor|].
  rewrite token_means_cons. now constructor.
Qed.

Lemma eps_pos : (0 < eps)%Q.
Proof. reflexivity. Qed.

Lemma qsum_nonneg (l : list Q) : Forall (fun x => 0 <= x)%Q l -> (0 <= qsum l)%Q.
Proof.
  induction 1 as [|x l Hx _ IH]; simpl; [apply Qle_refl|].
  change 0%Q with (0 + 0)%Q. now apply Qplus_le_compat.
Qed.

Lemma qsum_nonpos (l : list Q) : Forall (fun x => x <= 0)%Q l -> (qsum l <= 0)%Q.
Proof.
  induction 1 as [|x l Hx _ IH]; simpl; [apply Qle_refl|].
  change 0%Q with (0 + 0)%Q. now apply Qplus_le_compat.
Qed.

Lemma qsum_zero (l : list Q) : Forall (fun x => x == 0)%Q l -> (qsum l == 0)%Q.
Proof.
  induction 1 as [|x l Hx _ IH]; simpl; [reflexivity|]. rewrite Hx, IH. reflexivity.
Qed.

Lemma is_zero_true (x : Q) : is_zero x = true <-> (x == 0)%Q.
Proof. apply Qeq_bool_iff. Qed.

Lemma is_zero_false (x : Q) : is_zero x = false <-> ~ (x == 0)%Q.
Proof.
  rewrite <- is_zero_true. destruct (is_zero x); split; intros; [done|congruence|congruence|done].
Qed.

Lemma count_nonzero_zero (l : list Q) :
  Forall (fun x => x == 0)%Q l -> count_nonzero l = 0.
Proof.
  unfold count_nonzero. induction 1 as [|x l Hx _ IH]; [done|].
  rewrite filter_cons_False; [done|]. apply is_zero_true in Hx. congruence.
Qed.

Lemma masked_sum_zero (mask_row lp_row : list Q) :
  Forall (fun m => m == 0)%Q mask_row -> (masked_sum mask_row lp_row == 0)%Q.
Proof.
  intros Hm. apply qsum_zero. revert lp_row.
  induction Hm as [|m mask_row Hz _ IH]; intros [|l lp_row]; simpl; constructor; auto.
  rewrite Hz. ring.
Qed.

Lemma masked_sum_nonpos (mask_row lp_row : list Q) :
  Forall (fun m => 0 <= m)%Q mask_row -> Forall (fun l => l <= 0)%Q lp_row ->
  (masked_sum mask_row lp_row <= 0)%Q.
Proof.
  intros Hm Hl. apply qsum_nonpos. revert lp_row Hl.
  induction Hm as [|m mask_row Hz _ IH]; intros lp_row Hl; [constructor|].
  destruct Hl as [|l lp_row Hlz Hl]; simpl; constructor; auto.
  nra.
Qed.

Lemma token_means_zip (mask lp : tensor) :
  token_means mask lp
  = zip_with (fun mask_row lp_row =>
                (masked_sum mask_row lp_row / (qsum mask_row + eps))%Q) mask lp.
Proof.
  revert lp. induction mask as [|mask_row mask IH]; intros [|lp_row lp]; try reflexivity.
  rewrite token_means_cons. simpl. now rewrite IH.
Qed.

Lemma token_means_Forall (P : Q -> Prop) (mask lp : tensor) :
  Forall (fun mask_row =>
            forall lp_row, P (masked_sum mask_row lp_row / (qsum mask_row + eps))%Q) mask ->
  Forall P (token_means mask lp).
Proof.
  rewrite token_means_zip. intros Hm. revert lp.
  induction Hm as [|mask_row mask Hrow _ IH]; intros [|lp_row lp]; simpl; constructor; auto.
Qed.

Lemma div_eps_zero (s c : Q) : (0 <= c)%Q -> (s / (c + eps) == 0 <-> s == 0)%Q.
Proof.
  intros Hc. pose proof eps_pos as He.
  assert (~ (c + eps == 0)%Q) as Hd by lra. split; intros Hs.
  - rewrite <- (Qmult_div_r s (c + eps)) by done. rewrite Hs. ring.
  - rewrite Hs. unfold Qdiv. ring.
Qed.

Lemma div_eps_nonpos (s c : Q) : (0 <= c)%Q -> (s <= 0)%Q -> (s / (c + eps) <= 0)%Q.
Proof.
  intros Hc Hs. pose proof eps_pos as He. apply Qle_shift_div_r; lra.
Qed.

(** X10.  An entirely unmasked micro-batch has supervised loss 0: both
    divisions are guarded by [eps]. *)
Theorem sft_loss_unmasked (ground_truth_mask_pr old_log_prob_pr : tensor) :
  Forall (Forall (fun m => m == 0)%Q) ground_truth_mask_pr ->
  (sft_loss_of ground_truth_mask_pr old_log_prob_pr == 0)%Q.
Proof.
  intros Hmask.
  assert (Forall (fun x => x == 0)%Q (token_means ground_truth_mask_pr old_log_prob_pr))
    as Hz.
  { apply token_means_Forall. revert Hmask. apply Forall_impl. intros mask_row Hrow lp_row.
    rewrite (masked_sum_zero _ _ Hrow). unfold Qdiv. ring. }
  rewrite sft_loss_of_means, (qsum_zero _ Hz). unfold Qdiv. ring.
Qed.

(** X11.  With a non-negative mask and log-probabilities that are at most 0,
    the supervised loss is at least 0. *)
Theorem sft_loss_nonneg (ground_truth_mask_pr old_log_prob_pr : tensor) :
  Forall (Forall (fun m => 0 <= m)%Q) ground_truth_mask_pr ->
  Forall (Forall (fun l => l <= 0)%Q) old_log_prob_pr ->
  (0 <= sft_loss_of ground_truth_mask_pr old_log_prob_pr)%Q.
Proof.
  intros Hmask Hlp.
  assert (Forall (fun x => x <= 0)%Q (token_means ground_truth_mask_pr old_log_prob_pr))
    as Hz.
  { rewrite token_means_zip. revert old_log_prob_pr Hlp.
    induction Hmask as [|mask_row mask Hrow _ IH]; intros lp Hlp; [constructor|].
    destruct Hlp as [|lp_row lp Hl Hlp]; simpl; constructor; auto.
    apply div_eps_nonpos; [now apply qsum_nonneg|now apply masked_sum_nonpos]. }
  rewrite sft_loss_of_means. apply qsum_nonpos in Hz.
  set (n := count_nonzero _). set (s := qsum _) in *.
  assert (0 <= of_nat n)%Q as Hn.
  { unfold of_nat. change 0%Q with (inject_Z 0). rewrite <- Zle_Qle. lia. }
  pose proof (div_eps_nonpos s (of_nat n) Hn Hz). lra.
Qed.

Lemma count_nonzero_cons (x : Q) (l : list Q) :
  count_nonzero (x :: l) = (if is_zero x then 0 else 1) + count_nonzero l.
Proof.
  unfold count_nonzero. destruct (is_zero x) eqn:Hx.
  - rewrite filter_cons_False by congruence. done.
  - rewrite filter_cons_True by done. done.
Qed.

Lemma is_zero_proper (x y : Q) : (x == y)%Q -> is_zero x = is_zero y.
Proof.
  intros Hxy. destruct (is_zero y) eqn:Hy.
  - apply is_zero_true. apply is_zero_true in Hy. now rewrite Hxy.
  - apply is_zero_false. apply is_zero_false in Hy. now rewrite Hxy.
Qed.

(** X12.  The normaliser of line 562 counts the examples whose masked sum of
    log-probabilities is not 0. *)
Theorem sft_normaliser_counts_nonzero_sums (ground_truth_mask_pr old_log_prob_pr : tensor) :
  Forall (Forall (fun m => 0 <= m)%Q) ground_truth_mask_pr ->
  count_nonzero (token_means ground_truth_mask_pr old_log_prob_pr)
  = count_nonzero (zip_with masked_sum ground_truth_mask_pr old_log_prob_pr).
Proof.
  intros Hmask. rewrite token_means_zip. revert old_log_prob_pr.
  induction Hmask as [|mask_row mask Hrow _ IH]; intros [|lp_row lp]; try reflexivity.
  simpl. rewrite !count_nonzero_cons, IH. f_equal.
  pose proof (div_eps_zero (masked_sum mask_row lp_row) (qsum mask_row)
                (qsum_nonneg _ Hrow)) as Hiff.
  destruct (is_zero (masked_sum mask_row lp_row)) eqn:Hs.
  - apply is_zero_true in Hs. apply Hiff in Hs. apply is_zero_true in Hs. now rewrite Hs.
  - apply is_zero_false in Hs. rewrite <- Hiff in Hs. apply is_zero_false in Hs.
    now rewrite Hs.
Qed.

Lemma proper_row_sum (mask_row lp_row : list Q) :
  proper_row mask_row lp_row ->
  (masked_sum mask_row lp_row <= 0)%Q
  /\ is_zero (masked_sum mask_row lp_row) = negb (has_ground_truth mask_row).
Proof.
  unfold masked_sum, has_ground_truth.
  induction 1 as [|m l mask_row lp_row Hml _ [IHle IHz]]; simpl; [done|].
  destruct Hml as [Hm|[Hm Hl]].
  - assert (m * l + qsum (zip_with Qmult mask_row lp_row)
            == qsum (zip_with Qmult mask_row lp_row))%Q as He by (rewrite Hm; ring).
    split; [lra|]. rewrite (is_zero_proper _ _ He), IHz.
    apply is_zero_true in Hm. now rewrite Hm.
  - assert (m * l + qsum (zip_with Qmult mask_row lp_row) < 0)%Q as Hlt.
    { rewrite Hm. lra. }
    split; [lra|].
    assert (is_zero m = false) as -> by (apply is_zero_false; rewrite Hm; lra).
    simpl. apply is_zero_false. lra.
Qed.

(** X13.  On a 0/1 mask whose masked tokens have strictly negative
    log-probabilities, the loss is the one of the averaged formula: the sum of
    the per-example masked means over the number of examples that have at least
    one ground-truth token. *)
Theorem sft_loss_averages_examples_with_tokens (ground_truth_mask_pr old_log_prob_pr : tensor) :
  Forall2 proper_row ground_truth_mask_pr old_log_prob_pr ->
  count_nonzero (token_means ground_truth_mask_pr old_log_prob_pr)
  = length (filter (fun row => has_ground_truth row = true) ground_truth_mask_pr)
  /\ sft_loss_of ground_truth_mask_pr old_log_prob_pr
     = sft_loss_spec ground_truth_mask_pr old_log_prob_pr.
Proof.
  intros Hrows.
  assert (count_nonzero (token_means ground_truth_mask_pr old_log_prob_pr)
          = length (filter (fun row => has_ground_truth row = true) ground_truth_mask_pr))
    as Hcount.
  { rewrite token_means_zip.
    induction Hrows as [|mask_row lp_row mask lp Hrow _ IH]; [reflexivity|].
    simpl. rewrite count_nonzero_cons, IH.
    destruct (proper_row_sum _ _ Hrow) as [Hle Hz].
    assert (0 <= qsum mask_row)%Q as Hc.
    { apply qsum_nonneg. unfold proper_row in Hrow.
      clear -Hrow. induction Hrow as [|m l ? ? [Hm|[Hm _]] _ IH]; constructor; try done;
        rewrite Hm; lra. }
    pose proof (div_eps_zero (masked_sum mask_row lp_row) (qsum mask_row) Hc) as Hiff.
    destruct (has_ground_truth mask_row) eqn:Hg; simpl in Hz.
    - rewrite filter_cons_True by done. simpl.
      apply is_zero_false in Hz. rewrite <- Hiff in Hz. apply is_zero_false in Hz.
      now rewrite Hz.
    - rewrite filter_cons_False by congruence.
      apply is_zero_true in Hz. apply Hiff in Hz. apply is_zero_true in Hz.
      now rewrite Hz. }
  split; [done|].
  rewrite sft_loss_of_means, Hcount. unfold sft_loss_spec.
  rewrite token_means_zip. reflexivity.
Qed.

Lemma sft_loss_unmasked_witness :
  Forall (Forall (fun m => m == 0)%Q) [[0; 0]; [0; 0]]%Q
  /\ (sft_loss_of [[0; 0]; [0; 0]]%Q [[-1; -2]; [-3; -4]]%Q == 0)%Q.
Proof.
  assert (Forall (Forall (fun m => m == 0)%Q) [[0; 0]; [0; 0]]%Q) as Hmask
    by (forall_rows; reflexivity).
  split; [exact Hmask|]. exact (sft_loss_unmasked _ _ Hmask).
Defined.

Lemma sft_loss_nonneg_witness :
  Forall (Forall (fun m => 0 <= m)%Q) [[1; 0]; [1; 1]]%Q
  /\ Forall (Forall (fun l => l <= 0)%Q) [[-1; -2]; [-3; -4]]%Q
  /\ (0 <= sft_loss_of [[1; 0]; [1; 1]]%Q [[-1; -2]; [-3; -4]]%Q)%Q.
Proof.
  assert (Forall (Forall (fun m => 0 <= m)%Q) [[1; 0]; [1; 1]]%Q) as Hmask
    by (forall_rows; lra).
  assert (Forall (Forall (fun l => l <= 0)%Q) [[-1; -2]; [-3; -4]]%Q) as Hlp
    by (forall_rows; lra).
  split; [exact Hmask|]. split; [exact Hlp|]. exact (sft_loss_nonneg _ _ Hmask Hlp).
Defined.

(** The first example has two ground-truth tokens whose log-probabilities
    cancel. *)
Lemma sft_normaliser_counts_nonzero_sums_witness :
  Forall (Forall (fun m => 0 <= m)%Q) [[1; 1]; [0; 0]; [1; 1]]%Q
  /\ count_nonzero (token_means [[1; 1]; [0; 0]; [1; 1]]%Q [[-1; 1]; [-1; -1]; [-2; -1]]%Q)
     = count_nonzero (zip_with masked_sum [[1; 1]; [0; 0]; [1; 1]]%Q
                        [[-1; 1]; [-1; -1]; [-2; -1]]%Q).
Proof.
  assert (Forall (Forall (fun m => 0 <= m)%Q) [[1; 1]; [0; 0]; [1; 1]]%Q) as Hmask
    by (forall_rows; lra).
  split; [exact Hmask|]. exact (sft_normaliser_counts_nonzero_sums _ _ Hmask).
Defined.

Lemma sft_loss_averages_examples_with_tokens_witness :
  Forall2 proper_row [[1; 0]; [0; 0]]%Q [[-1; -2]; [-3; -4]]%Q
  /\ sft_loss_of [[1; 0]; [0; 0]]%Q [[-1; -2]; [-3; -4]]%Q
     = sft_loss_spec [[1; 0]; [0; 0]]%Q [[-1; -2]; [-3; -4]]%Q.
Proof.
  assert (Forall2 proper_row [[1; 0]; [0; 0]]%Q [[-1; -2]; [-3; -4]]%Q) as Hrows.
  { unfold proper_row. forall_rows;
      first [left; reflexivity | right; split; [reflexivity | lra]]. }
  split; [exact Hrows|]. exact (proj2 (sft_loss_averages_examples_with_tokens _ _ Hrows)).
Defined.

Lemma pad_input_Ok {A} (zero : A) (hidden : list A) (indices : list nat)
  (batch seqlen : nat) :
  is_Ok (pad_input zero hidden indices batch seqlen)
  <-> length hidden = length indices
      /\ forallb (fun i => i <? batch * seqlen) indices = true.
Proof.
  unfold pad_input, is_Ok.
  destruct (Nat.eqb_spec (length hidden) (length indices)) as [Hl|Hl]; simpl.
  - destruct (forallb _ indices); simpl; split.
    + done.
    + intros _. eauto.
    + intros [? ?]. done.
    + intros [_ ?]. done.
  - split; [intros [? ?]; done|intros [? _]; done].
Qed.

Section LogitsFacts.
Context `{Collaborators}.

(** The two forwards, side by side. *)
Lemma forward_micro_batch_2_inv (self : actor) (micro_batch : TensorDict)
  (temperature : Q) :
  (forall entropy log_probs all_logits self',
     _forward_micro_batch_2 self micro_batch temperature
     = Ok (entropy, log_probs, all_logits, self') ->
     _forward_micro_batch self micro_batch temperature = Ok (entropy, log_probs, self')
     /\ length all_logits = length log_probs)
  /\ (forall entropy log_probs self',
        _forward_micro_batch self micro_batch temperature = Ok (entropy, log_probs, self') ->
        use_remove_padding (config self) && use_ulysses_sp self = false ->
        exists all_logits,
          _forward_micro_batch_2 self micro_batch temperature
          = Ok (entropy, log_probs, all_logits, self')).
Proof.
  unfold _forward_micro_batch_2, _forward_micro_batch.
  destruct (getitem micro_batch "responses") as [responses|]; simpl; [|split; intros; done].
  destruct (getitem micro_batch "input_ids") as [input_ids|]; simpl; [|split; intros; done].
  destruct (getitem micro_batch "attention_mask") as [attention_mask|]; simpl;
    [|split; intros; done].
  destruct (getitem micro_batch "position_ids") as [position_ids|]; simpl;
    [|split; intros; done].
  destruct (use_remove_padding (config self)) eqn:Hrm.
  - destruct (packed_forward self input_ids attention_mask position_ids temperature)
      as [[po self1]|e] eqn:Hpo; simpl; [|split; intros; done].
    assert (use_ulysses_sp self1 = use_ulysses_sp self) as Hsp.
    { apply packed_forward_inv in Hpo as (? & ? & ? & ? & Hpo). cbv zeta in Hpo.
      now destruct Hpo as (_ & _ & _ & _ & -> & _). }
    assert (length (po_logits po) = length (po_entropy po)) as Hlen.
    { apply packed_forward_inv in Hpo as (? & ? & ? & ? & Hpo). cbv zeta in Hpo.
      destruct Hpo as (_ & _ & _ & _ & _ & _ & _ & -> & _). now rewrite length_fmap. }
    unfold ulysses_gather. rewrite Hsp.
    destruct (use_ulysses_sp self) eqn:Hu; simpl; [split; intros; done|].
    destruct (pad_input 0%Q (po_entropy po) (po_indices po) (length input_ids)
                (size_last input_ids)) as [full_entropy|] eqn:Hfe; simpl;
      [|split; intros; done].
    destruct (pad_input 0%Q (po_log_probs po) (po_indices po) (length input_ids)
                (size_last input_ids)) as [full_log_probs|] eqn:Hfl; simpl;
      [|split; intros; done].
    assert (is_Ok (pad_input zero_logits (po_logits po) (po_indices po) (length input_ids)
                     (size_last input_ids))) as [all_logits Hal].
    { apply pad_input_Ok. rewrite Hlen. apply (pad_input_Ok 0%Q). unfold is_Ok. eauto. }
    rewrite Hal. simpl. split.
    + intros entropy log_probs al self' Heq. inversion Heq; subst. split; [done|].
      apply pad_input_shape in Hal as [Hal _]. apply pad_input_shape in Hfl as [Hfl _].
      unfold response_slice, slice_cols. rewrite !length_fmap. lia.
    + intros entropy log_probs self' Heq _. inversion Heq; subst. eauto.
  - unfold dense_forward, call_model.
    destruct (logprobs_from_logits_2d _ responses) as [log_probs0|] eqn:Hlp; simpl;
      [|split; intros; done].
    split.
    + intros entropy log_probs al self' Heq. inversion Heq; subst. split; [done|].
      symmetry. eapply logprobs_from_logits_2d_length; eauto.
    + intros entropy log_probs self' Heq _. inversion Heq; subst. eauto.
Qed.

(** X14.  [_forward_micro_batch_2] is [_forward_micro_batch] with the logits
    besides: whenever it returns, its entropies, log-probabilities and trace
    are those of [_forward_micro_batch]; and unless packing is combined with
    sequence parallelism it returns whenever [_forward_micro_batch] does. *)
Theorem forward_micro_batch_2_agrees (self : actor) (micro_batch : TensorDict)
  (temperature : Q) :
  (forall entropy log_probs all_logits self',
     _forward_micro_batch_2 self micro_batch temperature
     = Ok (entropy, log_probs, all_logits, self') ->
     _forward_micro_batch self micro_batch temperature = Ok (entropy, log_probs, self')
     /\ length all_logits = length log_probs)
  /\ (forall entropy log_probs self',
        _forward_micro_batch self micro_batch temperature = Ok (entropy, log_probs, self') ->
        use_remove_padding (config self) && use_ulysses_sp self = false ->
        exists all_logits,
          _forward_micro_batch_2 self micro_batch temperature
          = Ok (entropy, log_probs, all_logits, self')).
Proof. apply forward_micro_batch_2_inv. Qed.

(** X15.  The forward calls the model exactly once, never with a cache, with no
    attention mask exactly when packing is on, and changes nothing else of the
    actor. *)
Theorem forward_micro_batch_one_call (self self' : actor) (micro_batch : TensorDict)
  (temperature : Q) (entropy log_probs : tensor) :
  _forward_micro_batch self micro_batch temperature = Ok (entropy, log_probs, self') ->
  exists args,
    self' = log self (ModelCall args)
    /\ arg_use_cache args = false
    /\ (arg_attention_mask args = None <-> use_remove_padding (config self) = true)
    /\ (use_remove_padding (config self) = false ->
        Some (arg_input_ids args) = tensors micro_batch !! "input_ids"
        /\ arg_attention_mask args = tensors micro_batch !! "attention_mask"
        /\ arg_position_ids args = tensors micro_batch !! "position_ids").
Proof.
  intros Hf. destruct (use_remove_padding (config self)) eqn:Hrm.
  - apply forward_packed_inv in Hf
      as (? & ? & ? & ? & po & ? & ? & _ & _ & _ & _ & Hpo & _); [|done].
    apply packed_forward_inv in Hpo as (? & ? & ? & ? & Hpo). cbv zeta in Hpo.
    destruct Hpo as (_ & _ & _ & _ & -> & _). eexists. split; [reflexivity|].
    simpl. repeat split; done.
  - apply forward_dense_inv in Hf as (? & ids & mask & pos & Hf); [|done]. cbv zeta in Hf.
    destruct Hf as (_ & E2 & E3 & E4 & -> & _). eexists. split; [reflexivity|].
    simpl. unfold getitem in E2, E3, E4.
    destruct (tensors micro_batch !! "input_ids"); [|done].
    destruct (tensors micro_batch !! "attention_mask"); [|done].
    destruct (tensors micro_batch !! "position_ids"); [|done].
    inversion E2; inversion E3; inversion E4; subst. repeat split; done.
Qed.

End LogitsFacts.

Lemma forward_micro_batch_one_call_witness :
  exists entropy log_probs self' args,
    _forward_micro_batch test_actor test_batch 1%Q = Ok (entropy, log_probs, self')
    /\ self' = log test_actor (ModelCall args)
    /\ arg_use_cache args = false.
Proof.
  destruct (succeeds_Ok (_forward_micro_batch test_actor test_batch 1%Q))
    as [[[entropy log_probs] self'] Hf]; [vm_compute; reflexivity|].
  destruct (forward_micro_batch_one_call test_actor self' test_batch 1%Q entropy log_probs Hf)
    as (args & Hs & Hc & _).
  exists entropy, log_probs, self', args. split; [exact Hf|]. split; [exact Hs|exact Hc].
Defined.

Section ParallelFacts.
Context `{Collaborators}.

Lemma select_present (td : TensorDict) (k1 k2 k3 k4 : string) (t1 t2 t3 t4 : tensor) :
  getitem td k1 = Ok t1 -> getitem td k2 = Ok t2 ->
  getitem td k3 = Ok t3 -> getitem td k4 = Ok t4 ->
  select td [k1; k2; k3; k4]
  = Ok {| batch_size := batch_size td;
          tensors := list_to_map [(k1, t1); (k2, t2); (k3, t3); (k4, t4)] |}.
Proof.
  intros E1 E2 E3 E4. unfold select. simpl. rewrite E1. simpl. rewrite E2. simpl.
  rewrite E3. simpl. rewrite E4. reflexivity.
Qed.

Lemma compute_log_prob_pass (self : actor) (data : DataProto) :
  compute_log_prob self data
  = select (batch data) ["responses"; "input_ids"; "attention_mask"; "position_ids"]
    ≫= log_prob_pass (eval self) data.
Proof. reflexivity. Qed.

Lemma log_prob_pass_meta (self : actor) (data data' : DataProto) (batch : TensorDict) :
  meta_info data' = meta_info data ->
  log_prob_pass self data' batch = log_prob_pass self data batch.
Proof. unfold log_prob_pass, plan_micro_batches. now intros ->. Qed.

Lemma rename_pr_selected (n : nat) (responses input_ids attention_mask position_ids : tensor) :
  rename_pr
    {| batch_size := n;
       tensors := list_to_map [("responses_pr", responses); ("input_ids_pr", input_ids);
                               ("attention_mask_pr", attention_mask);
                               ("position_ids_pr", position_ids)] |}
    ["responses_pr"; "input_ids_pr"; "attention_mask_pr"; "position_ids_pr"]
  = Ok {| batch_size := n;
          tensors := list_to_map [("responses", responses); ("input_ids", input_ids);
                                  ("attention_mask", attention_mask);
                                  ("position_ids", position_ids)] |}.
Proof. vm_compute. reflexivity. Qed.

Lemma select_parallel_view (data : DataProto)
  (responses input_ids attention_mask position_ids : tensor) :
  select (batch (parallel_view data responses input_ids attention_mask position_ids))
    ["responses"; "input_ids"; "attention_mask"; "position_ids"]
  = Ok (batch (parallel_view data responses input_ids attention_mask position_ids)).
Proof.
  rewrite (select_present _ _ _ _ _ responses input_ids attention_mask position_ids);
    [reflexivity|vm_compute; reflexivity..].
Qed.

(** X16.  [compute_log_prob_pr] is [compute_log_prob] on the parallel view of
    the batch: the tensors 'responses_pr', 'input_ids_pr', 'attention_mask_pr'
    and 'position_ids_pr' under the names without '_pr'. A batch that lacks one
    of the four is refused with a KeyError. *)
Theorem compute_log_prob_pr_parallel_view (self : actor) (data : DataProto) :
  (forall responses input_ids attention_mask position_ids,
     getitem (batch data) "responses_pr" = Ok responses ->
     getitem (batch data) "input_ids_pr" = Ok input_ids ->
     getitem (batch data) "attention_mask_pr" = Ok attention_mask ->
     getitem (batch data) "position_ids_pr" = Ok position_ids ->
     compute_log_prob_pr self data
     = compute_log_prob self
         (parallel_view data responses input_ids attention_mask position_ids))
  /\ (forall key,
        key ∈ ["responses_pr"; "input_ids_pr"; "attention_mask_pr"; "position_ids_pr"] ->
        contains (batch data) key = false ->
        compute_log_prob_pr self data = Err KeyError).
Proof.
  split.
  - intros responses input_ids attention_mask position_ids E1 E2 E3 E4.
    rewrite compute_log_prob_pass, select_parallel_view.
    unfold compute_log_prob_pr.
    rewrite (select_present _ _ _ _ _ _ _ _ _ E1 E2 E3 E4).
    rewrite !bind_Ok_l, rename_pr_selected, !bind_Ok_l.
    symmetry. now apply log_prob_pass_meta.
  - intros key Hkey Hc. unfold compute_log_prob_pr.
    rewrite (select_missing _ key); [done|done|]. now apply contains_false.
Qed.
End ParallelFacts.

Lemma py_slice_response_any {A} (R : nat) (row : list A) :
  py_slice (Some (- Z.of_nat R - 1)%Z) (Some (-1)%Z) row
  = take (Nat.min R (length row - 1)) (drop (length row - 1 - R) row).
Proof.
  unfold py_slice, slice_bound. simpl.
  destruct (Z.ltb_spec (- Z.of_nat R - 1) 0) as [_|?]; [|lia].
  f_equal; [|f_equal]; lia.
Qed.

(** X17.  The response slice on any shape: from rows of length [S] it keeps
    [min(R, S - 1)] columns. When the response is as long as the sequence (no
    prompt token), the bound [-R - 1] is clamped and the result is the first [S
    - 1] columns: fewer than [R]. *)
Theorem response_slice_shape {A} (R S : nat) (t : list (list A)) :
  Forall (fun row => length row = S) t ->
  length (response_slice R t) = length t
  /\ Forall (fun row => length row = Nat.min R (S - 1)) (response_slice R t)
  /\ (S <= R -> response_slice R t = take (S - 1) <$> t).
Proof.
  intros Hrect. unfold response_slice, slice_cols. split; [apply length_fmap|]. split.
  - rewrite Forall_fmap. revert Hrect. apply Forall_impl. intros row Hrow. simpl.
    rewrite py_slice_response_any, length_take, length_drop. lia.
  - intros HS. apply list_fmap_ext. intros i row Hi.
    pose proof (Forall_lookup_1 _ _ _ _ Hrect Hi) as Hrow. simpl in Hrow.
    rewrite py_slice_response_any. replace (length row - 1 - R) with 0 by lia.
    rewrite drop_0. f_equal. lia.
Qed.

Section PassFacts.
Context `{Collaborators}.

Lemma log_prob_loop_trace (self self' : actor) (micro_batches : list TensorDict)
  (temperature : Q) (lps es lps' es' : list tensor) :
  log_prob_loop self micro_batches temperature lps es = Ok (lps', es', self') ->
  config self' = config self /\ is_fsdp self' = is_fsdp self
  /\ params self' = params self /\ opt_state self' = opt_state self
  /\ grads self' = grads self /\ training self' = training self
  /\ exists calls, length calls = length micro_batches
                   /\ trace self' = trace self ++ (ModelCall <$> calls).
Proof.
  revert self lps es. induction micro_batches as [|mb rest IH]; intros self lps es Hl.
  - simpl in Hl. inversion Hl; subst. repeat split. exists []. simpl.
    now rewrite app_nil_r.
  - simpl in Hl. apply bind_Ok in Hl as ([[entropy log_probs] self1] & Hf & Hl).
    apply forward_micro_batch_trace in Hf as [args ->].
    apply IH in Hl as (C & F & P & O & G & T & calls & Hlen & Htr).
    repeat split; try done. exists (args :: calls). simpl. split; [now rewrite Hlen|].
    rewrite Htr. simpl. now rewrite <- app_assoc.
Qed.

(** X18.  [compute_log_prob] only reads: when it returns, the model is in eval
    mode, it was called once per micro-batch and nothing else happened, and the
    parameters, the optimizer state and the gradients are untouched. The two
    tensors it returns have the same number of rows. *)
Theorem compute_log_prob_read_only (self self' : actor) (data : DataProto)
  (log_probs entropy : tensor) :
  compute_log_prob self data = Ok (log_probs, entropy, self') ->
  config self' = config self
  /\ params self' = params self /\ opt_state self' = opt_state self
  /\ grads self' = grads self /\ training self' = false
  /\ length log_probs = length entropy
  /\ exists selected micro_batches indices calls,
       select (batch data) ["responses"; "input_ids"; "attention_mask"; "position_ids"]
       = Ok selected
       /\ plan_micro_batches (eval self) data selected = Ok (micro_batches, indices)
       /\ length calls = length micro_batches
       /\ trace self' = trace self ++ Eval :: (ModelCall <$> calls).
Proof.
  unfold compute_log_prob. intros Hc.
  apply bind_Ok in Hc as (selected & Hsel & Hc).
  apply bind_Ok in Hc as ([micro_batches indices] & Hplan & Hc).
  apply bind_Ok in Hc as ([[lps es] self1] & Hloop & Hc).
  apply bind_Ok in Hc as (lp & Hlp & Hc). apply bind_Ok in Hc as (en & Hen & Hc).
  destruct (log_prob_loop_rows _ _ _ _ _ _ _ _ Hloop eq_refl) as (_ & _ & Hrows).
  assert (lp = concat lps) as -> by (destruct lps; [done|now inversion Hlp]).
  assert (en = concat es) as -> by (destruct es; [done|now inversion Hen]).
  apply log_prob_loop_trace in Hloop as (C & _ & P & O & G & T & calls & Hlen & Htr).
  assert (self' = self1 /\ length log_probs = length entropy) as [-> Hlens].
  { destruct (meta_use_dynamic_bsz (meta_info data)).
    - apply bind_Ok in Hc as (? & _ & Hc). apply bind_Ok in Hc as (rev & _ & Hc).
      apply bind_Ok in Hc as (lp' & Hlp' & Hc). apply bind_Ok in Hc as (en' & Hen' & Hc).
      inversion Hc; subst. split; [done|].
      apply index_rows_length in Hlp', Hen'. lia.
    - inversion Hc; subst. split; [done|]. lia. }
  repeat split; try done.
  exists selected, micro_batches, indices, calls. repeat split; try done.
  rewrite Htr. simpl. now rewrite <- app_assoc.
Qed.

Lemma optimizer_step_flags (self self' : actor) (grad_norm : pyfloat) :
  _optimizer_step self = Ok (grad_norm, self') ->
  training self' = training self /\ is_fsdp self' = is_fsdp self.
Proof.
  unfold _optimizer_step. intros Ho. apply bind_Ok in Ho as (max_norm & _ & Ho).
  destruct (if is_fsdp self then _ else _) as [g n].
  destruct (negb (isfinite n)); inversion Ho; subst; done.
Qed.

Lemma mini_batch_loop_metrics (self self' : actor) (mode : string) (temperature : Q)
  (metrics metrics' : gmap string metric) (dataloader : list TensorDict) :
  mode = "normal" \/ mode = "sft_only" ->
  mini_batch_loop self mode temperature metrics dataloader = Ok (metrics', self') ->
  training self' = training self
  /\ (exists xs, length xs = length dataloader
                 /\ metric_list metrics' (grad_norm_key mode)
                    = metric_list metrics (grad_norm_key mode) ++ xs)
  /\ (forall key, key ∉ grad_norm_key mode :: loss_keys ++ scalar_keys ->
        metrics' !! key = metrics !! key)
  /\ (mode = "sft_only" -> forall key, key ∈ loss_keys -> metrics' !! key = metrics !! key).
Proof.
  intros Hmode. revert self metrics.
  induction dataloader as [|mb rest IH]; intros self metrics Hl.
  - simpl in Hl. inversion Hl; subst. split; [done|]. split.
    + exists []. now rewrite app_nil_r.
    + done.
  - simpl in Hl. apply bind_Ok in Hl as ([m1 self1] & Hs & Hl).
    pose proof Hs as Hs'. apply mini_batch_step_inv in Hs'
      as (mbs & self0 & m0 & s0 & g & Hu & Hloop & Ho & _).
    apply update_micro_batches_self in Hu as (_ & _ & _ & _ & T0 & _).
    apply micro_batch_loop_accumulates in Hloop as (_ & _ & _ & _ & T1 & _).
    apply optimizer_step_flags in Ho as [T2 _]. simpl in T1.
    apply (mini_batch_step_metrics_inv _ _ _ _ _ _ _ Hmode) in Hs
      as (mbs' & self0' & g' & _ & Hg & Hin & Hout).
    apply IH in Hl as (T3 & (xs & Hlen & Hxs) & Hout' & Hsft).
    split; [congruence|]. split; [|split].
    + exists (g' :: xs). simpl. split; [now rewrite Hlen|].
      rewrite Hxs, Hg, <- app_assoc. done.
    + intros key Hkey. now rewrite Hout', Hout.
    + intros Hm key Hkey. rewrite (Hsft Hm key Hkey). specialize (Hin key Hkey).
      subst mode. exact Hin.
Qed.

(** X19.  When [update_policy] returns, the mode was one of the two known ones,
    the model is in training mode, and the gradient norm has been recorded
    exactly once per mini-batch: under 'actor/grad_norm' in normal mode, under
    the name 'acotr/sft_grad_norm' in supervised-only mode, where neither
    'actor/grad_norm' nor any of the four loss diagnostics exists. *)
Theorem update_policy_grad_norm_per_mini_batch (self self' : actor) (data : DataProto)
  (mode : string) (metrics : gmap string metric) :
  update_policy self data mode = Ok (metrics, self') ->
  (mode = "normal" \/ mode = "sft_only")
  /\ training self' = true
  /\ (exists select_keys selected dataloader,
        update_select_keys (train self) data mode = Ok select_keys
        /\ select (batch data) select_keys = Ok selected
        /\ split selected (ppo_mini_batch_size (config self)) = Ok dataloader
        /\ length (metric_list metrics (grad_norm_key mode)) = length dataloader)
  /\ (mode = "sft_only" ->
      forall key, key ∈ "actor/grad_norm" :: loss_keys -> metrics !! key = None).
Proof.
  intros Hu. apply update_policy_inv in Hu
    as (select_keys & selected & dataloader & self1 & Hk & Hs & Hd & Hl & ->).
  assert (mode = "normal" \/ mode = "sft_only") as Hmode.
  { unfold update_select_keys in Hk.
    destruct (String.eqb_spec mode "normal"); [now left|].
    destruct (String.eqb_spec mode "sft_only"); [now right|done]. }
  destruct (mini_batch_loop_metrics _ _ _ _ _ _ _ Hmode Hl)
    as (T & (xs & Hlen & Hxs) & Hout & Hsft).
  split; [done|]. split; [exact T|]. split.
  - exists select_keys, selected, dataloader. repeat split; try done.
    rewrite Hxs. unfold metric_list at 1. rewrite lookup_empty. simpl. done.
  - intros -> key Hkey. apply elem_of_cons in Hkey as [->|Hkey].
    + rewrite Hout; [apply lookup_empty|].
      intros Hbad. apply (bool_decide_pack _) in Hbad. by vm_compute in Hbad.
    + rewrite (Hsft eq_refl key Hkey). apply lookup_empty.
Qed.

End PassFacts.

Lemma response_slice_shape_witness :
  Forall (fun row => length row = 2) [[1; 2]; [3; 4]]
  /\ response_slice 3 [[1; 2]; [3; 4]] = [[1]; [3]].
Proof.
  assert (Forall (fun row => length row = 2) [[1; 2]; [3; 4]]) as Hrect
    by (forall_rows; reflexivity).
  split; [exact Hrect|].
  destruct (response_slice_shape 3 2 [[1; 2]; [3; 4]] Hrect) as (_ & _ & Hclamp).
  rewrite Hclamp by lia. reflexivity.
Defined.

Lemma compute_log_prob_read_only_witness :
  exists log_probs entropy self',
    compute_log_prob test_actor test_data3 = Ok (log_probs, entropy, self')
    /\ params self' = params test_actor
    /\ training self' = false.
Proof.
  destruct (succeeds_Ok (compute_log_prob test_actor test_data3))
    as [[[log_probs entropy] self'] Hc]; [vm_compute; reflexivity|].
  destruct (compute_log_prob_read_only test_actor self' test_data3 log_probs entropy Hc)
    as (_ & Hp & _ & _ & Ht & _).
  exists log_probs, entropy, self'. split; [exact Hc|]. split; [exact Hp|exact Ht].
Defined.

Lemma update_policy_grad_norm_per_mini_batch_witness :
  exists metrics self',
    update_policy test_actor test_data "normal" = Ok (metrics, self')
    /\ training self' = true
    /\ length (metric_list metrics "actor/grad_norm") = 1.
Proof.
  destruct (succeeds_Ok (update_policy test_actor test_data "normal"))
    as [[metrics self'] Hu]; [vm_compute; reflexivity|].
  destruct (update_policy_grad_norm_per_mini_batch test_actor self' test_data "normal"
              metrics Hu)
    as (_ & Ht & (select_keys & selected & dataloader & Hk & Hs & Hd & Hlen) & _).
  exists metrics, self'. split; [exact Hu|]. split; [exact Ht|].
  assert (length <$> (select_keys ← update_select_keys (train test_actor) test_data "normal";
                      selected ← select (batch test_data) select_keys;
                      split selected (ppo_mini_batch_size (config test_actor)))
          = Ok 1) as Hone by (vm_compute; reflexivity).
  rewrite Hk, bind_Ok_l, Hs, bind_Ok_l, Hd in Hone. injection Hone as Hone.
  change (grad_norm_key "normal") with "actor/grad_norm" in Hlen. now rewrite Hlen.
Defined.

Lemma index_rows_bound {A} (t : list A) (idx : list nat) (l' : list A) :
  index_rows t idx = Ok l' -> Forall (fun i => i < length t) idx.
Proof.
  intros Hi. apply list.Forall_forall. intros i Hin.
  apply list_elem_of_lookup in Hin as [r Hr].
  destruct (index_rows_lookup _ _ _ _ _ Hi Hr) as (x & Hx & _).
  now apply lookup_lt_Some in Hx.
Qed.

Section AllLogitsFacts.
Context `{Collaborators}.

Lemma all_logits_loop_agrees (self self' : actor) (micro_batches : list TensorDict)
  (temperature : Q) (all_logits_lst all_logits_lst' : list (list (list Logits)))
  (lps es : list tensor) :
  all_logits_loop self micro_batches temperature all_logits_lst
  = Ok (all_logits_lst', self') ->
  length (concat all_logits_lst) = length (concat lps) ->
  exists lps' es',
    log_prob_loop self micro_batches temperature lps es = Ok (lps', es', self')
    /\ length all_logits_lst' = length all_logits_lst + length micro_batches
    /\ length (concat all_logits_lst') = length (concat lps').
Proof.
  revert self all_logits_lst lps es.
  induction micro_batches as [|mb rest IH]; intros self als lps es Hl Hlen.
  - simpl in Hl. inversion Hl; subst. exists lps, es. simpl. repeat split; [lia|done].
  - simpl in Hl. apply bind_Ok in Hl as ([[[entropy log_probs] all_logits] self1] & Hf & Hl).
    destruct (forward_micro_batch_2_inv self mb temperature) as [Hagree _].
    destruct (Hagree _ _ _ _ Hf) as [Hf1 Hrows].
    apply (IH _ _ (lps ++ [log_probs]) (es ++ [entropy])) in Hl
      as (lps' & es' & Hloop & Hn & Hc).
    + exists lps', es'. simpl. rewrite Hf1. simpl. split; [done|].
      rewrite length_app in Hn. simpl in Hn. split; [lia|done].
    + rewrite !concat_app, !length_app. simpl. rewrite !app_nil_r. lia.
Qed.

(** X20.  [compute_all_logits] follows [compute_log_prob] step by step:
    whenever it returns, [compute_log_prob] returns on the same data, leaves
    the actor in the same state (the same model calls in the same order), and
    the logits have one row per row of log-probabilities. *)
Theorem compute_all_logits_follows_log_prob (self self' : actor) (data : DataProto)
  (all_logits : list (list Logits)) :
  compute_all_logits self data = Ok (all_logits, self') ->
  exists log_probs entropy,
    compute_log_prob self data = Ok (log_probs, entropy, self')
    /\ length all_logits = length log_probs.
Proof.
  unfold compute_all_logits. intros Hc. rewrite compute_log_prob_pass.
  apply bind_Ok in Hc as (selected & Hsel & Hc). rewrite Hsel, bind_Ok_l.
  unfold log_prob_pass.
  apply bind_Ok in Hc as ([micro_batches indices] & Hplan & Hc). rewrite Hplan, bind_Ok_l.
  apply bind_Ok in Hc as ([als self1] & Hloop & Hc).
  apply bind_Ok in Hc as (al & Hal & Hc).
  destruct (all_logits_loop_agrees _ _ _ _ _ _ [] [] Hloop eq_refl)
    as (lps & es & Hlp & Hn & Hrows).
  destruct (log_prob_loop_rows _ _ _ _ _ _ _ _ Hlp eq_refl) as (Hl1 & Hl2 & Hl3).
  simpl in Hn, Hl1, Hl2. rewrite Hlp, bind_Ok_l.
  assert (al = concat als) as -> by (destruct als; [done|now inversion Hal]).
  assert (torch_concat lps = Ok (concat lps)) as ->.
  { destruct lps; [|done]. destruct als; [done|]. simpl in *. lia. }
  assert (torch_concat es = Ok (concat es)) as ->.
  { destruct es; [|done]. destruct als; [done|]. simpl in *. lia. }
  rewrite !bind_Ok_l.
  destruct (meta_use_dynamic_bsz (meta_info data)).
  - apply bind_Ok in Hc as (u & Ha & Hc). rewrite <- Hrows, Ha, bind_Ok_l.
    apply bind_Ok in Hc as (rev & Hrev & Hc). rewrite Hrev, bind_Ok_l.
    apply bind_Ok in Hc as (al' & Hal' & Hc). inversion Hc; subst. clear Hc.
    pose proof (index_rows_bound _ _ _ Hal') as Hb.
    destruct (index_rows_Ok (concat lps) rev) as [lp' Hlp']; [now rewrite <- Hrows|].
    destruct (index_rows_Ok (concat es) rev) as [en' Hen']; [now rewrite Hl3, <- Hrows|].
    rewrite Hlp', bind_Ok_l, Hen', bind_Ok_l. exists lp', en'. split; [done|].
    apply index_rows_length in Hal', Hlp'. lia.
  - inversion Hc; subst. exists (concat lps), (concat es). done.
Qed.

End AllLogitsFacts.

Lemma compute_all_logits_follows_log_prob_witness :
  exists all_logits log_probs entropy self',
    compute_all_logits test_actor test_data3 = Ok (all_logits, self')
    /\ compute_log_prob test_actor test_data3 = Ok (log_probs, entropy, self')
    /\ length all_logits = length log_probs.
Proof.
  destruct (succeeds_Ok (compute_all_logits test_actor test_data3))
    as [[all_logits self'] Hc]; [vm_compute; reflexivity|].
  destruct (compute_all_logits_follows_log_prob test_actor self' test_data3 all_logits Hc)
    as (log_probs & entropy & Hlp & Hlen).
  exists all_logits, log_probs, entropy, self'. split; [exact Hc|].
  split; [exact Hlp|exact Hlen].
Defined.

Section EventFacts.
Context `{Collaborators}.

Lemma count_events_app (p : event -> bool) (t1 t2 : list event) :
  count_events p (t1 ++ t2) = count_events p t1 + count_events p t2.
Proof. unfold count_events. now rewrite List.filter_app, length_app. Qed.

Ltac count_literal_events :=
  repeat match goal with
         | |- context [count_events ?p (?e :: ?l)] =>
             let n := eval cbv in (count_events p (e :: l)) in
             change (count_events p (e :: l)) with n
         | Hc : context [count_events ?p (?e :: ?l)] |- _ =>
             let n := eval cbv in (count_events p (e :: l)) in
             change (count_events p (e :: l)) with n in Hc
         end.

Lemma micro_batch_step_trace (self self' : actor) (mode : string) (temperature : Q)
  (metrics metrics' : gmap string metric) (micro_batch : TensorDict) :
  micro_batch_step self mode temperature metrics micro_batch = Ok (metrics', self') ->
  mode = "normal"
  /\ exists args loss, trace self' = trace self ++ [ModelCall args; Backward loss].
Proof.
  intros Hm. apply micro_batch_step_inv in Hm
    as (policy_loss & data & self1 & loss & -> & Hb & _ & Hback).
  split; [done|]. apply loss_backward_inv in Hback as [_ ->].
  apply normal_branch_inv in Hb as (? & ? & ? & ? & ? & _ & Hf & _).
  apply forward_micro_batch_trace in Hf as [args ->]. exists args, loss. simpl.
  now rewrite <- app_assoc.
Qed.

Lemma micro_batch_loop_counts (self self' : actor) (mode : string) (temperature : Q)
  (metrics metrics' : gmap string metric) (micro_batches : list TensorDict) :
  micro_batch_loop self mode temperature metrics micro_batches = Ok (metrics', self') ->
  (micro_batches <> [] -> mode = "normal")
  /\ count_events is_backward (trace self')
     = count_events is_backward (trace self) + length micro_batches
  /\ count_events is_model_call (trace self')
     = count_events is_model_call (trace self) + length micro_batches.
Proof.
  revert self metrics. induction micro_batches as [|mb rest IH]; intros self metrics Hl.
  - simpl in Hl. inversion Hl; subst. simpl. split; [done|]. split; lia.
  - simpl in Hl. apply bind_Ok in Hl as ([m1 self1] & Hs & Hl).
    apply IH in Hl as (_ & Hb & Hm). rewrite Hb, Hm.
    apply micro_batch_step_trace in Hs as (-> & args & loss & ->).
    split; [done|]. rewrite !count_events_app. count_literal_events. simpl length.
    split; lia.
Qed.

(** X21.  In normal mode one mini-batch runs one forward pass of the model and
    one backward pass per micro-batch.  In supervised-only mode no micro-batch
    completes: its loss is computed from the tensors of the batch alone,
    without running the model, and [backward] refuses it with a RuntimeError;
    a mini-batch of that mode returns only if it has no micro-batch. *)
Theorem mini_batch_step_forward_backward (self : actor) (mode : string)
  (temperature : Q) (metrics : gmap string metric) (mini_batch : TensorDict) :
  (forall metrics' self',
     mini_batch_step self mode temperature metrics mini_batch = Ok (metrics', self') ->
     exists micro_batches self0,
       update_micro_batches self mini_batch = Ok (micro_batches, self0)
       /\ (micro_batches <> [] -> mode = "normal")
       /\ count_events is_backward (trace self')
          = count_events is_backward (trace self) + length micro_batches
       /\ count_events is_model_call (trace self')
          = count_events is_model_call (trace self) + length micro_batches)
  /\ (forall micro_batch policy_loss data metrics1 self1 loss,
        sft_only_branch self micro_batch metrics
        = Ok (policy_loss, data, metrics1, self1) ->
        scale_loss self1 policy_loss data = Ok loss ->
        self1 = self
        /\ micro_batch_step self "sft_only" temperature metrics micro_batch
           = Err RuntimeError)
  /\ (forall micro_batch,
        ~ is_Ok (micro_batch_step self "sft_only" temperature metrics micro_batch)).
Proof.
  split; [|split].
  - intros metrics' self' Hm. apply mini_batch_step_inv in Hm
      as (micro_batches & self0 & metrics1 & self1 & grad_norm & Hu & Hl & Ho & _).
    exists micro_batches, self0. split; [done|].
    apply update_micro_batches_self in Hu as (_ & _ & _ & _ & _ & T0).
    apply micro_batch_loop_counts in Hl as (Hmode & Hb & Hc). simpl in Hb, Hc.
    rewrite T0, !count_events_app in Hb, Hc. count_literal_events.
    split; [done|].
    apply optimizer_step_events in Ho as (_ & opt & -> & max_norm & [->|[g ->]]);
      rewrite !count_events_app; count_literal_events; lia.
  - intros micro_batch policy_loss data metrics1 self1 loss Hb Hs.
    pose proof (sft_only_branch_inv _ _ _ _ _ _ _ Hb) as (-> & _). split; [done|].
    unfold micro_batch_step. simpl. rewrite Hb, bind_Ok_l, Hs. reflexivity.
  - intros micro_batch [[metrics' self'] Hm].
    apply micro_batch_step_trace in Hm as [Hmode _]. discriminate.
Qed.

(** X22.  In normal mode the supervised and the KL diagnostics are stored as
    single numbers: a micro-batch that computes them replaces whatever the
    names held, so that of a run only the last micro-batch's values remain. *)
Theorem scalar_metrics_overwritten (self self' : actor) (temperature : Q)
  (metrics metrics' : gmap string metric) (micro_batch : TensorDict) :
  micro_batch_step self "normal" temperature metrics micro_batch = Ok (metrics', self') ->
  (sft_multi_task self = true ->
   exists ground_truth_mask_pr old_log_prob_pr,
     getitem micro_batch "ground_truth_mask_pr" = Ok ground_truth_mask_pr
     /\ getitem micro_batch "old_log_probs_pr" = Ok old_log_prob_pr
     /\ metrics' !! "actor/sft_loss"
        = Some (MScalar (Fin (sft_loss_of ground_truth_mask_pr old_log_prob_pr)))
     /\ metrics' !! "actor/sft_coef" = Some (MScalar (Fin (sft_loss_coef (config self)))))
  /\ (use_kl_loss (config self) = true ->
      (exists kl_loss, metrics' !! "actor/kl_loss" = Some (MScalar (Fin kl_loss)))
      /\ metrics' !! "actor/kl_coef" = Some (MScalar (Fin (kl_loss_coef (config self))))).
Proof.
  intros Hm. apply micro_batch_step_inv in Hm
    as (policy_loss & data & self1 & loss & _ & Hb & _ & _).
  unfold normal_branch in Hb.
  apply bind_Ok in Hb as (response_mask & _ & Hb).
  apply bind_Ok in Hb as (old_log_prob & _ & Hb).
  apply bind_Ok in Hb as (advantages & _ & Hb).
  apply bind_Ok in Hb as ([[entropy log_prob] self2] & Hf & Hb).
  assert (config self2 = config self) as Hcfg.
  { apply forward_micro_batch_trace in Hf as [args ->]. done. }
  destruct (compute_policy_loss _ _ _ _ _ _ _) as [[pg_loss pg_clipfrac] ppo_kl].
  apply bind_Ok in Hb as ([pl1 m1] & Hkl & Hb).
  apply bind_Ok in Hb as ([pl2 m2] & Hsft & Hb).
  apply bind_Ok in Hb as (m3 & Happ & Hb). inversion Hb; subst. clear Hb.
  apply append_to_dict_spec in Happ as [Hother _];
    [|apply (bool_decide_unpack _); by vm_compute].
  assert (forall key, key ∈ scalar_keys -> metrics' !! key = m2 !! key) as Hkeep.
  { intros key Hkey. apply Hother. intros Hbad. unfold scalar_keys in Hkey. simpl in Hbad.
    repeat (apply elem_of_cons in Hkey as [->|Hkey];
            [apply (bool_decide_pack _) in Hbad; by vm_compute in Hbad|]).
    by apply not_elem_of_nil in Hkey. }
  assert (sft_multi_task self1 = sft_multi_task self) as Hmt.
  { unfold sft_multi_task. now rewrite Hcfg. }
  split.
  - intros Hmulti.
    unfold add_sft_loss in Hsft. rewrite Hmt, Hmulti in Hsft.
    apply bind_Ok in Hsft as ([sft_loss m] & Hs & Hsft). inversion Hsft; subst. clear Hsft.
    apply sft_terms_inv in Hs as (gt & lp & Hgt & Hlp & -> & ->).
    exists gt, lp. split; [done|]. split; [done|]. rewrite !Hkeep, Hcfg.
    + rewrite lookup_insert_eq. split; [|done].
      rewrite lookup_insert_ne by done. now rewrite lookup_insert_eq.
    + apply (bool_decide_unpack _). by vm_compute.
    + apply (bool_decide_unpack _). by vm_compute.
  - intros Hkl_on. unfold add_kl_loss in Hkl. rewrite Hcfg, Hkl_on in Hkl.
    apply bind_Ok in Hkl as (ref_log_prob & _ & Hkl). inversion Hkl; subst. clear Hkl.
    rewrite !Hkeep; [|apply (bool_decide_unpack _); by vm_compute..].
    rewrite !(add_sft_loss_other _ _ _ _ _ _ Hsft) by done.
    rewrite lookup_insert_eq. split; [|done].
    rewrite lookup_insert_ne by done. rewrite lookup_insert_eq. eauto.
Qed.

End EventFacts.

(** A mini-batch of two micro-batches in normal mode, and a micro-batch of
    the supervised-only mode. *)
Lemma mini_batch_step_forward_backward_witness :
  (exists metrics' (self' : @actor stub),
     mini_batch_step test_actor "normal" 1%Q ∅ test_batch = Ok (metrics', self')
     /\ count_events is_backward (trace self') = 2
     /\ count_events is_model_call (trace self') = 2)
  /\ micro_batch_step (set_gradient_accumulation (with_config sft_config) 2) "sft_only" 1%Q
       ∅ sft_batch
     = Err RuntimeError.
Proof.
  split.
  - destruct (succeeds_Ok (mini_batch_step test_actor "normal" 1%Q ∅ test_batch))
      as [[metrics' self'] Hstep]; [vm_compute; reflexivity|].
    destruct (mini_batch_step_forward_backward test_actor "normal" 1%Q ∅ test_batch)
      as [Hnormal _].
    destruct (Hnormal metrics' self' Hstep) as (micro_batches & self0 & Hu & _ & Hb & Hm).
    assert ((fun r => length r.1) <$> update_micro_batches test_actor test_batch = Ok 2)
      as Hlen by (vm_compute; reflexivity).
    rewrite Hu in Hlen. injection Hlen as Hlen. simpl in Hlen.
    exists metrics', self'. split; [exact Hstep|].
    rewrite Hb, Hm, Hlen. split; reflexivity.
  - set (self := set_gradient_accumulation (with_config sft_config) 2).
    set (run := r ← sft_only_branch self sft_batch ∅;
                loss ← scale_loss r.2 r.1.1.1 r.1.1.2;
                Ok (r, loss)).
    destruct (succeeds_Ok run) as [[[[[policy_loss data] metrics1] self1] loss] Hrun];
      [vm_compute; reflexivity|].
    subst run. apply bind_Ok in Hrun as ([[[pl d] m1] s1] & Hb & Hrun).
    apply bind_Ok in Hrun as (l & Hs & Hrun). simpl in Hs.
    destruct (mini_batch_step_forward_backward self "sft_only" 1%Q ∅ sft_batch)
      as (_ & Hsft & _).
    exact (proj2 (Hsft sft_batch pl d m1 s1 l Hb Hs)).
Defined.

(** A micro-batch of the normal mode with the supervised loss added: the
    list held under 'actor/sft_coef' is replaced by the coefficient. *)
Lemma scalar_metrics_overwritten_witness :
  exists metrics' (self' : @actor stub),
    micro_batch_step (set_gradient_accumulation (with_config multi_task_config) 2) "normal"
      1%Q (<["actor/sft_coef" := MList [Fin 7; Fin 8]]> ∅) sft_batch
    = Ok (metrics', self')
    /\ metrics' !! "actor/sft_coef" = Some (MScalar (Fin 1)).
Proof.
  destruct (succeeds_Ok
              (micro_batch_step (set_gradient_accumulation (with_config multi_task_config) 2)
                 "normal" 1%Q (<["actor/sft_coef" := MList [Fin 7; Fin 8]]> ∅) sft_batch))
    as [[metrics' self'] Hstep]; [vm_compute; reflexivity|].
  destruct (scalar_metrics_overwritten
              (set_gradient_accumulation (with_config multi_task_config) 2) self' 1%Q
              (<["actor/sft_coef" := MList [Fin 7; Fin 8]]> ∅) metrics' sft_batch Hstep)
    as [Hsft _].
  destruct (Hsft eq_refl) as (gt & lp & _ & _ & _ & Hcoef).
  exists metrics', self'. split; [exact Hstep|exact Hcoef].
Defined.

Section MissingTensorFacts.
Context `{Collaborators}.

(** X23.  A batch that lacks one of 'responses', 'input_ids', 'attention_mask'
    and 'position_ids' is refused with a KeyError by every entry point, and by
    the forward before the model is called. *)
Theorem missing_tensor_refused (self : actor) (data : DataProto) (key : string) :
  key ∈ ["responses"; "input_ids"; "attention_mask"; "position_ids"] ->
  contains (batch data) key = false ->
  compute_log_prob self data = Err KeyError
  /\ compute_all_logits self data = Err KeyError
  /\ update_policy self data "normal" = Err KeyError
  /\ forall temperature,
       _forward_micro_batch self (batch data) temperature = Err KeyError
       /\ _forward_micro_batch_2 self (batch data) temperature = Err KeyError.
Proof.
  intros Hkey Hc. apply contains_false in Hc.
  split; [|split; [|split]].
  - unfold compute_log_prob. now rewrite (select_missing _ key).
  - unfold compute_all_logits. now rewrite (select_missing _ key).
  - unfold update_policy.
    destruct (update_select_keys_normal (train self) data) as (keys & -> & _ & _ & Hall).
    simpl. rewrite (select_missing _ key); [done| |done].
    apply Hall. repeat (apply elem_of_cons in Hkey as [->|Hkey];
                        [apply (bool_decide_unpack _); by vm_compute|]).
    by apply not_elem_of_nil in Hkey.
  - intros temperature. unfold _forward_micro_batch, _forward_micro_batch_2, getitem.
    repeat (apply elem_of_cons in Hkey as [->|Hkey];
            [rewrite Hc;
             repeat match goal with
                    | |- context [tensors (batch data) !! ?k] =>
                        destruct (tensors (batch data) !! k)
                    end; done|]).
    by apply not_elem_of_nil in Hkey.
Qed.

End MissingTensorFacts.

Lemma missing_tensor_refused_witness :
  contains (batch (without_tensor test_data "position_ids")) "position_ids" = false
  /\ compute_log_prob test_actor (without_tensor test_data "position_ids") = Err KeyError.
Proof.
  assert (contains (batch (without_tensor test_data "position_ids")) "position_ids" = false)
    as Hc by (vm_compute; reflexivity).
  split; [exact Hc|].
  destruct (missing_tensor_refused test_actor (without_tensor test_data "position_ids")
              "position_ids") as [Hlp _]; [|exact Hc|exact Hlp].
  apply (bool_decide_unpack _). by vm_compute.
Defined.

Section OrderFacts.
Context `{Collaborators}.

(** X24.  With dynamic micro-batching on a batch of [N >= 1] examples,
    [compute_all_logits] fails its assertion when the number of recorded
    indices differs from the number of concatenated rows, and otherwise returns
    the concatenated per-micro-batch logits reindexed by the reverse
    permutation: row [p] of the result is the row computed in the slot that
    holds example [p]. *)
Theorem compute_all_logits_restores_order
  (self self1 : actor) (data : DataProto) (selected : TensorDict) (attention_mask : tensor)
  (micro_batches : list TensorDict) (indices : list (list nat))
  (all_logits_lst : list (list (list Logits))) :
  let N := length attention_mask in
  let flat := concat indices in
  let concatenated := concat all_logits_lst in
  meta_use_dynamic_bsz (meta_info data) = true ->
  select (batch data) ["responses"; "input_ids"; "attention_mask"; "position_ids"]
  = Ok selected ->
  getitem selected "attention_mask" = Ok attention_mask ->
  0 < N ->
  plan_micro_batches (eval self) data selected = Ok (micro_batches, indices) ->
  all_logits_loop (eval self) micro_batches (meta_temperature (meta_info data)) []
  = Ok (all_logits_lst, self1) ->
  flat ≡ₚ seq 0 N
  /\ (length flat <> length concatenated ->
      compute_all_logits self data = Err AssertionError)
  /\ (length flat = length concatenated ->
      exists reverse all_logits,
        get_reverse_idx flat = Ok reverse
        /\ compute_all_logits self data = Ok (all_logits, self1)
        /\ length all_logits = N
        /\ forall p, p < N ->
             exists k, reverse !! p = Some k
                       /\ flat !! k = Some p
                       /\ all_logits !! p = concatenated !! k).
Proof.
  intros N flat concatenated Hdyn Hsel Hmask HN Hplan Hloop.
  pose proof Hplan as Hplan'. unfold plan_micro_batches in Hplan'. rewrite Hdyn in Hplan'.
  destruct (rearrange_micro_batches_perm _ _ _ _ _ Hmask Hplan') as [Hperm Hmbs].
  fold flat N in Hperm.
  assert (micro_batches <> []) as Hne.
  { rewrite Hmbs. intros Hnil. apply fmap_nil_inv in Hnil. subst flat. rewrite Hnil in Hperm.
    simpl in Hperm. apply Permutation_length in Hperm. rewrite length_seq in Hperm.
    simpl in Hperm. lia. }
  destruct (all_logits_loop_agrees _ _ _ _ _ _ [] [] Hloop eq_refl)
    as (lps & es & _ & Hn & _). simpl in Hn.
  assert (torch_concat all_logits_lst = Ok concatenated) as Hc.
  { destruct all_logits_lst; [|done]. destruct micro_batches; done. }
  assert (forall k : result (list (list Logits) * actor) -> Prop,
            k (_ ← assert (length flat =? length concatenated);
               revert_indices ← get_reverse_idx flat;
               all_logits ← index_rows concatenated revert_indices;
               Ok (all_logits, self1)) ->
            k (compute_all_logits self data)) as Hunfold.
  { intros k Hk. unfold compute_all_logits. rewrite Hsel, bind_Ok_l, Hplan, bind_Ok_l.
    rewrite Hloop, bind_Ok_l, Hc, bind_Ok_l, Hdyn. exact Hk. }
  split; [done|]. split.
  - intros Hlen. apply Hunfold.
    destruct (Nat.eqb_spec (length flat) (length concatenated)); [done|]. reflexivity.
  - intros Hlen.
    destruct (get_reverse_idx_perm flat N Hperm) as (rev & Hrev & Hrlen & Hfwd & Hinv).
    assert (length flat = N) as HflatN by (rewrite Hperm; apply length_seq).
    assert (Forall (fun i => i < length concatenated) rev) as Hbound.
    { apply list.Forall_forall. intros k Hk. apply list_elem_of_lookup in Hk as [p Hp].
      pose proof (lookup_lt_Some _ _ _ Hp) as Hplt. rewrite Hrlen in Hplt.
      destruct (Hinv p Hplt) as (k' & Hk' & Hflat). rewrite Hp in Hk'. inversion Hk'; subst k'.
      apply lookup_lt_Some in Hflat. lia. }
    destruct (index_rows_Ok concatenated rev Hbound) as [all_logits Hal].
    exists rev, all_logits. split; [done|]. split; [|split].
    + apply Hunfold. rewrite Hlen, Nat.eqb_refl. simpl. rewrite Hrev. simpl.
      rewrite Hal. reflexivity.
    + apply index_rows_length in Hal. lia.
    + intros p Hp. destruct (Hinv p Hp) as (k & Hk & Hflat). exists k.
      split; [done|]. split; [done|].
      destruct (index_rows_lookup _ _ _ _ _ Hal Hk) as (x & Hx & ->). done.
Qed.

(** X25.  Without packing, what the forward returns and what it hands to the
    model depend on the actor only through its parameters and its train/eval
    flag: two actors that agree on these return the same tensors and make the
    same model call, whatever the rest of their configuration, the
    sequence-parallel width included. *)
Theorem dense_forward_reads_parameters_only (self self2 : actor) (micro_batch : TensorDict)
  (temperature : Q) :
  use_remove_padding (config self) = false ->
  use_remove_padding (config self2) = false ->
  params self2 = params self ->
  training self2 = training self ->
  match _forward_micro_batch self micro_batch temperature,
        _forward_micro_batch self2 micro_batch temperature with
  | Ok (entropy, log_probs, self'), Ok (entropy2, log_probs2, self2') =>
      entropy2 = entropy /\ log_probs2 = log_probs
      /\ exists args, self' = log self (ModelCall args) /\ self2' = log self2 (ModelCall args)
  | Err e, Err e2 => e2 = e
  | _, _ => False
  end.
Proof.
  intros Hrm Hrm2 Hp Ht. unfold _forward_micro_batch. rewrite Hrm, Hrm2.
  destruct (getitem micro_batch "responses") as [responses|]; simpl; [|done].
  destruct (getitem micro_batch "input_ids") as [input_ids|]; simpl; [|done].
  destruct (getitem micro_batch "attention_mask") as [attention_mask|]; simpl; [|done].
  destruct (getitem micro_batch "position_ids") as [position_ids|]; simpl; [|done].
  unfold dense_forward, call_model. rewrite Hp, Ht.
  destruct (logprobs_from_logits_2d _ responses) as [log_probs|]; simpl; [|done].
  repeat split. eauto.
Qed.

(** X26.  The tensors each mode of [update_policy] requires: a batch that
    lacks one of them raises KeyError at selection, before any mini-batch
    runs.  The supervised-only mode requires 'old_log_probs' and the three
    input tensors although its loss reads none of them. *)
Theorem update_policy_required_tensors (self : actor) (data : DataProto) (key : string) :
  contains (batch data) key = false ->
  (key ∈ ["responses"; "input_ids"; "attention_mask"; "position_ids";
          "old_log_probs"; "advantages"]
   \/ (use_kl_loss (config self) = true /\ key = "ref_log_prob")
   \/ (sft_multi_task self = true /\ key ∈ ["ground_truth_mask_pr"; "old_log_probs_pr"]) ->
   update_policy self data "normal" = Err KeyError)
  /\ (sft_bilevel self = true ->
      key ∈ ["responses"; "input_ids"; "attention_mask"; "position_ids";
             "old_log_probs"; "ground_truth_mask_pr"; "old_log_probs_pr"] ->
      update_policy self data "sft_only" = Err KeyError).
Proof.
  intros Hc. apply contains_false in Hc. split.
  - intros Hkey. unfold update_policy, update_select_keys. simpl.
    change (use_kl_loss (config (train self))) with (use_kl_loss (config self)).
    change (sft_multi_task (train self)) with (sft_multi_task self).
    rewrite (select_missing _ key); [done| |done].
    destruct Hkey as [Hkey|[[Hkl ->]|[Hmt Hkey]]].
    + destruct (use_kl_loss _), (sft_multi_task _), (contains _ _);
        repeat (apply elem_of_cons in Hkey as [->|Hkey];
                [apply (bool_decide_unpack _); by vm_compute|]);
        by apply not_elem_of_nil in Hkey.
    + rewrite Hkl. destruct (sft_multi_task _), (contains _ _);
        apply (bool_decide_unpack _); by vm_compute.
    + rewrite Hmt. destruct (use_kl_loss _), (contains _ _);
        repeat (apply elem_of_cons in Hkey as [->|Hkey];
                [apply (bool_decide_unpack _); by vm_compute|]);
        by apply not_elem_of_nil in Hkey.
  - intros Hb Hkey. unfold update_policy, update_select_keys. simpl.
    change (sft_bilevel (train self)) with (sft_bilevel self). rewrite Hb. simpl.
    now rewrite (select_missing _ key).
Qed.

End OrderFacts.

Lemma compute_all_logits_restores_order_witness :
  [0; 2; 1] ≡ₚ seq 0 3
  /\ exists all_logits self1,
       compute_all_logits test_actor test_data3 = Ok (all_logits, self1)
       /\ length all_logits = 3.
Proof.
  set (run := selected ← select (batch test_data3)
                            ["responses"; "input_ids"; "attention_mask"; "position_ids"];
              plan ← plan_micro_batches (eval test_actor) test_data3 selected;
              done ← all_logits_loop (eval test_actor) plan.1
                       (meta_temperature (meta_info test_data3)) [];
              Ok (selected, plan, done)).
  destruct (succeeds_Ok run) as [[[selected [micro_batches indices]] [all_logits_lst self1]] Hrun];
    [vm_compute; reflexivity|].
  assert ((fun r => (getitem r.1.1 "attention_mask", r.1.2.2, length (concat r.2.1)))
          <$> run
          = Ok (Ok [[0; 0; 1; 1; 1]; [1; 1; 1; 1; 1]; [0; 0; 0; 1; 1]]%Q, [[0; 2]; [1]], 3))
    as Hfacts by (vm_compute; reflexivity).
  rewrite Hrun in Hfacts. injection Hfacts as Hmask Hidx Hrows. simpl in Hmask, Hidx, Hrows.
  subst indices run.
  apply bind_Ok in Hrun as (sel & Hsel & Hrun).
  apply bind_Ok in Hrun as ([mbs idx] & Hplan & Hrun).
  apply bind_Ok in Hrun as ([als s1] & Hloop & Hrun). simpl in Hloop.
  injection Hrun as -> -> -> -> ->.
  destruct (compute_all_logits_restores_order test_actor self1 test_data3 selected
              [[0; 0; 1; 1; 1]; [1; 1; 1; 1; 1]; [0; 0; 0; 1; 1]]%Q
              micro_batches [[0; 2]; [1]] all_logits_lst eq_refl Hsel Hmask)
    as (Hperm & _ & Hok); [simpl; lia|exact Hplan|exact Hloop|].
  split; [exact Hperm|].
  destruct Hok as (rev & all_logits & _ & Hc & Hlen & _); [simpl; now rewrite Hrows|].
  exists all_logits, self1. split; [exact Hc|exact Hlen].
Defined.

Lemma dense_forward_reads_parameters_only_witness :
  use_remove_padding (config (with_config dense_config)) = false
  /\ exists entropy log_probs self1 self2,
       _forward_micro_batch (with_config dense_config) test_batch 1%Q
       = Ok (entropy, log_probs, self1)
       /\ _forward_micro_batch (with_config (make_config false 2 false 2 1 false None))
            test_batch 1%Q
          = Ok (entropy, log_probs, self2).
Proof.
  split; [reflexivity|].
  pose proof (dense_forward_reads_parameters_only (with_config dense_config)
                (with_config (make_config false 2 false 2 1 false None)) test_batch 1%Q
                eq_refl eq_refl eq_refl eq_refl) as Hsame.
  destruct (succeeds_Ok (_forward_micro_batch (with_config dense_config) test_batch 1%Q))
    as [[[entropy log_probs] self1] Hf]; [vm_compute; reflexivity|].
  rewrite Hf in Hsame.
  destruct (_forward_micro_batch (with_config (make_config false 2 false 2 1 false None))
              test_batch 1%Q) as [[[entropy2 log_probs2] self2]|e]; [|done].
  destruct Hsame as (-> & -> & _). exists entropy, log_probs, self1, self2. done.
Defined.

Lemma update_policy_required_tensors_witness :
  contains (batch test_data3) "advantages" = false
  /\ update_policy test_actor test_data3 "normal" = Err KeyError.
Proof.
  assert (contains (batch test_data3) "advantages" = false) as Hc
    by (vm_compute; reflexivity).
  split; [exact Hc|].
  destruct (update_policy_required_tensors test_actor test_data3 "advantages" Hc)
    as [Hnormal _].
  apply Hnormal. left. apply (bool_decide_unpack _). by vm_compute.
Defined.
